(** * PayPro integration of the accounts API: a shallow embedding

    The development follows [api/src/paypro.ts] and [api/src/errors.ts]:
    - JavaScript strings are sequences of UTF-16 code units ([jsstring]);
    - thrown errors are values of [error], a call that may throw returns a
      [result];
    - the libraries the code calls (the SHA-256 digest of [crypto], the
      AES-CBC cipher and base64 encoder of [node-forge], [URLSearchParams])
      are written out after the standards they implement. *)

From Stdlib Require Import NArith ZArith Lia Btauto DecimalString.
From Stdlib.Strings Require Import Ascii String Byte.
From stdpp Require Import base option list gmap.

Set Default Proof Using "Type".

(** ** JavaScript strings *)

(** A string is its sequence of UTF-16 code units. *)
Abbreviation jsstring := (list N).

(** A literal of the source, written as a Rocq string. *)
Definition js (s : string) : jsstring :=
  map N_of_ascii (list_ascii_of_string s).

(** [[a, b, ...].join('')]: an element that is [undefined] contributes the
    empty string. *)
Definition join_empty (parts : list (option jsstring)) : jsstring :=
  concat (map (default []) parts).

Definition is_high_surrogate (c : N) : bool := ((0xD800 <=? c) && (c <=? 0xDBFF))%N.
Definition is_low_surrogate (c : N) : bool := ((0xDC00 <=? c) && (c <=? 0xDFFF))%N.

(** The code points of a string: a surrogate pair is one code point, a lone
    surrogate is replaced by U+FFFD. *)
Fixpoint code_points (s : jsstring) : list N :=
  match s with
  | [] => []
  | c :: t =>
      if is_high_surrogate c then
        match t with
        | d :: t' =>
            if is_low_surrogate d
            then (0x10000 + (c - 0xD800) * 0x400 + (d - 0xDC00))%N :: code_points t'
            else 0xFFFD%N :: code_points t
        | [] => [0xFFFD%N]
        end
      else if is_low_surrogate c then 0xFFFD%N :: code_points t
      else c :: code_points t
  end.

Definition byte_of_N (n : N) : byte :=
  default x00 (Byte.of_N (n mod 256)).

Definition utf8_code_point (cp : N) : list byte :=
  (if cp <? 0x80 then [byte_of_N cp]
   else if cp <? 0x800 then
     [byte_of_N (0xC0 + cp / 0x40); byte_of_N (0x80 + cp mod 0x40)]
   else if cp <? 0x10000 then
     [byte_of_N (0xE0 + cp / 0x1000); byte_of_N (0x80 + (cp / 0x40) mod 0x40);
      byte_of_N (0x80 + cp mod 0x40)]
   else
     [byte_of_N (0xF0 + cp / 0x40000); byte_of_N (0x80 + (cp / 0x1000) mod 0x40);
      byte_of_N (0x80 + (cp / 0x40) mod 0x40); byte_of_N (0x80 + cp mod 0x40)])%N.

Definition utf8_encode (s : jsstring) : list byte :=
  concat (map utf8_code_point (code_points s)).

(** ** Errors ([errors.ts]) *)

(** The [requestInfo] of an error of the Auth0 client:
    [{ method?: string, url?: string }]. *)
Record RequestInfo : Type := {
  requestInfo_method : option jsstring;
  requestInfo_url : option jsstring
}.

(** What the code throws. [StatusError] carries the status code the HTTP
    layer answers with; [Error] is the generic JavaScript error; [TypeError]
    is what the language throws when a property of [null] is read;
    [Auth0RequestError] is an [Error] with the properties of the interface
    of that name: a [statusCode] that is a number, a string or [undefined]
    (a number is an integer here, as a status code is), a [requestInfo] and
    an [originalError]. It is the one error with a [requestInfo]. *)
Inductive error : Type :=
| StatusError (statusCode : Z) (message : jsstring)
| Error (message : jsstring)
| TypeError (message : jsstring)
| Auth0RequestError (message : jsstring) (statusCode : option (Z + jsstring))
    (requestInfo : RequestInfo) (originalError : error).

(** [e instanceof StatusError] *)
Definition instanceof_StatusError (e : error) : bool :=
  match e with
  | StatusError _ _ => true
  | _ => false
  end.

Inductive result (A : Type) : Type :=
| Ok (a : A)
| Throw (e : error).
Arguments Ok {A} a.
Arguments Throw {A} e.

(** ** SHA-256 (FIPS 180-4), as [crypto.createHash('sha256')] computes it *)

Module SHA256.
Local Open Scope N_scope.

Definition add32 (a b : N) : N := (a + b) mod 2 ^ 32.
Definition rotr (n x : N) : N :=
  N.lor (N.shiftr x n) ((N.shiftl x (32 - n)) mod 2 ^ 32).
Definition not32 (x : N) : N := N.lxor x 0xFFFFFFFF.

Definition Ch (x y z : N) : N := N.lxor (N.land x y) (N.land (not32 x) z).
Definition Maj (x y z : N) : N :=
  N.lxor (N.lxor (N.land x y) (N.land x z)) (N.land y z).
Definition Sigma0 (x : N) : N := N.lxor (N.lxor (rotr 2 x) (rotr 13 x)) (rotr 22 x).
Definition Sigma1 (x : N) : N := N.lxor (N.lxor (rotr 6 x) (rotr 11 x)) (rotr 25 x).
Definition sigma0 (x : N) : N := N.lxor (N.lxor (rotr 7 x) (rotr 18 x)) (N.shiftr x 3).
Definition sigma1 (x : N) : N := N.lxor (N.lxor (rotr 17 x) (rotr 19 x)) (N.shiftr x 10).

Definition is_prime (p : N) : bool :=
  forallb (fun d => negb (p mod d =? 0)) (map N.of_nat (seq 2 (N.to_nat p - 2))).

(** The first [n] primes. *)
Definition first_primes (n : nat) : list N :=
  take n (filter (fun p => is_prime p = true) (map N.of_nat (seq 2 400))).

(** The integer part of the cube root, bit by bit from bit [k] down. *)
Fixpoint cube_root_bits (k : nat) (acc n : N) : N :=
  match k with
  | O => acc
  | S k' =>
      let candidate := acc + 2 ^ N.of_nat k' in
      if candidate ^ 3 <=? n
      then cube_root_bits k' candidate n
      else cube_root_bits k' acc n
  end.

(** The round constants: the first 32 bits of the fractional parts of the
    cube roots of the first 64 primes. *)
Definition K : list N :=
  Eval vm_compute in
    map (fun p => cube_root_bits 40 0 (p * 2 ^ 96) mod 2 ^ 32) (first_primes 64).

(** The initial hash value: the first 32 bits of the fractional parts of the
    square roots of the first 8 primes. *)
Definition H0 : list N :=
  Eval vm_compute in
    map (fun p => N.sqrt (p * 2 ^ 64) mod 2 ^ 32) (first_primes 8).

(** Big-endian bytes of a number, [n] of them. *)
Fixpoint be_bytes (n : nat) (x : N) : list N :=
  match n with
  | O => []
  | S n' => be_bytes n' (x / 256) ++ [x mod 256]
  end.

Definition be_word (bs : list N) : N :=
  fold_left (fun acc b => acc * 256 + b) bs 0.

(** The message, a 1 bit, zeros up to 56 modulo 64 bytes, and the length in
    bits on 64 bits. *)
Definition pad (msg : list N) : list N :=
  let l := N.of_nat (length msg) in
  let zeros := N.to_nat ((119 - l mod 64) mod 64) in
  msg ++ [0x80] ++ repeat 0 zeros ++ be_bytes 8 (8 * l).

Fixpoint chunks (fuel : nat) (size : nat) (l : list N) : list (list N) :=
  match fuel with
  | O => []
  | S f =>
      match l with
      | [] => []
      | _ => take size l :: chunks f size (drop size l)
      end
  end.

Definition words_of_block (b : list N) : list N :=
  map be_word (chunks 16 4 b).

(** The 64 words of the message schedule. *)
Fixpoint schedule (n : nat) (w : list N) : list N :=
  match n with
  | O => w
  | S n' =>
      let t := length w in
      let x := add32 (add32 (sigma1 (nth (t - 2) w 0)) (nth (t - 7) w 0))
                     (add32 (sigma0 (nth (t - 15) w 0)) (nth (t - 16) w 0)) in
      schedule n' (w ++ [x])
  end.

Definition round (st : list N) (kw : N * N) : list N :=
  match st with
  | [a; b; c; d; e; f; g; h] =>
      let t1 := add32 (add32 (add32 h (Sigma1 e)) (add32 (Ch e f g) kw.1)) kw.2 in
      let t2 := add32 (Sigma0 a) (Maj a b c) in
      [add32 t1 t2; a; b; c; add32 d t1; e; f; g]
  | _ => st
  end.

Definition compress (h : list N) (block : list N) : list N :=
  let w := schedule 48 (words_of_block block) in
  zip_with add32 h (fold_left round (zip K w) h).

Definition digest (msg : list N) : list N :=
  let p := pad msg in
  let h := fold_left compress (chunks (length p) 64 p) H0 in
  concat (map (be_bytes 4) h).

Definition hex_digit (n : N) : N :=
  if n <? 10 then 48 + n else 87 + n.

(** The digest in lower-case hexadecimal, as [digest('hex')] returns it. *)
Definition hex (bs : list N) : jsstring :=
  concat (map (fun b => [hex_digit (b / 16); hex_digit (b mod 16)]) bs).
End SHA256.

(** [crypto.createHash('sha256').update(s).digest('hex')]: [update] hashes
    the UTF-8 encoding of a string. *)
Definition sha256_hex (s : jsstring) : jsstring :=
  SHA256.hex (SHA256.digest (map Byte.to_N (utf8_encode s))).

(** ** AES (FIPS 197) in CBC mode with PKCS#7 padding, as
    [forge.aes.createEncryptionCipher(key, 'CBC')] computes it *)

Module AES.
(** A byte as its eight bits, the least significant first: the form
    [Byte.to_bits] gives. *)
Definition bits8 : Type :=
  bool * (bool * (bool * (bool * (bool * (bool * (bool * bool)))))).

Definition zero8 : bits8 :=
  (false, (false, (false, (false, (false, (false, (false, false))))))).

Definition xor8 (a b : bits8) : bits8 :=
  let '(a0, (a1, (a2, (a3, (a4, (a5, (a6, a7))))))) := a in
  let '(b0, (b1, (b2, (b3, (b4, (b5, (b6, b7))))))) := b in
  (xorb a0 b0, (xorb a1 b1, (xorb a2 b2, (xorb a3 b3,
   (xorb a4 b4, (xorb a5 b5, (xorb a6 b6, xorb a7 b7))))))).

(** Multiplication by [x] in GF(2^8), modulo [x^8 + x^4 + x^3 + x + 1]. *)
Definition xtime (a : bits8) : bits8 :=
  let '(a0, (a1, (a2, (a3, (a4, (a5, (a6, a7))))))) := a in
  (a7, (xorb a0 a7, (a1, (xorb a2 a7, (xorb a3 a7, (a4, (a5, a6))))))).

Definition mul2 (a : bits8) : bits8 := xtime a.
Definition mul3 (a : bits8) : bits8 := xor8 (xtime a) a.
Definition mul9 (a : bits8) : bits8 := xor8 (xtime (xtime (xtime a))) a.
Definition mul11 (a : bits8) : bits8 :=
  xor8 (xor8 (xtime (xtime (xtime a))) (xtime a)) a.
Definition mul13 (a : bits8) : bits8 :=
  xor8 (xor8 (xtime (xtime (xtime a))) (xtime (xtime a))) a.
Definition mul14 (a : bits8) : bits8 :=
  xor8 (xor8 (xtime (xtime (xtime a))) (xtime (xtime a))) (xtime a).

(** The product in GF(2^8). *)
Definition gmul (a b : bits8) : bits8 :=
  let '(b0, (b1, (b2, (b3, (b4, (b5, (b6, b7))))))) := b in
  let pick (c : bool) (x : bits8) := if c then x else zero8 in
  let a1 := xtime a in
  let a2 := xtime a1 in
  let a3 := xtime a2 in
  let a4 := xtime a3 in
  let a5 := xtime a4 in
  let a6 := xtime a5 in
  let a7 := xtime a6 in
  xor8 (pick b0 a)
    (xor8 (pick b1 a1)
      (xor8 (pick b2 a2)
        (xor8 (pick b3 a3)
          (xor8 (pick b4 a4)
            (xor8 (pick b5 a5)
              (xor8 (pick b6 a6) (pick b7 a7))))))).

(** The inverse in GF(2^8), [a^254]; zero goes to zero. *)
Definition ginv (a : bits8) : bits8 :=
  let a2 := gmul a a in
  let a4 := gmul a2 a2 in
  let a8 := gmul a4 a4 in
  let a16 := gmul a8 a8 in
  let a32 := gmul a16 a16 in
  let a64 := gmul a32 a32 in
  let a128 := gmul a64 a64 in
  gmul a128 (gmul a64 (gmul a32 (gmul a16 (gmul a8 (gmul a4 a2))))).

(** The affine map of the S-box, with the constant [0x63]. *)
Definition affine (b : bits8) : bits8 :=
  let '(b0, (b1, (b2, (b3, (b4, (b5, (b6, b7))))))) := b in
  let x := xorb in
  (negb (x b0 (x b4 (x b5 (x b6 b7)))),
   (negb (x b1 (x b5 (x b6 (x b7 b0)))),
    (x b2 (x b6 (x b7 (x b0 b1))),
     (x b3 (x b7 (x b0 (x b1 b2))),
      (x b4 (x b0 (x b1 (x b2 b3))),
       (negb (x b5 (x b1 (x b2 (x b3 b4)))),
        (negb (x b6 (x b2 (x b3 (x b4 b5)))),
         x b7 (x b3 (x b4 (x b5 b6)))))))))).

(** Its inverse, with the constant [0x05]. *)
Definition inv_affine (s : bits8) : bits8 :=
  let '(s0, (s1, (s2, (s3, (s4, (s5, (s6, s7))))))) := s in
  let x := xorb in
  (negb (x s2 (x s5 s7)),
   (x s3 (x s6 s0),
    (negb (x s4 (x s7 s1)),
     (x s5 (x s0 s2),
      (x s6 (x s1 s3),
       (x s7 (x s2 s4),
        (x s0 (x s3 s5),
         x s1 (x s4 s6)))))))).

Definition sbox (b : bits8) : bits8 := affine (ginv b).
Definition inv_sbox (s : bits8) : bits8 := ginv (inv_affine s).

(** A column of the state, rows 0 to 3, and the state, columns 0 to 3. *)
Definition col : Type := bits8 * bits8 * bits8 * bits8.
Definition state : Type := col * col * col * col.

Definition map_col (f : bits8 → bits8) (c : col) : col :=
  let '(a0, a1, a2, a3) := c in (f a0, f a1, f a2, f a3).
Definition map_state (f : col → col) (s : state) : state :=
  let '(c0, c1, c2, c3) := s in (f c0, f c1, f c2, f c3).

Definition xor_col (a b : col) : col :=
  let '(a0, a1, a2, a3) := a in
  let '(b0, b1, b2, b3) := b in
  (xor8 a0 b0, xor8 a1 b1, xor8 a2 b2, xor8 a3 b3).
Definition xor_state (a b : state) : state :=
  let '(a0, a1, a2, a3) := a in
  let '(b0, b1, b2, b3) := b in
  (xor_col a0 b0, xor_col a1 b1, xor_col a2 b2, xor_col a3 b3).

Definition SubBytes : state → state := map_state (map_col sbox).
Definition InvSubBytes : state → state := map_state (map_col inv_sbox).

(** Row [r] moves [r] places to the left. *)
Definition ShiftRows (s : state) : state :=
  let '((a0, a1, a2, a3), (b0, b1, b2, b3), (c0, c1, c2, c3), (d0, d1, d2, d3)) := s in
  ((a0, b1, c2, d3), (b0, c1, d2, a3), (c0, d1, a2, b3), (d0, a1, b2, c3)).
Definition InvShiftRows (s : state) : state :=
  let '((a0, a1, a2, a3), (b0, b1, b2, b3), (c0, c1, c2, c3), (d0, d1, d2, d3)) := s in
  ((a0, d1, c2, b3), (b0, a1, d2, c3), (c0, b1, a2, d3), (d0, c1, b2, a3)).

Definition mix_col (c : col) : col :=
  let '(a0, a1, a2, a3) := c in
  (xor8 (xor8 (mul2 a0) (mul3 a1)) (xor8 a2 a3),
   xor8 (xor8 a0 (mul2 a1)) (xor8 (mul3 a2) a3),
   xor8 (xor8 a0 a1) (xor8 (mul2 a2) (mul3 a3)),
   xor8 (xor8 (mul3 a0) a1) (xor8 a2 (mul2 a3))).
Definition inv_mix_col (c : col) : col :=
  let '(a0, a1, a2, a3) := c in
  (xor8 (xor8 (mul14 a0) (mul11 a1)) (xor8 (mul13 a2) (mul9 a3)),
   xor8 (xor8 (mul9 a0) (mul14 a1)) (xor8 (mul11 a2) (mul13 a3)),
   xor8 (xor8 (mul13 a0) (mul9 a1)) (xor8 (mul14 a2) (mul11 a3)),
   xor8 (xor8 (mul11 a0) (mul13 a1)) (xor8 (mul9 a2) (mul14 a3))).

Definition MixColumns : state → state := map_state mix_col.
Definition InvMixColumns : state → state := map_state inv_mix_col.

Definition AddRoundKey (k s : state) : state := xor_state s k.

(** *** Key expansion *)

Definition zero_col : col := (zero8, zero8, zero8, zero8).
Definition RotWord (w : col) : col :=
  let '(a0, a1, a2, a3) := w in (a1, a2, a3, a0).
Definition SubWord : col → col := map_col sbox.

(** [n] more words of the schedule [w] for a key of [Nk] words; [rcon] is
    the round constant the next multiple of [Nk] takes. *)
Fixpoint expand (n : nat) (Nk : nat) (w : list col) (rcon : bits8) : list col :=
  match n with
  | O => w
  | S n' =>
      let i := length w in
      let prev := nth (i - 1) w zero_col in
      let first := i mod Nk =? 0 in
      let temp :=
        if first then
          xor_col (SubWord (RotWord prev)) (rcon, zero8, zero8, zero8)
        else if (6 <? Nk) && (i mod Nk =? 4) then SubWord prev
        else prev in
      expand n' Nk (w ++ [xor_col (nth (i - Nk) w zero_col) temp])
             (if first then xtime rcon else rcon)
  end.

Fixpoint cols (l : list bits8) : list col :=
  match l with
  | a0 :: a1 :: a2 :: a3 :: rest => (a0, a1, a2, a3) :: cols rest
  | _ => []
  end.

Fixpoint states (l : list col) : list state :=
  match l with
  | c0 :: c1 :: c2 :: c3 :: rest => (c0, c1, c2, c3) :: states rest
  | _ => []
  end.

Definition one8 : bits8 :=
  (true, (false, (false, (false, (false, (false, (false, false))))))).

(** The round keys of a key of 16, 24 or 32 bytes. *)
Definition round_keys (key : list bits8) : option (list state) :=
  let Nk := length key / 4 in
  if bool_decide (length key = 16 ∨ length key = 24 ∨ length key = 32) then
    Some (states (expand (4 * (Nk + 7) - Nk) Nk (cols key) one8))
  else None.

(** *** The cipher and its inverse *)

Fixpoint rounds (rks : list state) (s : state) : state :=
  match rks with
  | [] => s
  | [k] => AddRoundKey k (ShiftRows (SubBytes s))
  | k :: rest =>
      rounds rest (AddRoundKey k (MixColumns (ShiftRows (SubBytes s))))
  end.

Definition cipher (rks : list state) (s : state) : state :=
  match rks with
  | [] => s
  | k0 :: rest => rounds rest (AddRoundKey k0 s)
  end.

Fixpoint inv_rounds (rks : list state) (s : state) : state :=
  match rks with
  | [] => s
  | [k] => InvSubBytes (InvShiftRows (AddRoundKey k s))
  | k :: rest =>
      InvSubBytes (InvShiftRows (InvMixColumns (AddRoundKey k (inv_rounds rest s))))
  end.

Definition inv_cipher (rks : list state) (s : state) : state :=
  match rks with
  | [] => s
  | k0 :: rest => AddRoundKey k0 (inv_rounds rest s)
  end.

(** *** CBC *)

Fixpoint cbc_encrypt (rks : list state) (prev : state) (ps : list state)
    : list state :=
  match ps with
  | [] => []
  | p :: ps' =>
      let c := cipher rks (xor_state p prev) in
      c :: cbc_encrypt rks c ps'
  end.

Fixpoint cbc_decrypt (rks : list state) (prev : state) (cs : list state)
    : list state :=
  match cs with
  | [] => []
  | c :: cs' => xor_state (inv_cipher rks c) prev :: cbc_decrypt rks c cs'
  end.

(** *** Bytes and blocks *)

Definition blocks (l : list byte) : list state :=
  states (cols (map Byte.to_bits l)).

Definition col_bytes (c : col) : list byte :=
  let '(a0, a1, a2, a3) := c in
  [Byte.of_bits a0; Byte.of_bits a1; Byte.of_bits a2; Byte.of_bits a3].
Definition state_bytes (s : state) : list byte :=
  let '(c0, c1, c2, c3) := s in
  col_bytes c0 ++ col_bytes c1 ++ col_bytes c2 ++ col_bytes c3.
Definition unblocks (l : list state) : list byte :=
  concat (map state_bytes l).

(** PKCS#7: [n] bytes of value [n], with [n] from 1 to 16, up to the next
    multiple of 16. *)
Definition pad (l : list byte) : list byte :=
  let n := 16 - length l mod 16 in
  l ++ repeat (byte_of_N (N.of_nat n)) n.

(** The initialisation vector: the first 16 bytes of [iv]. *)
Definition iv_block (iv : list byte) : option state :=
  if bool_decide (16 ≤ length iv) then head (blocks (take 16 iv)) else None.

(** [createEncryptionCipher(key, 'CBC')], [start(iv)], [update(data)],
    [finish()]: [None] when the cipher refuses the key or the vector. *)
Definition encrypt (key iv data : list byte) : option (list byte) :=
  match round_keys (map Byte.to_bits key), iv_block iv with
  | Some rks, Some iv0 => Some (unblocks (cbc_encrypt rks iv0 (blocks (pad data))))
  | _, _ => None
  end.

(** Modelled from the spec: the removal of the padding at decryption, the
    way forge's decryption cipher does it: the last byte tells how many
    bytes go, 16 at most. *)
Definition unpad (l : list byte) : option (list byte) :=
  match last l with
  | Some b =>
      let count := N.to_nat (Byte.to_N b) in
      if bool_decide (count ≤ 16) then Some (take (length l - count) l)
      else None
  | None => None
  end.

(** Modelled from the spec: decryption with the same key and vector. It is
    not part of the repository (the payment provider does it) and is written
    after the same standards as the encryption, with [inv_cipher] and
    [cbc_decrypt] above. [None] when the key, the vector, the length of the
    data or the padding count is refused. *)
Definition decrypt (key iv data : list byte) : option (list byte) :=
  match round_keys (map Byte.to_bits key), iv_block iv with
  | Some rks, Some iv0 =>
      if bool_decide (length data mod 16 = 0)
      then unpad (unblocks (cbc_decrypt rks iv0 (blocks data)))
      else None
  | _, _ => None
  end.
End AES.

(** ** Types of [paypro.ts] *)

(** The keys of [SKU_TO_PAYPRO_ID]. *)
Inductive SKU : Type :=
| pro_monthly | pro_annual | team_annual | team_monthly | pro_perpetual.

Definition SKU_str (s : SKU) : jsstring :=
  match s with
  | pro_monthly => js "pro-monthly"
  | pro_annual => js "pro-annual"
  | team_annual => js "team-annual"
  | team_monthly => js "team-monthly"
  | pro_perpetual => js "pro-perpetual"
  end.

Inductive PayProIPNTypes : Type :=
| OrderCharged
| OrderChargedBack
| OrderOnWaiting
| SubscriptionRenewed
| SubscriptionTerminated
| SubscriptionFinished
| SubscriptionChargeSucceed
| SubscriptionChargeFailed
| SubscriptionSuspended.

Definition PayProIPNTypes_str (t : PayProIPNTypes) : jsstring :=
  match t with
  | OrderCharged => js "OrderCharged"
  | OrderChargedBack => js "OrderChargedBack"
  | OrderOnWaiting => js "OrderOnWaiting"
  | SubscriptionRenewed => js "SubscriptionRenewed"
  | SubscriptionTerminated => js "SubscriptionTerminated"
  | SubscriptionFinished => js "SubscriptionFinished"
  | SubscriptionChargeSucceed => js "SubscriptionChargeSucceed"
  | SubscriptionChargeFailed => js "SubscriptionChargeFailed"
  | SubscriptionSuspended => js "SubscriptionSuspended"
  end.

(** ['1' | '0'] *)
Inductive TestMode : Type := TestMode1 | TestMode0.

Definition TestMode_str (t : TestMode) : jsstring :=
  match t with
  | TestMode1 => js "1"
  | TestMode0 => js "0"
  end.

Inductive SubscriptionStatusName : Type :=
| Active | Suspended | Terminated | Finished.

Inductive SubscriptionRenewalType : Type := Auto | Manual.

Record PayProWebhookData : Type := {
  IPN_TYPE_NAME : PayProIPNTypes;

  HASH : jsstring;
  SIGNATURE : jsstring;
  TEST_MODE : TestMode;

  CUSTOMER_EMAIL : jsstring;

  PRODUCT_ID : jsstring;
  ORDER_ITEM_SKU : SKU;
  PRODUCT_QUANTITY : jsstring;
  ORDER_ITEM_TOTAL_AMOUNT : jsstring;

  CUSTOMER_ID : jsstring;
  SUBSCRIPTION_ID : jsstring;
  ORDER_PLACED_TIME_UTC : jsstring;
  INVOICE_LINK : option jsstring;

  SUBSCRIPTION_STATUS_NAME : SubscriptionStatusName;
  SUBSCRIPTION_NEXT_CHARGE_DATE : jsstring;
  SUBSCRIPTION_RENEWAL_TYPE : SubscriptionRenewalType;

  ORDER_ID : jsstring;
  ORDER_STATUS : jsstring;
  ORDER_TOTAL_AMOUNT : jsstring;
  ORDER_CURRENCY_CODE : jsstring;
  ORDER_CUSTOM_FIELDS : jsstring
}.

(** ** [validatePayProWebhook] *)

Section Webhook.
(** [process.env.PAYPRO_IPN_VALIDATION_KEY], [None] when it is not set. *)
Variable PAYPRO_IPN_VALIDATION_KEY : option jsstring.

Definition webhook_key (data : PayProWebhookData) : jsstring :=
  join_empty [
    Some (ORDER_ID data);
    Some (ORDER_STATUS data);
    Some (ORDER_TOTAL_AMOUNT data);
    Some (CUSTOMER_EMAIL data);
    PAYPRO_IPN_VALIDATION_KEY;
    Some (TestMode_str (TEST_MODE data));
    Some (PayProIPNTypes_str (IPN_TYPE_NAME data))
  ].

Definition expectedSignature (data : PayProWebhookData) : jsstring :=
  sha256_hex (webhook_key data).

Definition validatePayProWebhook (data : PayProWebhookData) : result unit :=
  if bool_decide (SIGNATURE data ≠ expectedSignature data) then
    Throw (StatusError 403
      (js "PayPro IPN signature did not match - expected "
       ++ expectedSignature data
       ++ js " but received "
       ++ SIGNATURE data))
  else Ok tt.
End Webhook.

(** ** [reportError] and [catchErrors] ([errors.ts]) *)

(** What the code does to the outside, in the order it does it. *)
Inductive event : Type :=
| ConsoleWarn (what : error + jsstring)
| ConsoleLog (message : jsstring)
| SentryCaptureMessage (msg : jsstring)
| SentryCaptureException (e : error)
| SentryFlush
| GetLatestRates (base : jsstring)
| Fetch (url : jsstring) (method : jsstring) (body : jsstring)
| CipherEncrypt (data : jsstring). (* the cipher of forge is set to work *)

(** The state the module keeps ([sentryInitialized]) and the trace of
    events so far, oldest first. *)
Record world : Type := {
  sentryInitialized : bool;
  trace : list event
}.

Definition emit (e : event) (w : world) : world :=
  {| sentryInitialized := sentryInitialized w; trace := trace w ++ [e] |}.

(** A computation that may throw and acts on the world. *)
Definition M (A : Type) : Type := world -> world * result A.

#[global] Instance M_ret : MRet M := fun A a w => (w, Ok a).
#[global] Instance M_bind : MBind M := fun A B f m w =>
  match m w with
  | (w', Ok a) => f a w'
  | (w', Throw e) => (w', Throw e)
  end.
Definition throw {A} (e : error) : M A := fun w => (w, Throw e).
Definition tell (e : event) : M unit := fun w => (emit e w, Ok tt).
Definition lift {A} (r : result A) : M A := fun w => (w, r).
Definition read_sentryInitialized : M bool :=
  fun w => (w, Ok (sentryInitialized w)).

(** [n.toString()] for an integer. *)
Definition Z_toString (z : Z) : jsstring :=
  js (NilZero.string_of_int (Z.to_int z)).

(** A value in a template string: [undefined] gives its name. *)
Definition template (value : option jsstring) : jsstring :=
  default (js "undefined") value.

(** The line that [reportError] writes first for an error with a
    [requestInfo]. *)
Definition requestInfo_warning (message : jsstring)
    (statusCode : option (Z + jsstring)) (requestInfo : RequestInfo)
    : jsstring :=
  template (requestInfo_method requestInfo)
  ++ js " request to "
  ++ template (requestInfo_url requestInfo)
  ++ js " failed with status "
  ++ template (match statusCode with
               | Some (inl n) => Some (Z_toString n)
               | Some (inr s) => Some s
               | None => None
               end)
  ++ js ": " ++ message.

(** [reportError(error, eventContext)]. The [eventContext] reaches only the
    event processor that the call adds to the scope of Sentry
    ([eventProcessor] below, which shapes the event that Sentry sends): the
    calls of the console and of Sentry that are recorded here do not depend
    on it, so it is no argument of this function. *)
Definition reportError (error : error + jsstring) : M unit :=
  match error with
  | inl (Auth0RequestError message statusCode requestInfo originalError) =>
      tell (ConsoleWarn (inr (requestInfo_warning message statusCode requestInfo)));;
      tell (ConsoleWarn (inl originalError))
  | _ => tell (ConsoleWarn error)
  end;;
  initialized ← read_sentryInitialized;
  if negb initialized then mret tt
  else
    match error with
    | inr msg => tell (SentryCaptureMessage msg)
    | inl e => tell (SentryCaptureException e)
    end;;
    tell SentryFlush.

Record APIGatewayProxyResult : Type := {
  statusCode : Z;
  headers : list (jsstring * jsstring);
  body : jsstring
}.

Record Context : Type := { callbackWaitsForEmptyEventLoop : bool }.

Section CatchErrors.
Variable APIGatewayProxyEvent : Type.

Definition ApiHandler : Type :=
  APIGatewayProxyEvent -> Context -> M APIGatewayProxyResult.

Definition catchErrors (handler : ApiHandler) : ApiHandler :=
  fun event context w =>
    let context := {| callbackWaitsForEmptyEventLoop := false |} in
    match handler event context w with
    | (w', Ok r) => (w', Ok r)
    | (w', Throw e) =>
        (reportError (inl e);;
         match e with
         | StatusError code message =>
             mret {| statusCode := code;
                     headers := [(js "Cache-Control", js "no-store")];
                     body := message |}
         | _ => throw e
         end) w'
    end.
End CatchErrors.

(** ** Numbers, [URLSearchParams] and base64 *)

(** A string is truthy when it is not empty; [undefined] is falsy. *)
Definition string_truthy (s : option jsstring) : bool :=
  match s with
  | Some (_ :: _) => true
  | _ => false
  end.

(** The bytes the serializer of [application/x-www-form-urlencoded] leaves
    as they are: ASCII letters and digits, [*], [-], [.] and [_]. *)
Definition urlencoded_plain (c : N) : bool :=
  (((97 <=? c) && (c <=? 122)) || ((65 <=? c) && (c <=? 90))
   || ((48 <=? c) && (c <=? 57))
   || (c =? 42) || (c =? 45) || (c =? 46) || (c =? 95))%N.

Definition upper_hex_digit (n : N) : N :=
  (if n <? 10 then 48 + n else 55 + n)%N.

Definition urlencode_byte (b : byte) : jsstring :=
  let c := Byte.to_N b in
  if urlencoded_plain c then [c]
  else if (c =? 32)%N then [43%N]
  else [37%N; upper_hex_digit (c / 16); upper_hex_digit (c mod 16)].

(** A name or value in the serialization: the UTF-8 bytes, percent-encoded,
    a space as [+]. *)
Definition urlencode (s : jsstring) : jsstring :=
  concat (map urlencode_byte (utf8_encode s)).

(** The list of name-value pairs of a [URLSearchParams] object. The source
    only sets pairs and serializes the list. *)
Abbreviation URLSearchParams := (list (jsstring * jsstring)).

(** [params.set(name, value)]: the first pair named [name] takes the value
    and the later ones go; a new pair is added at the end when there is
    none. *)
Fixpoint URLSearchParams_set (name value : jsstring) (params : URLSearchParams)
    : URLSearchParams :=
  match params with
  | [] => [(name, value)]
  | (k, v) :: rest =>
      if bool_decide (k = name)
      then (name, value) :: filter (fun kv => kv.1 ≠ name) rest
      else (k, v) :: URLSearchParams_set name value rest
  end.

(** [params.get(name)]: the value of the first pair named [name]. *)
Fixpoint URLSearchParams_get (name : jsstring) (params : URLSearchParams)
    : option jsstring :=
  match params with
  | [] => None
  | (k, v) :: rest =>
      if bool_decide (k = name) then Some v else URLSearchParams_get name rest
  end.

Fixpoint join_with (sep : jsstring) (parts : list jsstring) : jsstring :=
  match parts with
  | [] => []
  | [p] => p
  | p :: rest => p ++ sep ++ join_with sep rest
  end.

(** [params.toString()] *)
Definition URLSearchParams_toString (params : URLSearchParams) : jsstring :=
  join_with (js "&")
    (map (fun kv => urlencode kv.1 ++ js "=" ++ urlencode kv.2) params).

Definition base64_char (n : N) : N :=
  (if n <? 26 then 65 + n
   else if n <? 52 then 71 + n
   else if n <? 62 then n - 4
   else if n =? 62 then 43
   else 47)%N.

(** [forge.util.encode64(bytes)], without line breaks. *)
Fixpoint encode64 (l : list byte) : jsstring :=
  match l with
  | [] => []
  | [a] =>
      let a := Byte.to_N a in
      [base64_char (a / 4); base64_char (a mod 4 * 16); 61; 61]%N
  | [a; b] =>
      let a := Byte.to_N a in
      let b := Byte.to_N b in
      [base64_char (a / 4); base64_char (a mod 4 * 16 + b / 16);
       base64_char (b mod 16 * 4); 61]%N
  | a :: b :: c :: rest =>
      let a := Byte.to_N a in
      let b := Byte.to_N b in
      let c := Byte.to_N c in
      [base64_char (a / 4); base64_char (a mod 4 * 16 + b / 16);
       base64_char (b mod 16 * 4 + c / 64); base64_char (c mod 64)]%N
      ++ encode64 rest
  end.

(** The bytes of a binary-encoded string, as [forge.util.createBuffer]
    reads them: a code unit below 256 is a byte. (Forge does not expect
    other code units; the model is exact on binary-encoded strings only.) *)
Definition binary_bytes (s : jsstring) : list byte := map byte_of_N s.

(** The binary-encoded string of some bytes, as the [bytes()] of a forge
    buffer gives it. *)
Definition binary_string (l : list byte) : jsstring := map Byte.to_N l.

(** ** [createCheckout] *)

Definition PAYPRO_API_BASE_URL (env : option jsstring) : jsstring :=
  default (js "https://store.payproglobal.com") env.

Definition SKU_TO_PAYPRO_ID (s : SKU) : Z :=
  match s with
  | pro_monthly => 79920
  | pro_annual => 82586
  | team_annual => 82587
  | team_monthly => 82588
  | pro_perpetual => -1 (* Not supported via PayPro *)
  end.

Definition PAYPRO_CURRENCIES : list jsstring :=
  map js [
    "AFN"; "DZD"; "AED"; "ARS"; "AMD"; "AUD"; "AZN"; "BSD"; "BHD"; "BDT";
    "BBD"; "BYN"; "BZD"; "BMD"; "BOB"; "BWP"; "BRL"; "GBP"; "BND"; "BGN";
    "CAD"; "CVE"; "KYD"; "XOF"; "CLP"; "COP"; "CRC"; "HRK"; "CZK"; "DKK";
    "DJF"; "DOP"; "XCD"; "EGP"; "EUR"; "FJD"; "GEL"; "GTQ"; "HNL"; "HKD";
    "HUF"; "ISK"; "INR"; "IDR"; "ILS"; "JOD"; "KHR"; "KZT"; "KES"; "BAM";
    "KRW"; "KWD"; "KGS"; "LAK"; "LBP"; "MOP"; "MKD"; "MYR"; "MVR"; "MXN";
    "MDL"; "MNT"; "MAD"; "NAD"; "TRY"; "NZD"; "NGN"; "NOK"; "OMR"; "PKR";
    "PAB"; "PGK"; "PYG"; "PEN"; "PHP"; "PLN"; "QAR"; "RON"; "RUB"; "SAR";
    "RSD"; "SGD"; "ZAR"; "LKR"; "SEK"; "CHF"; "TWD"; "TZS"; "THB"; "TMT";
    "TTD"; "TND"; "TJS"; "UAH"; "USD"; "UYU"; "UZS"; "YER"; "CNY"; "JPY"
  ]%string.

(** The cipher calls of the source: [createEncryptionCipher(key, 'CBC')],
    [start(iv)], [update(createBuffer(data))], [finish()], [output]. With a
    key and a vector for which [AES.encrypt] gives an output this is what
    Forge computes. With the others Forge is not followed: for a key of
    another length it throws a [TypeError] before [update] is called,
    whereas here the call is recorded first and one error stands for every
    refusal. What the statements tell of the text that is encrypted and of
    the URL that is returned is about calls where there is an output. *)
Definition forge_encrypt (key iv data : jsstring) : M (list byte) :=
  tell (CipherEncrypt data);;
  match AES.encrypt (binary_bytes key) (binary_bytes iv) (binary_bytes data) with
  | Some output => mret output
  | None => throw (Error (js "Invalid key or IV parameter."))
  end.

Section Checkout.
(** JavaScript numbers are kept abstract: the code only turns them into
    strings and tests them for truth. *)
Variable number : Type.
Variable Number_toString : number → jsstring.
Variable Number_truthy : number → bool.

(** What reading a property of the object of [getLatestRates] gives, when
    it is not [undefined]: a rate of the object's own or a member that the
    object inherits, with its [toString()] and its truth. The module that
    declares [getLatestRates] is not part of this development. *)
Variable rate : Type.
Variable rate_toString : rate → jsstring.
Variable rate_truthy : rate → bool.

(** [process.env.PAYPRO_API_BASE_URL], [PAYPRO_PARAM_KEY] and
    [PAYPRO_PARAM_IV]. *)
Variable PAYPRO_API_BASE_URL_env : option jsstring.
Variable PAYPRO_PARAM_KEY : jsstring.
Variable PAYPRO_PARAM_IV : jsstring.

(** The answer of the rate collaborator for a base currency: a failure,
    or an object, kept as the function that reads it: a name to what
    [allUsdRates[name]] gives, [None] for [undefined]. The read is the one
    of the language, through the prototype chain ([read_property] below
    writes it out for an ordinary object). *)
Variable latest_rates : jsstring → result (jsstring → option rate).

Definition getLatestRates (base : jsstring) : M (jsstring → option rate) :=
  tell (GetLatestRates base);; lift (latest_rates base).

Record CheckoutOptions : Type := {
  sku : SKU;
  email : option jsstring;
  quantity : option number;
  countryCode : option jsstring;
  currency : jsstring;
  price : number;
  source : jsstring;
  returnUrl : option jsstring;
  passthrough : option jsstring
}.

(** [if (value) params.set(name, value)] *)
Definition set_if_truthy (name : jsstring) (value : option jsstring)
    (params : URLSearchParams) : URLSearchParams :=
  if string_truthy value
  then URLSearchParams_set name (default [] value) params
  else params.

Definition createCheckout (options : CheckoutOptions) : M jsstring :=
  let checkoutParams : URLSearchParams := [] in

  let checkoutParams :=
    URLSearchParams_set (js "currency") (currency options) checkoutParams in

  let checkoutParams :=
    set_if_truthy (js "billing-email") (email options) checkoutParams in
  let checkoutParams :=
    set_if_truthy (js "billing-country") (countryCode options) checkoutParams in
  let checkoutParams :=
    set_if_truthy (js "x-source") (Some (source options)) checkoutParams in
  let checkoutParams :=
    set_if_truthy (js "x-passthrough") (passthrough options) checkoutParams in
  let checkoutParams :=
    set_if_truthy (js "x-return-url") (returnUrl options) checkoutParams in

  let productParams : URLSearchParams := [] in

  productParams ←
    (if bool_decide (currency options ∈ PAYPRO_CURRENCIES) then
       mret (URLSearchParams_set
               (js "price[" ++ currency options ++ js "][Amount]")
               (Number_toString (price options)) productParams)
     else
       reportError
         (inr (js "Opening unsupported " ++ currency options
               ++ js " PayPro checkout"));;

       allUsdRates ← getLatestRates (js "USD");
       let usdRate := allUsdRates (currency options) in

       match usdRate with
       | Some usdRate =>
           if rate_truthy usdRate then
             mret (URLSearchParams_set (js "price[USD][Amount]")
                     (rate_toString usdRate) productParams)
           else
             throw (Error (js "Can't show PayPro checkout for currency "
                           ++ currency options
                           ++ js " with no USD rate available"))
       | None =>
           throw (Error (js "Can't show PayPro checkout for currency "
                         ++ currency options
                         ++ js " with no USD rate available"))
       end);

  encryptedParams ←
    forge_encrypt PAYPRO_PARAM_KEY PAYPRO_PARAM_IV
      (URLSearchParams_toString productParams);

  let checkoutParams :=
    URLSearchParams_set (js "products[1][id]")
      (Z_toString (SKU_TO_PAYPRO_ID (sku options))) checkoutParams in
  let checkoutParams :=
    match quantity options with
    | Some q =>
        if Number_truthy q
        then URLSearchParams_set (js "products[1][qty]") (Number_toString q)
               checkoutParams
        else checkoutParams
    | None => checkoutParams
    end in
  let checkoutParams :=
    URLSearchParams_set (js "products[1][data]") (encode64 encryptedParams)
      checkoutParams in

  mret (PAYPRO_API_BASE_URL PAYPRO_API_BASE_URL_env
        ++ js "/checkout?" ++ URLSearchParams_toString checkoutParams).
End Checkout.

(** ** [cancelSubscription] *)

Section Cancel.
Variable number : Type.
Variable Number_truthy : number → bool.

(** A JSON value, as [response.json()] returns it and [JSON.stringify]
    takes it. The properties of an object are listed once each. *)
#[local] Unset Elimination Schemes.
Inductive json : Type :=
| JNull
| JBool (b : bool)
| JNumber (n : number)
| JString (s : jsstring)
| JArray (items : list json)
| JObject (props : list (jsstring * json)).
#[local] Set Elimination Schemes.

(** [JSON.stringify], a function of the language that is not written out
    here. *)
Variable JSON_stringify : json → jsstring.

(** [process.env.PAYPRO_API_BASE_URL], [PAYPRO_ACCOUNT_ID] and
    [PAYPRO_API_KEY]. *)
Variable PAYPRO_API_BASE_URL_env : option jsstring.
Variable PAYPRO_ACCOUNT_ID : option jsstring.
Variable PAYPRO_API_KEY : option jsstring.

(** The response of [fetch]: its status line and headers, and what
    [response.text()] and [response.json()] resolve to or reject with. *)
Record Response : Type := {
  status : N;
  statusText : jsstring;
  response_headers : list (jsstring * jsstring);
  response_text : result jsstring;
  response_json : result json
}.

(** [response.ok]: a status from 200 to 299. *)
Definition ok (response : Response) : bool :=
  ((200 <=? status response) && (status response <=? 299))%N.

(** The HTTP transport: the response to a request, or a rejection. *)
Variable http : jsstring → jsstring → jsstring → result Response.

Definition fetch (url method body : jsstring) : M Response :=
  tell (Fetch url method body);; lift (http url method body).

(** An object literal: a property whose value is [undefined] is left out
    by [JSON.stringify]. *)
Definition object_literal (props : list (jsstring * option json)) : json :=
  JObject (omap (fun kv => match kv.2 with
                           | Some v => Some (kv.1, v)
                           | None => None
                           end) props).

(** [value.name]: reading a property of [null] throws; a value that is
    not an object, or an object without the property, gives
    [undefined]. *)
Definition get_property (value : json) (name : jsstring) : result (option json) :=
  match value with
  | JNull =>
      Throw (TypeError (js "Cannot read properties of null (reading '"
                        ++ name ++ js "')"))
  | JObject props => Ok (snd <$> find (fun kv => bool_decide (kv.1 = name)) props)
  | _ => Ok None
  end.

(** The truth of a value in a condition. *)
Definition truthy (value : option json) : bool :=
  match value with
  | None => false
  | Some JNull => false
  | Some (JBool b) => b
  | Some (JNumber n) => Number_truthy n
  | Some (JString s) => string_truthy (Some s)
  | Some (JArray _) => true
  | Some (JObject _) => true
  end.

(** [subscriptionId: string | number] *)
Definition subscriptionId_json (subscriptionId : jsstring + number) : json :=
  match subscriptionId with
  | inl s => JString s
  | inr n => JNumber n
  end.

Definition cancelSubscription (subscriptionId : jsstring + number) : M unit :=
  response ←
    fetch (PAYPRO_API_BASE_URL PAYPRO_API_BASE_URL_env
           ++ js "/api/Subscriptions/Terminate")
      (js "POST")
      (JSON_stringify (object_literal [
         (js "vendorAccountId", JString <$> PAYPRO_ACCOUNT_ID);
         (js "apiSecretKey", JString <$> PAYPRO_API_KEY);
         (js "reasonText", Some (JString (js "API cancellation")));
         (js "sendCustomerNotification", Some (JBool true));
         (js "subscriptionId", Some (subscriptionId_json subscriptionId))
       ]));

  if negb (ok response) then
    tell (ConsoleLog (Z_toString (Z.of_N (status response)) ++ js " "
                      ++ statusText response));;
    throw (Error (js "Unexpected " ++ Z_toString (Z.of_N (status response))
                  ++ js " during PayPro cancellation"))
  else
    responseBody ← lift (response_json response);
    isSuccess ← lift (get_property responseBody (js "isSuccess"));
    if negb (truthy isSuccess) then
      tell (ConsoleLog (js "PayPro errors:"));;
      throw (Error (js "PayPro cancellation request failed"))
    else mret tt.
End Cancel.

(** ** Regular expressions, as far as the pattern of the source needs them *)

Definition chr (a : ascii) : N := N_of_ascii a.

(** [\w] without the [u] and [i] flags: [A-Za-z0-9_]. *)
Definition is_word_char (c : N) : bool :=
  (((97 <=? c) && (c <=? 122)) || ((65 <=? c) && (c <=? 90))
   || ((48 <=? c) && (c <=? 57)) || (c =? 95))%N.

(** The code units [.] does not match: LF, CR, U+2028 and U+2029. *)
Definition is_line_terminator (c : N) : bool :=
  ((c =? 0x0A) || (c =? 0x0D) || (c =? 0x2028) || (c =? 0x2029))%N.

Inductive regex : Type :=
| RChar (c : N)                  (* a literal code unit *)
| RWord                          (* \w *)
| RDot                           (* . *)
| REnd                           (* $, without the m flag *)
| RSeq (r1 r2 : regex)           (* r1r2 *)
| RAlt (r1 r2 : regex)           (* r1|r2 *)
| RPlus (r : regex)              (* r+ *)
| RStarLazy (r : regex)          (* r*? *)
| RGroup (n : nat) (r : regex)   (* the n-th capturing group *)
| RLookahead (r : regex).        (* (?=r) *)

(** The captures of a match: group number to the text the group matched. *)
Abbreviation captures := (gmap nat jsstring).

(** A position in the input is kept as the rest of the input from there on:
    the pattern of the source has no assertion that looks behind. *)
Definition match_state : Type := jsstring * captures.

(** What follows a sub-pattern: a continuation from the position it ends at
    and the captures so far to the final state, [None] when the rest of the
    pattern fails. *)
Abbreviation continuation := (jsstring -> captures -> option match_state).
Abbreviation matcher := (jsstring -> captures -> continuation -> option match_state).

(** The backtracking matcher of the language specification (22.2.2), in
    continuation style. A quantifier tries its alternatives in order: the
    greedy [+] one more iteration first, the lazy [*?] the rest of the
    pattern first. An iteration that matches the empty string is refused.
    [n] bounds the iterations that remain: each consumes a code unit. The
    quantified sub-patterns of the source hold no group, so the reset of
    captures at each iteration is left out. *)
Definition match_unit (p : N -> bool) : matcher :=
  fun x caps k =>
    match x with
    | c :: x' => if p c then k x' caps else None
    | [] => None
    end.

(** [r*] after the first iteration of [r+]: one more iteration of [m], then
    the rest; the rest alone when that fails. *)
Fixpoint greedy_star (m : matcher) (k : continuation) (n : nat)
    (x : jsstring) (caps : captures) : option match_state :=
  match
    m x caps (fun y caps' =>
      if bool_decide (length y = length x) then None
      else match n with
           | O => None
           | S n' => greedy_star m k n' y caps'
           end)
  with
  | Some z => Some z
  | None => k x caps
  end.

(** [r*?]: the rest first; one more iteration of [m] when that fails. *)
Fixpoint lazy_star (m : matcher) (k : continuation) (n : nat)
    (x : jsstring) (caps : captures) : option match_state :=
  match k x caps with
  | Some z => Some z
  | None =>
      m x caps (fun y caps' =>
        if bool_decide (length y = length x) then None
        else match n with
             | O => None
             | S n' => lazy_star m k n' y caps'
             end)
  end.

(** The text between position [x] and the later position [y]. *)
Definition consumed (x y : jsstring) : jsstring :=
  take (length x - length y) x.

Fixpoint rmatch (r : regex) : matcher :=
  match r with
  | RChar c => match_unit (N.eqb c)
  | RWord => match_unit is_word_char
  | RDot => match_unit (fun c => negb (is_line_terminator c))
  | REnd => fun x caps k => match x with [] => k x caps | _ :: _ => None end
  | RSeq r1 r2 =>
      fun x caps k => rmatch r1 x caps (fun y caps' => rmatch r2 y caps' k)
  | RAlt r1 r2 =>
      fun x caps k =>
        match rmatch r1 x caps k with
        | Some z => Some z
        | None => rmatch r2 x caps k
        end
  | RPlus r' =>
      fun x caps k =>
        rmatch r' x caps (fun y caps' =>
          greedy_star (rmatch r') k (length y) y caps')
  | RStarLazy r' =>
      fun x caps k => lazy_star (rmatch r') k (length x) x caps
  | RGroup n r' =>
      fun x caps k =>
        rmatch r' x caps (fun y caps' => k y (<[n := consumed x y]> caps'))
  | RLookahead r' =>
      fun x caps k =>
        match rmatch r' x caps (fun y caps' => Some (y, caps')) with
        | Some (_, caps') => k x caps'
        | None => None
        end
  end.

(** A match of [exec]: the groups [match[1]], [match[2]], ... and the input
    from the new [lastIndex] on. A group missing from [match_captures] is
    [undefined]. *)
Record regex_match : Type := {
  match_captures : captures;
  match_rest : jsstring
}.

(** The search of [RegExp.prototype.exec] for a global pattern: the first
    start position from [lastIndex] on, up to the end of the input, at which
    the pattern matches. The argument is the input from [lastIndex] on. *)
Fixpoint exec (r : regex) (x : jsstring) : option regex_match :=
  match rmatch r x ∅ (fun y caps => Some (y, caps)) with
  | Some (y, caps) => Some {| match_captures := caps; match_rest := y |}
  | None =>
      match x with
      | [] => None
      | _ :: x' => exec r x'
      end
  end.

Infix "⋅" := RSeq (at level 41, right associativity).

(** ** [parsePayProCustomFields] *)

(** [/x-(\w+)=(.*?)(?=$|,x-\w+)/g] *)
Definition customFieldMatch : regex :=
  RChar (chr "x") ⋅ RChar (chr "-")
  ⋅ RGroup 1 (RPlus RWord)
  ⋅ RChar (chr "=")
  ⋅ RGroup 2 (RStarLazy RDot)
  ⋅ RLookahead
      (RAlt REnd
            (RChar (chr ",") ⋅ RChar (chr "x") ⋅ RChar (chr "-") ⋅ RPlus RWord)).

(** [result[fieldName] = fieldValue] on an ordinary object whose values are
    strings: the key [__proto__] reaches the setter of [Object.prototype],
    which ignores a string and adds no property. *)
Definition obj_set (k v : jsstring) (o : gmap jsstring jsstring)
    : gmap jsstring jsstring :=
  if bool_decide (k = js "__proto__") then o else <[k := v]> o.

(** The [while (true)] loop. [rest] is the input from the [lastIndex] of the
    pattern object on, the state that [exec] keeps between two calls. The
    result is [None] when [fuel] iterations do not reach the [break], or
    when a group is [undefined]. *)
Fixpoint parse_loop (fuel : nat) (rest : jsstring)
    (result : gmap jsstring jsstring) : option (gmap jsstring jsstring) :=
  match fuel with
  | O => None
  | S fuel' =>
      match exec customFieldMatch rest with
      | None => Some result
      | Some m =>
          match match_captures m !! 1, match_captures m !! 2 with
          | Some fieldName, Some fieldValue =>
              parse_loop fuel' (match_rest m)
                         (obj_set fieldName fieldValue result)
          | _, _ => None
          end
      end
  end.

Definition parsePayProCustomFields (customFieldsData : jsstring)
    : option (gmap jsstring jsstring) :=
  parse_loop (S (length customFieldsData)) customFieldsData ∅.

(** ** The custom-fields format, read without the pattern *)

(** The rest of the input starts with [,x-] and a word character. *)
Definition at_marker (t : jsstring) : bool :=
  match t with
  | a :: b :: c :: d :: _ =>
      (chr "," =? a)%N && (chr "x" =? b)%N && (chr "-" =? c)%N && is_word_char d
  | _ => false
  end.

(** A value may end here: at the end of the input or in front of a marker. *)
Definition at_stop (t : jsstring) : bool :=
  match t with
  | [] => true
  | _ :: _ => at_marker t
  end.

(** The shortest value in front of a stop, and what follows it. *)
Fixpoint split_value (t : jsstring) : option (jsstring * jsstring) :=
  if at_stop t then Some ([], t)
  else
    match t with
    | c :: t' =>
        if is_line_terminator c then None
        else
          match split_value t' with
          | Some (v, r) => Some (c :: v, r)
          | None => None
          end
    | [] => None
    end.

Fixpoint take_word (t : jsstring) : jsstring :=
  match t with
  | c :: t' => if is_word_char c then c :: take_word t' else []
  | [] => []
  end.

Fixpoint drop_word (t : jsstring) : jsstring :=
  match t with
  | c :: t' => if is_word_char c then drop_word t' else t
  | [] => []
  end.

(** The field that starts exactly here: its key, its value and the rest. *)
Definition field_here (t : jsstring) : option (jsstring * jsstring * jsstring) :=
  match t with
  | a :: b :: t1 =>
      if (chr "x" =? a)%N && (chr "-" =? b)%N then
        match take_word t1, drop_word t1 with
        | _ :: _, e :: t2 =>
            if (chr "=" =? e)%N then
              match split_value t2 with
              | Some (v, r) => Some (take_word t1, v, r)
              | None => None
              end
            else None
        | _, _ => None
        end
      else None
  | _ => None
  end.

Definition word (k : jsstring) : Prop := Forall (fun c => is_word_char c = true) k.
Definition one_line (v : jsstring) : Prop :=
  Forall (fun c => is_line_terminator c = false) v.

(** A marker as the pattern has it: a comma, [x-] and a word character. *)
Definition marker_follows (t : jsstring) : Prop :=
  ∃ c t', t = js ",x-" ++ c :: t' ∧ is_word_char c = true.

Definition value_stops (t : jsstring) : Prop := t = [] ∨ marker_follows t.

(** [t] starts with the field [x-k=v]: a key of word characters, and the
    shortest value on one line that ends at the end of the input or in front
    of a marker. *)
Definition field_match (t k v rest : jsstring) : Prop :=
  t = js "x-" ++ k ++ js "=" ++ v ++ rest
  ∧ k ≠ [] ∧ word k
  ∧ one_line v
  ∧ value_stops rest
  ∧ (∀ v1 v2, v = v1 ++ v2 → v2 ≠ [] → ¬ value_stops (v2 ++ rest)).

Definition field_starts (t : jsstring) : Prop := ∃ k v rest, field_match t k v rest.

(** The input holds the field [x-k=v] somewhere. *)
Definition entry (s k v : jsstring) : Prop :=
  ∃ pre rest,
    s = pre ++ js "x-" ++ k ++ js "=" ++ v ++ rest
    ∧ field_match (js "x-" ++ k ++ js "=" ++ v ++ rest) k v rest.

(** The fields of [t] in scan order: each is the leftmost field of what the
    one before left over. *)
Inductive scan : jsstring → list (jsstring * jsstring) → Prop :=
| scan_done t :
    (∀ pre u, t = pre ++ u → ¬ field_starts u) →
    scan t []
| scan_field t pre k v rest fs :
    (∀ pre1 pre2 u, pre = pre1 ++ pre2 → pre2 ≠ [] → t = pre1 ++ u → ¬ field_starts u) →
    t = pre ++ js "x-" ++ k ++ js "=" ++ v ++ rest →
    field_match (js "x-" ++ k ++ js "=" ++ v ++ rest) k v rest →
    scan rest fs →
    scan t ((k, v) :: fs).

(** The object the loop builds from the fields in scan order. *)
Definition fields_object (fs : list (jsstring * jsstring)) : gmap jsstring jsstring :=
  foldl (fun o kv => obj_set kv.1 kv.2 o) ∅ fs.

(** The value of the last field with key [k]. *)
Definition last_value (k : jsstring) (fs : list (jsstring * jsstring)) : option jsstring :=
  snd <$> last (filter (fun kv => kv.1 = k) fs).

(** *** The format as the specification words it *)

(** A marker with the equals sign: a comma, [x-], word characters and [=]. *)
Definition claimed_marker_follows (t : jsstring) : Prop :=
  ∃ w t', t = js ",x-" ++ w ++ js "=" ++ t' ∧ w ≠ [] ∧ word w.

Definition claimed_value_stops (t : jsstring) : Prop :=
  t = [] ∨ claimed_marker_follows t.

(** An entry as the specification words it: the value in front of the end
    of the input or of a marker with the equals sign. *)
Definition claimed_entry (s k v : jsstring) : Prop :=
  ∃ pre rest,
    s = pre ++ js "x-" ++ k ++ js "=" ++ v ++ rest
    ∧ k ≠ [] ∧ word k
    ∧ claimed_value_stops rest.

Definition claimed_fields (s : jsstring) (result : gmap jsstring jsstring) : Prop :=
  ∀ k v, result !! k = Some v → claimed_entry s k v.

(** The second example of the specification:
    [x-passthrough={"id":1},x-source=web]. *)
Definition dquote : jsstring := [chr "034"].
Definition passthrough_example : jsstring :=
  js "x-passthrough={" ++ dquote ++ js "id" ++ dquote ++ js ":1},x-source=web".
Definition passthrough_value : jsstring :=
  js "{" ++ dquote ++ js "id" ++ dquote ++ js ":1}".

(** ** Notifications used in the statements *)

(** [s] holds [sub] somewhere. *)
Definition contains (s sub : jsstring) : Prop := ∃ pre post, s = pre ++ sub ++ post.

(** The notification with another [SIGNATURE] and the rest as it is. *)
Definition with_signature (data : PayProWebhookData) (sig : jsstring)
    : PayProWebhookData :=
  {| IPN_TYPE_NAME := IPN_TYPE_NAME data;
     HASH := HASH data;
     SIGNATURE := sig;
     TEST_MODE := TEST_MODE data;
     CUSTOMER_EMAIL := CUSTOMER_EMAIL data;
     PRODUCT_ID := PRODUCT_ID data;
     ORDER_ITEM_SKU := ORDER_ITEM_SKU data;
     PRODUCT_QUANTITY := PRODUCT_QUANTITY data;
     ORDER_ITEM_TOTAL_AMOUNT := ORDER_ITEM_TOTAL_AMOUNT data;
     CUSTOMER_ID := CUSTOMER_ID data;
     SUBSCRIPTION_ID := SUBSCRIPTION_ID data;
     ORDER_PLACED_TIME_UTC := ORDER_PLACED_TIME_UTC data;
     INVOICE_LINK := INVOICE_LINK data;
     SUBSCRIPTION_STATUS_NAME := SUBSCRIPTION_STATUS_NAME data;
     SUBSCRIPTION_NEXT_CHARGE_DATE := SUBSCRIPTION_NEXT_CHARGE_DATE data;
     SUBSCRIPTION_RENEWAL_TYPE := SUBSCRIPTION_RENEWAL_TYPE data;
     ORDER_ID := ORDER_ID data;
     ORDER_STATUS := ORDER_STATUS data;
     ORDER_TOTAL_AMOUNT := ORDER_TOTAL_AMOUNT data;
     ORDER_CURRENCY_CODE := ORDER_CURRENCY_CODE data;
     ORDER_CUSTOM_FIELDS := ORDER_CUSTOM_FIELDS data |}.

(** The notification of the test 'should reject invalid webhooks', with an
    order filled in. *)
Definition rejected_notification : PayProWebhookData :=
  {| IPN_TYPE_NAME := OrderCharged;
     HASH := js "";
     SIGNATURE := js "BAD-SIGNATURE";
     TEST_MODE := TestMode0;
     CUSTOMER_EMAIL := js "test@email.com";
     PRODUCT_ID := js "79920";
     ORDER_ITEM_SKU := pro_monthly;
     PRODUCT_QUANTITY := js "1";
     ORDER_ITEM_TOTAL_AMOUNT := js "14.00";
     CUSTOMER_ID := js "123";
     SUBSCRIPTION_ID := js "456";
     ORDER_PLACED_TIME_UTC := js "03/21/2023 19:02:59";
     INVOICE_LINK := None;
     SUBSCRIPTION_STATUS_NAME := Active;
     SUBSCRIPTION_NEXT_CHARGE_DATE := js "1/1/2025 12:00 AM";
     SUBSCRIPTION_RENEWAL_TYPE := Auto;
     ORDER_ID := js "1001";
     ORDER_STATUS := js "Processed";
     ORDER_TOTAL_AMOUNT := js "14.00";
     ORDER_CURRENCY_CODE := js "EUR";
     ORDER_CUSTOM_FIELDS := js "x-source=web" |}.

(** The same order with every unsigned field changed. *)
Definition tampered_notification : PayProWebhookData :=
  {| IPN_TYPE_NAME := OrderCharged;
     HASH := js "0000";
     SIGNATURE := js "BAD-SIGNATURE";
     TEST_MODE := TestMode0;
     CUSTOMER_EMAIL := js "test@email.com";
     PRODUCT_ID := js "82587";
     ORDER_ITEM_SKU := team_annual;
     PRODUCT_QUANTITY := js "500";
     ORDER_ITEM_TOTAL_AMOUNT := js "0.01";
     CUSTOMER_ID := js "999";
     SUBSCRIPTION_ID := js "1";
     ORDER_PLACED_TIME_UTC := js "01/01/2020 00:00:00";
     INVOICE_LINK := Some (js "https://example.com/invoice");
     SUBSCRIPTION_STATUS_NAME := Finished;
     SUBSCRIPTION_NEXT_CHARGE_DATE := js "";
     SUBSCRIPTION_RENEWAL_TYPE := Manual;
     ORDER_ID := js "1001";
     ORDER_STATUS := js "Processed";
     ORDER_TOTAL_AMOUNT := js "14.00";
     ORDER_CURRENCY_CODE := js "USD";
     ORDER_CUSTOM_FIELDS := js "x-passthrough=other" |}.

Definition test_validation_key : option jsstring := Some (js "test-validation-key").

(** The signature of [rejected_notification] under [test_validation_key]. *)
Definition accepted_signature : jsstring :=
  js "3352313e285c2e38665773453ecb40af2a2434221d0778651c2d73d3b2b8cf0d".

(** ** Requests used in the statements *)

(** A binary-encoded string: every code unit is a byte. *)
Definition binary (s : jsstring) : Prop := Forall (fun c => (c < 256)%N) s.

(** The cipher takes the key and the vector: binary-encoded strings, a key
    of 16, 24 or 32 bytes and a vector of at least 16. *)
Definition cipher_accepts (key iv : jsstring) : Prop :=
  binary key ∧ binary iv
  ∧ (length key = 16 ∨ length key = 24 ∨ length key = 32) ∧ 16 ≤ length iv.

Section Requests.
Context {number : Type}.

(** The request with another sku. *)
Definition with_sku (options : CheckoutOptions number) (s : SKU)
  : CheckoutOptions number :=
  {| sku := s;
     email := email number options;
     quantity := quantity number options;
     countryCode := countryCode number options;
     currency := currency number options;
     price := price number options;
     source := source number options;
     returnUrl := returnUrl number options;
     passthrough := passthrough number options |}.

(** The request with another price. *)
Definition with_price (options : CheckoutOptions number) (p : number)
  : CheckoutOptions number :=
  {| sku := sku number options;
     email := email number options;
     quantity := quantity number options;
     countryCode := countryCode number options;
     currency := currency number options;
     price := p;
     source := source number options;
     returnUrl := returnUrl number options;
     passthrough := passthrough number options |}.
End Requests.

(** The call returns, it does not throw. *)
Definition returns {A : Type} (r : result A) : Prop := ∃ a, r = Ok a.

(** An event of the network or of the cipher. *)
Definition network_or_cipher (e : event) : bool :=
  match e with
  | GetLatestRates _ | Fetch _ _ _ | CipherEncrypt _ => true
  | _ => false
  end.

(** What [console.warn] was called with among some events, in order. *)
Definition reports (events : list event) : list (error + jsstring) :=
  omap (fun e => match e with ConsoleWarn what => Some what | _ => None end) events.

(** ** Instances used in the statements *)

(** Numbers that are integers: [toString] is the decimal form, and zero is
    the one that is falsy. *)
Definition Z_truthy (z : Z) : bool := negb (z =? 0)%Z.

(** [JSON.stringify] on the values the examples send: enough to tell the
    requests apart, not the full function. *)
Definition show_json (v : json Z) : jsstring :=
  match v with
  | JObject _ props => join_with (js ",") (map fst props)
  | _ => []
  end.

Definition response_with (code : N) (body : result (json Z)) : Response Z :=
  {| status := code;
     statusText := js "";
     response_headers := [];
     response_text := Ok (js "");
     response_json := body |}.

Definition isSuccess_body (flag : bool) : json Z :=
  JObject Z [(js "isSuccess", JBool Z flag);
             (js "errors", JArray Z [JString Z (js "x")])].

Definition initial_world : world := {| sentryInitialized := true; trace := [] |}.

Definition example_key : jsstring := js "0123456789abcdef".
Definition example_iv : jsstring := js "fedcba9876543210".

(** A monthly Pro plan at 14 euros. *)
Definition euro_checkout : CheckoutOptions Z :=
  {| sku := pro_monthly;
     email := Some (js "test@email.com");
     quantity := None;
     countryCode := None;
     currency := js "EUR";
     price := 14%Z;
     source := js "web";
     returnUrl := None;
     passthrough := None |}.

(** The same plan at 500 Albanian lek, a currency the provider does not
    list, with 100 lek to the dollar. *)
Definition lek_checkout : CheckoutOptions Z :=
  {| sku := pro_monthly;
     email := Some (js "test@email.com");
     quantity := None;
     countryCode := None;
     currency := js "ALL";
     price := 500%Z;
     source := js "web";
     returnUrl := None;
     passthrough := None |}.

(** Rates that give 100 for [ALL]. The examples read them at [ALL] only. *)
Definition lek_rates : jsstring → result (jsstring → option Z) :=
  fun _ => Ok (fun c => if bool_decide (c = js "ALL") then Some 100%Z else None).

(** [createCheckout] on integers, with [example_key] and [example_iv]. *)
Definition example_createCheckout
  (rates : jsstring → result (jsstring → option Z))
  : CheckoutOptions Z → M jsstring :=
  createCheckout Z Z_toString Z_truthy Z Z_toString Z_truthy None
    example_key example_iv rates.

(** ** The custom fields as text *)

(** Some fields in the form the comment of [parsePayProCustomFields] gives
    for [ORDER_CUSTOM_FIELDS]: [k=v,k=v], each name after the [x-] prefix
    under which [createCheckout] sends it. *)
Definition custom_fields_text (fs : list (jsstring * jsstring)) : jsstring :=
  join_with (js ",") (map (fun kv => js "x-" ++ kv.1 ++ js "=" ++ kv.2) fs).

(** A marker, [,x-] and a word character, starts somewhere in [v]. *)
Fixpoint has_marker (v : jsstring) : bool :=
  at_marker v
  || match v with
     | [] => false
     | _ :: v' => has_marker v'
     end.

(** A field that the text carries as it is: a name of word characters, and
    a value on one line that holds no marker. The value may hold commas and
    equals signs. *)
Definition plain_field (kv : jsstring * jsstring) : Prop :=
  kv.1 ≠ [] ∧ word kv.1 ∧ one_line kv.2 ∧ has_marker kv.2 = false.

(** ** Signatures as text *)

(** A digit of lower-case hexadecimal. *)
Definition is_lower_hex (c : N) : bool :=
  (((48 <=? c) && (c <=? 57)) || ((97 <=? c) && (c <=? 102)))%N.

(** The notification with the signed text fields replaced. *)
Definition with_signed_fields (data : PayProWebhookData)
    (order_id order_status order_total_amount customer_email : jsstring)
    : PayProWebhookData :=
  {| IPN_TYPE_NAME := IPN_TYPE_NAME data;
     HASH := HASH data;
     SIGNATURE := SIGNATURE data;
     TEST_MODE := TEST_MODE data;
     CUSTOMER_EMAIL := customer_email;
     PRODUCT_ID := PRODUCT_ID data;
     ORDER_ITEM_SKU := ORDER_ITEM_SKU data;
     PRODUCT_QUANTITY := PRODUCT_QUANTITY data;
     ORDER_ITEM_TOTAL_AMOUNT := ORDER_ITEM_TOTAL_AMOUNT data;
     CUSTOMER_ID := CUSTOMER_ID data;
     SUBSCRIPTION_ID := SUBSCRIPTION_ID data;
     ORDER_PLACED_TIME_UTC := ORDER_PLACED_TIME_UTC data;
     INVOICE_LINK := INVOICE_LINK data;
     SUBSCRIPTION_STATUS_NAME := SUBSCRIPTION_STATUS_NAME data;
     SUBSCRIPTION_NEXT_CHARGE_DATE := SUBSCRIPTION_NEXT_CHARGE_DATE data;
     SUBSCRIPTION_RENEWAL_TYPE := SUBSCRIPTION_RENEWAL_TYPE data;
     ORDER_ID := order_id;
     ORDER_STATUS := order_status;
     ORDER_TOTAL_AMOUNT := order_total_amount;
     ORDER_CURRENCY_CODE := ORDER_CURRENCY_CODE data;
     ORDER_CUSTOM_FIELDS := ORDER_CUSTOM_FIELDS data |}.

(** ** The parameters of a checkout URL *)

(** The pair that [if (value) params.set(name, value)] leaves: none when
    the value is [undefined] or the empty string. *)
Definition optional_param (name : jsstring) (value : option jsstring)
    : URLSearchParams :=
  if string_truthy value then [(name, default [] value)] else [].

Section CheckoutParameters.
Context {number : Type}.
Variable Number_toString : number → jsstring.
Variable Number_truthy : number → bool.

(** The pairs of the query of a checkout URL, in the order of the text,
    for a request and the value of [products[1][data]]. *)
Definition checkout_parameters (options : CheckoutOptions number)
    (data : jsstring) : URLSearchParams :=
  [(js "currency", currency number options)]
  ++ optional_param (js "billing-email") (email number options)
  ++ optional_param (js "billing-country") (countryCode number options)
  ++ optional_param (js "x-source") (Some (source number options))
  ++ optional_param (js "x-passthrough") (passthrough number options)
  ++ optional_param (js "x-return-url") (returnUrl number options)
  ++ [(js "products[1][id]", Z_toString (SKU_TO_PAYPRO_ID (sku number options)))]
  ++ match quantity number options with
     | Some q =>
         if Number_truthy q
         then [(js "products[1][qty]", Number_toString q)]
         else []
     | None => []
     end
  ++ [(js "products[1][data]", data)].
End CheckoutParameters.

(** The pieces of a text between the occurrences of a separator, as
    [s.split(sep)] gives them for a separator of one code unit. *)
Fixpoint split_on (sep : N) (s : jsstring) : list jsstring :=
  match s with
  | [] => [[]]
  | c :: s' =>
      if (c =? sep)%N then [] :: split_on sep s'
      else
        match split_on sep s' with
        | p :: ps => (c :: p) :: ps
        | [] => [[c]]
        end
  end.

(** ** Further instances used in the statements *)

(** A passthrough value with commas and an equals sign, and a name that
    comes twice. *)
Definition example_fields : list (jsstring * jsstring) :=
  [(js "source", js "web");
   (js "passthrough",
    js "{" ++ dquote ++ js "ids" ++ dquote ++ js ":[1,2]," ++ dquote ++ js "q"
    ++ dquote ++ js ":" ++ dquote ++ js "a=b" ++ dquote ++ js "}");
   (js "source", js "app, v2")].

(** A code unit of a serialized query: one that the serializer leaves as it
    is, a [+] for a space, a [%] and the digits of an escape, and the [=]
    and [&] between names and values. *)
Definition is_query_char (c : N) : bool :=
  (urlencoded_plain c || (c =? 43) || (c =? 37) || (c =? 61) || (c =? 38))%N.

(** A team plan with an empty email and source, a quantity of zero, and a
    passthrough and a return URL that hold [&] and [=]. *)
Definition bare_checkout : CheckoutOptions Z :=
  {| sku := team_monthly;
     email := Some (js "");
     quantity := Some 0%Z;
     countryCode := None;
     currency := js "EUR";
     price := 14%Z;
     source := js "";
     returnUrl := Some (js "https://example.com/thanks?a=1&b=2");
     passthrough := Some (js "id=1&currency=USD") |}.

(** A collaborator that fails. *)
Definition failing_rates : jsstring → result (jsstring → option Z) :=
  fun _ => Throw (Error (js "rates unavailable")).

(** ** The rates as an ordinary object *)

(** The names of the members of [Object.prototype], which an ordinary
    object inherits: functions, and under [__proto__] the prototype itself.
    All of them are truthy. *)
Definition Object_prototype : list jsstring :=
  map js [
    "constructor"; "__defineGetter__"; "__defineSetter__"; "hasOwnProperty";
    "__lookupGetter__"; "__lookupSetter__"; "isPrototypeOf";
    "propertyIsEnumerable"; "toString"; "valueOf"; "__proto__";
    "toLocaleString"
  ]%string.

Section RatesObject.
(** The values of the object's own properties, with their [toString()] and
    their truth. *)
Variable amount : Type.
Variable amount_toString : amount → jsstring.
Variable amount_truthy : amount → bool.

(** The text that [toString()] gives for an inherited member. *)
Variable member_toString : jsstring → jsstring.

(** What reading a property gives, when it is not [undefined]. *)
Inductive property_value : Type :=
| OwnProperty (value : amount)
| InheritedProperty (name : jsstring).

Definition property_toString (p : property_value) : jsstring :=
  match p with
  | OwnProperty value => amount_toString value
  | InheritedProperty name => member_toString name
  end.

Definition property_truthy (p : property_value) : bool :=
  match p with
  | OwnProperty value => amount_truthy value
  | InheritedProperty _ => true
  end.

(** [object[name]] for an ordinary object with the own properties [own]:
    the own property of that name, else the member of that name of
    [Object.prototype], else [undefined]. *)
Definition read_property (own : gmap jsstring amount) (name : jsstring)
    : option property_value :=
  match own !! name with
  | Some value => Some (OwnProperty value)
  | None =>
      if bool_decide (name ∈ Object_prototype)
      then Some (InheritedProperty name)
      else None
  end.

(** The rate collaborator, when what it resolves to is an ordinary object,
    given by its own properties. *)
Definition rates_of (objects : jsstring → result (gmap jsstring amount))
    : jsstring → result (jsstring → option property_value) :=
  fun base =>
    match objects base with
    | Ok own => Ok (read_property own)
    | Throw e => Throw e
    end.
End RatesObject.

(** The texts of the members of [Object.prototype] in Node. *)
Definition node_member_toString (name : jsstring) : jsstring :=
  if bool_decide (name = js "__proto__") then js "[object Object]"
  else if bool_decide (name = js "constructor")
  then js "function Object() { [native code] }"
  else js "function " ++ name ++ js "() { [native code] }".

(** A request in the currency [constructor], which is no currency but the
    name of a member of [Object.prototype]. *)
Definition constructor_checkout : CheckoutOptions Z :=
  {| sku := pro_monthly;
     email := Some (js "test@email.com");
     quantity := None;
     countryCode := None;
     currency := js "constructor";
     price := 500%Z;
     source := js "web";
     returnUrl := None;
     passthrough := None |}.

(** [createCheckout] on integers, with [example_key] and [example_iv], and
    rates that are ordinary objects. *)
Definition object_createCheckout
  (objects : jsstring → result (gmap jsstring Z))
  : CheckoutOptions Z → M jsstring :=
  createCheckout Z Z_toString Z_truthy (property_value Z)
    (property_toString Z Z_toString node_member_toString)
    (property_truthy Z Z_truthy) None example_key example_iv
    (rates_of Z objects).

(** ** The reports of an error *)

(** What one call of [reportError] writes with [console.warn], in order:
    the error or the message; for an error with a [requestInfo], a line
    about the request and then its [originalError]. *)
Definition console_warnings (err : error + jsstring) : list (error + jsstring) :=
  match err with
  | inl (Auth0RequestError message statusCode requestInfo originalError) =>
      [inr (requestInfo_warning message statusCode requestInfo);
       inl originalError]
  | _ => [err]
  end.

(** What it gives to Sentry. *)
Definition sentry_capture (err : error + jsstring) : event :=
  match err with
  | inl e => SentryCaptureException e
  | inr msg => SentryCaptureMessage msg
  end.

(** ** [initSentry] ([errors.ts]) *)

(** The options [initSentry] gives to [Sentry.init]. *)
Record SentryOptions : Type := {
  dsn : jsstring;
  release : option jsstring
}.

Section Sentry.
(** [process.env.SENTRY_DSN] and [process.env.VERSION], [None] when not
    set. *)
Variable SENTRY_DSN : option jsstring.
Variable VERSION : option jsstring.

(** [Sentry.init(options)]: it sets up the client of the SDK and sends
    nothing; it returns, or it throws when it refuses the options. *)
Variable Sentry_init : SentryOptions → result unit.

(** [sentryInitialized = value] *)
Definition set_sentryInitialized (value : bool) : M unit :=
  fun w => ({| sentryInitialized := value; trace := trace w |}, Ok tt).

Definition initSentry : M unit :=
  if string_truthy SENTRY_DSN then
    lift (Sentry_init {| dsn := default [] SENTRY_DSN; release := VERSION |});;
    set_sentryInitialized true;;
    tell (ConsoleLog (js "Sentry initialized"))
  else
    tell (ConsoleLog (js "No Sentry DSN available, error reporting disabled")).
End Sentry.

(** The state of the module once it is loaded:
    [let sentryInitialized = false]. *)
Definition module_loaded : world := {| sentryInitialized := false; trace := [] |}.

(** ** The helpers of the webhook tests *)

(** An object whose values are strings: its own properties in the order in
    which they were created. The names here are field names of
    [PayProWebhookData], none of them an array index, so this is also the
    order in which the language enumerates them. *)
Abbreviation fields := (list (jsstring * jsstring)).

(** [obj[name]] *)
Definition property_get (name : jsstring) (obj : fields) : option jsstring :=
  snd <$> find (fun kv => bool_decide (kv.1 = name)) obj.

(** A property is defined on an object: one that is there keeps its place
    and takes the value, a new one comes last. *)
Fixpoint property_define (name value : jsstring) (obj : fields) : fields :=
  match obj with
  | [] => [(name, value)]
  | (k, v) :: rest =>
      if bool_decide (k = name) then (name, value) :: rest
      else (k, v) :: property_define name value rest
  end.

(** [{ ...target, ...source }]: the properties of [source] are defined on
    the object so far, in their order. *)
Definition spread (source target : fields) : fields :=
  foldl (fun obj kv => property_define kv.1 kv.2 obj) target source.

(** The options of a request, as [fetch] takes them. *)
Record RequestInit : Type := {
  init_method : jsstring;
  init_headers : list (jsstring * jsstring);
  init_body : jsstring
}.

Section WebhookTests.
(** The [PAYPRO_IPN_VALIDATION_KEY] of the tests, imported from
    [test-util]. *)
Variable PAYPRO_IPN_VALIDATION_KEY : option jsstring.

Definition getSignature (body : fields) : jsstring :=
  let key :=
    join_empty [
      property_get (js "ORDER_ID") body;
      property_get (js "ORDER_STATUS") body;
      property_get (js "ORDER_TOTAL_AMOUNT") body;
      property_get (js "CUSTOMER_EMAIL") body;
      PAYPRO_IPN_VALIDATION_KEY;
      property_get (js "TEST_MODE") body;
      property_get (js "IPN_TYPE_NAME") body
    ] in
  sha256_hex key.

(** The object [{ SIGNATURE: getSignature(unsignedBody), ...unsignedBody }]. *)
Definition signed_body (unsignedBody : fields) : fields :=
  spread unsignedBody [(js "SIGNATURE", getSignature unsignedBody)].

(** [new URLSearchParams(body)] lists the properties of [body] in their
    order. *)
Definition getPayProWebhookData (unsignedBody : fields) : RequestInit :=
  let body := signed_body unsignedBody in
  {| init_method := js "POST";
     init_headers :=
       [(js "Content-Type", js "application/x-www-form-urlencoded")];
     init_body := URLSearchParams_toString body |}.
End WebhookTests.

(** The notification carries the signed fields of the object and its
    signature; a property that the object lacks is [undefined] in the
    notification too, and joins as the empty string. *)
Definition carries (data : PayProWebhookData) (body : fields) : Prop :=
  ORDER_ID data = default [] (property_get (js "ORDER_ID") body)
  ∧ ORDER_STATUS data = default [] (property_get (js "ORDER_STATUS") body)
  ∧ ORDER_TOTAL_AMOUNT data
    = default [] (property_get (js "ORDER_TOTAL_AMOUNT") body)
  ∧ CUSTOMER_EMAIL data = default [] (property_get (js "CUSTOMER_EMAIL") body)
  ∧ TestMode_str (TEST_MODE data)
    = default [] (property_get (js "TEST_MODE") body)
  ∧ PayProIPNTypes_str (IPN_TYPE_NAME data)
    = default [] (property_get (js "IPN_TYPE_NAME") body)
  ∧ Some (SIGNATURE data) = property_get (js "SIGNATURE") body.

(** The body of the test 'should reject invalid webhooks', with the dates
    written out, and the same body without its [SIGNATURE]. *)
Definition unsigned_test_body : fields :=
  [(js "IPN_TYPE_NAME", js "OrderCharged");
   (js "ORDER_ITEM_SKU", js "pro-monthly");
   (js "CUSTOMER_ID", js "123");
   (js "SUBSCRIPTION_ID", js "456");
   (js "SUBSCRIPTION_RENEWAL_TYPE", js "Auto");
   (js "SUBSCRIPTION_NEXT_CHARGE_DATE", js "1/1/2025 12:00 AM");
   (js "ORDER_PLACED_TIME_UTC", js "03/21/2023 19:02:59");
   (js "PRODUCT_QUANTITY", js "1");
   (js "TEST_MODE", js "0");
   (js "CUSTOMER_EMAIL", js "test@email.com")].

Definition invalid_test_body : fields :=
  unsigned_test_body ++ [(js "SIGNATURE", js "BAD-SIGNATURE")].

(** The notification of that test as the handler reads it: the fields the
    body lacks are empty. *)
Definition test_notification (signature : jsstring) : PayProWebhookData :=
  {| IPN_TYPE_NAME := OrderCharged;
     HASH := js "";
     SIGNATURE := signature;
     TEST_MODE := TestMode0;
     CUSTOMER_EMAIL := js "test@email.com";
     PRODUCT_ID := js "";
     ORDER_ITEM_SKU := pro_monthly;
     PRODUCT_QUANTITY := js "1";
     ORDER_ITEM_TOTAL_AMOUNT := js "";
     CUSTOMER_ID := js "123";
     SUBSCRIPTION_ID := js "456";
     ORDER_PLACED_TIME_UTC := js "03/21/2023 19:02:59";
     INVOICE_LINK := None;
     SUBSCRIPTION_STATUS_NAME := Active;
     SUBSCRIPTION_NEXT_CHARGE_DATE := js "1/1/2025 12:00 AM";
     SUBSCRIPTION_RENEWAL_TYPE := Auto;
     ORDER_ID := js "";
     ORDER_STATUS := js "";
     ORDER_TOTAL_AMOUNT := js "";
     ORDER_CURRENCY_CODE := js "";
     ORDER_CUSTOM_FIELDS := js "" |}.

(** ** The event processor of [reportError] ([errors.ts]) *)

(** [a || b] for a string that may be [undefined]: [a] when it is truthy,
    [b] otherwise. *)
Definition string_or (a : option jsstring) (b : jsstring) : option jsstring :=
  if string_truthy a then a else Some b.

Section EventProcessor.
(** The objects of headers, the values that [extra] holds, and what a
    request and an event of Sentry hold besides the properties the
    processor reads: all are left as they are found. *)
Variable header_object : Type.
Variable extra_value : Type.
Variable request_rest : Type.
Variable event_rest : Type.

(** The rest of the empty object: no properties. *)
Variable no_properties : request_rest.

(** A string, or [undefined], as a value of [extra]. *)
Variable extra_string : option jsstring → extra_value.

(** The [request] of an event of Sentry. *)
Record SentryRequest : Type := {
  request_method : option jsstring;
  request_url : option jsstring;
  request_headers : option header_object;
  request_others : request_rest
}.

(** An event of Sentry, as the processor gets it. *)
Record SentryEvent : Type := {
  event_request : option SentryRequest;
  event_extra : option (gmap jsstring extra_value);
  event_others : event_rest
}.

(** The properties of an [APIGatewayProxyEvent] that the processor reads. *)
Record EventContext : Type := {
  httpMethod : jsstring;
  path : jsstring;
  context_headers : header_object
}.

(** The [originalError] of an error that has one. *)
Record OriginalError : Type := {
  original_name : jsstring;
  original_message : jsstring;
  original_stack : option jsstring
}.

(** The function given to [scope.addEventProcessor], for the
    [eventContext] of the call, [None] when there is none, and the
    [originalError] of the error, [None] unless the error is an [Error]
    with that property. *)
Definition eventProcessor (eventContext : option EventContext)
    (originalError : option OriginalError) (event : SentryEvent)
    : SentryEvent :=
  let event :=
    match eventContext with
    | Some eventContext =>
        let request :=
          default {| request_method := None;
                     request_url := None;
                     request_headers := None;
                     request_others := no_properties |}
                  (event_request event) in
        let request :=
          {| request_method :=
               string_or (request_method request) (httpMethod eventContext);
             request_url := string_or (request_url request) (path eventContext);
             request_headers :=
               Some (default (context_headers eventContext)
                             (request_headers request));
             request_others := request_others request |} in
        {| event_request := Some request;
           event_extra := event_extra event;
           event_others := event_others event |}
    | None => event
    end in
  match originalError with
  | Some originalError =>
      {| event_request := event_request event;
         event_extra :=
           Some (<[js "originalStack" :=
                     extra_string (original_stack originalError)]>
                   (<[js "originalMessage" :=
                        extra_string (Some (original_message originalError))]>
                      (<[js "originalName" :=
                           extra_string (Some (original_name originalError))]>
                         (default ∅ (event_extra event)))));
         event_others := event_others event |}
  | None => event
  end.
End EventProcessor.

(** A character of base64 text: a letter, a digit, [+], [/], or the [=] of
    the padding. *)
Definition is_base64_char (c : N) : bool :=
  (((65 <=? c) && (c <=? 90)) || ((97 <=? c) && (c <=? 122))
   || ((48 <=? c) && (c <=? 57)) || (c =? 43) || (c =? 47) || (c =? 61))%N.

(** * Properties *)

(** ** The SHA-256 model on the standard test vectors *)

Example sha256_hex_abc :
  sha256_hex (js "abc")
  = js "ba7816bf8f01cfea414140de5dae2223b00361a396177a9cb410ff61f20015ad".
Proof. vm_compute. reflexivity. Qed.

Example sha256_hex_empty :
  sha256_hex (js "")
  = js "e3b0c44298fc1c149afbf4c8996fb92427ae41e4649b934ca495991b7852b855".
Proof. vm_compute. reflexivity. Qed.


(** A message of several blocks, and one outside ASCII: [h], [e] acute,
    [llo], a euro sign and a code point outside the basic plane. *)
Example sha256_hex_blocks :
  sha256_hex (repeat (chr "x") 200)
  = js "aa20c23e3201834050679e1d88941b9a6fed0557c9a705cb2c315e2e63fd486d".
Proof. vm_compute. reflexivity. Qed.

Example sha256_hex_utf8 :
  sha256_hex [0x68; 0xe9; 0x6c; 0x6c; 0x6f; 0x20; 0x20ac; 0x20; 0xd83d; 0xde00]%N
  = js "83643b4928cf4914ee6352fed94ef1d9cacb5a843c45544627c6593db3548d74".
Proof. vm_compute. reflexivity. Qed.

(** ** The matcher on the pattern of the source *)

#[local] Arguments N.eqb : simpl never.
#[local] Arguments chr : simpl never.
#[local] Arguments is_word_char : simpl never.
#[local] Arguments is_line_terminator : simpl never.
#[local] Arguments at_stop : simpl never.

Lemma word_char_not_equals c : is_word_char c = true → (chr "=" =? c)%N = false.
Proof.
  intros Hc. destruct (N.eqb_spec (chr "=") c) as [<-|]; [|done].
  vm_compute in Hc. discriminate.
Qed.

Lemma greedy_star_word (k : continuation) :
  (∀ c t caps, is_word_char c = true → k (c :: t) caps = None) →
  ∀ n x caps, length x ≤ n →
    greedy_star (match_unit is_word_char) k n x caps = k (drop_word x) caps.
Proof.
  intros Hk. induction n as [|n IH]; intros x caps Hn.
  - destruct x; [reflexivity|simpl in Hn; lia].
  - destruct x as [|c x]; [reflexivity|]. simpl.
    destruct (is_word_char c) eqn:Hc; [|done].
    rewrite bool_decide_false by (simpl; lia).
    rewrite IH by (simpl in Hn; lia).
    destruct (k (drop_word x) caps) eqn:E; [done|]. by rewrite Hk.
Qed.

Lemma greedy_star_word_some n x caps :
  ∃ y, greedy_star (match_unit is_word_char) (fun y c => Some (y, c)) n x caps = Some (y, caps).
Proof.
  revert x caps. induction n as [|n IH]; intros [|c x] caps; simpl; eauto.
  - destruct (is_word_char c); eauto. rewrite bool_decide_false by (simpl; lia). eauto.
  - destruct (is_word_char c); eauto. rewrite bool_decide_false by (simpl; lia).
    destruct (IH x caps) as [y ->]. eauto.
Qed.

Lemma rmatch_lookahead x caps (k : continuation) :
  rmatch (RLookahead (RAlt REnd
            (RChar (chr ",") ⋅ RChar (chr "x") ⋅ RChar (chr "-") ⋅ RPlus RWord)))
         x caps k
  = if at_stop x then k x caps else None.
Proof.
  unfold at_stop, at_marker.
  destruct x as [|a [|b [|c [|d x]]]]; simpl; try done;
    repeat (destruct (_ =? _)%N; simpl; try done).
  destruct (is_word_char d); [|done].
  by destruct (greedy_star_word_some (length x) x caps) as [y ->].
Qed.

Lemma lazy_star_dot (f : jsstring → jsstring) (k : continuation) n x caps :
  (∀ y caps', k y caps' = if at_stop y then Some (y, <[2 := f y]> caps') else None) →
  length x ≤ n →
  lazy_star (match_unit (fun c => negb (is_line_terminator c))) k n x caps
  = match split_value x with
    | Some (_, r) => Some (r, <[2 := f r]> caps)
    | None => None
    end.
Proof.
  intros Hk. revert x caps. induction n as [|n IH]; intros x caps Hn.
  - destruct x; [|simpl in Hn; lia]. simpl. by rewrite Hk.
  - destruct x as [|c x]; [simpl; by rewrite Hk|].
    cbn [lazy_star split_value]. rewrite Hk. destruct (at_stop (c :: x)); [done|].
    simpl. destruct (is_line_terminator c); simpl; [done|].
    rewrite bool_decide_false by (simpl; lia).
    rewrite IH by (simpl in Hn; lia).
    by destruct (split_value x) as [[v r]|].
Qed.

Lemma take_drop_word t : take_word t ++ drop_word t = t.
Proof.
  induction t as [|c t IH]; simpl; [done|].
  destruct (is_word_char c); simpl; [by rewrite IH|done].
Qed.

Lemma split_value_app t v r : split_value t = Some (v, r) → t = v ++ r.
Proof.
  revert v r. induction t as [|c t IH]; intros v r; simpl.
  - intros ?; by simplify_eq.
  - destruct (at_stop (c :: t)); [intros ?; by simplify_eq|].
    destruct (is_line_terminator c); [done|].
    destruct (split_value t) as [[v' r']|]; [|done].
    intros ?; simplify_eq. simpl. f_equal. by apply IH.
Qed.

Lemma consumed_app v r : consumed (v ++ r) r = v.
Proof.
  unfold consumed. rewrite length_app.
  replace (length v + length r - length r) with (length v) by lia.
  by rewrite take_app_length.
Qed.

Lemma rmatch_RSeq r1 r2 x caps (k : continuation) :
  rmatch (r1 ⋅ r2) x caps k = rmatch r1 x caps (fun y c => rmatch r2 y c k).
Proof. reflexivity. Qed.

Lemma rmatch_RChar c x caps (k : continuation) :
  rmatch (RChar c) x caps k
  = match x with
    | a :: x' => if (c =? a)%N then k x' caps else None
    | [] => None
    end.
Proof. reflexivity. Qed.

Lemma rmatch_RGroup n r x caps (k : continuation) :
  rmatch (RGroup n r) x caps k
  = rmatch r x caps (fun y caps' => k y (<[n := consumed x y]> caps')).
Proof. reflexivity. Qed.

Lemma rmatch_RPlus_word x caps (k : continuation) :
  (∀ c t caps, is_word_char c = true → k (c :: t) caps = None) →
  rmatch (RPlus RWord) x caps k
  = match x with
    | c :: x' => if is_word_char c then k (drop_word x') caps else None
    | [] => None
    end.
Proof.
  intros Hk. destruct x as [|c x]; [done|]. simpl.
  destruct (is_word_char c); [|done]. by apply greedy_star_word.
Qed.

Lemma rmatch_RStarLazy_dot (f : jsstring → jsstring) x caps (k : continuation) :
  (∀ y caps', k y caps' = if at_stop y then Some (y, <[2 := f y]> caps') else None) →
  rmatch (RStarLazy RDot) x caps k
  = match split_value x with
    | Some (_, r) => Some (r, <[2 := f r]> caps)
    | None => None
    end.
Proof. intros Hk. simpl. by apply lazy_star_dot. Qed.

(** The pattern matches at a position exactly when a field starts there,
    and captures its key and value. *)
Lemma rmatch_customFieldMatch x :
  rmatch customFieldMatch x ∅ (fun y caps => Some (y, caps))
  = match field_here x with
    | Some (k, v, r) => Some (r, <[2 := v]> (<[1 := k]> ∅))
    | None => None
    end.
Proof.
  unfold customFieldMatch, field_here.
  rewrite rmatch_RSeq, rmatch_RChar.
  destruct x as [|a [|b t1]]; [done| |].
  { rewrite rmatch_RSeq, rmatch_RChar. by destruct (_ =? a)%N. }
  destruct (chr "x" =? a)%N; [|done].
  rewrite rmatch_RSeq, rmatch_RChar.
  destruct (chr "-" =? b)%N; [|done]. cbn [andb].
  rewrite rmatch_RSeq, rmatch_RGroup, rmatch_RPlus_word; last first.
  { intros c t caps Hc. rewrite rmatch_RSeq, rmatch_RChar.
    by rewrite word_char_not_equals. }
  destruct t1 as [|c t1]; [done|]. cbn [take_word drop_word].
  destruct (is_word_char c) eqn:Hc; [|done].
  pose proof (take_drop_word t1) as Htd.
  destruct (drop_word t1) as [|e t2] eqn:Hdrop; [done|].
  rewrite rmatch_RSeq, rmatch_RChar.
  destruct (chr "=" =? e)%N; [|done].
  rewrite rmatch_RSeq, rmatch_RGroup.
  rewrite (rmatch_RStarLazy_dot (consumed t2)); last first.
  { intros y caps'. by rewrite rmatch_lookahead. }
  destruct (split_value t2) as [[v r]|] eqn:Hv; [|done].
  apply split_value_app in Hv. subst t2.
  rewrite consumed_app.
  replace (consumed (c :: t1) (e :: v ++ r)) with (c :: take_word t1); [done|].
  rewrite <- (consumed_app (c :: take_word t1) (e :: v ++ r)).
  simpl. by rewrite Htd.
Qed.

(** ** The direct reading and the format *)

Lemma at_marker_spec t : at_marker t = true ↔ marker_follows t.
Proof.
  unfold at_marker, marker_follows. split.
  - destruct t as [|a [|b [|c [|d t]]]]; try done.
    rewrite !andb_true_iff, !N.eqb_eq. intros [[[<- <-] <-] Hd].
    by exists d, t.
  - intros (c & t' & -> & Hc). simpl. by rewrite Hc.
Qed.

Lemma at_stop_spec t : at_stop t = true ↔ value_stops t.
Proof.
  unfold at_stop, value_stops. rewrite <- at_marker_spec.
  destruct t; [naive_solver|]. split; [by right|]. by intros [|].
Qed.

Lemma split_value_spec t v r :
  split_value t = Some (v, r) ↔
    t = v ++ r ∧ one_line v ∧ value_stops r
    ∧ (∀ v1 v2, v = v1 ++ v2 → v2 ≠ [] → ¬ value_stops (v2 ++ r)).
Proof.
  split.
  - revert v r. induction t as [|c t IH]; intros v r.
    + simpl. intros ?; simplify_eq. repeat split; [constructor|by left|].
      intros v1 v2 Heq Hne. by destruct v1, v2.
    + cbn [split_value]. destruct (at_stop (c :: t)) eqn:Hstop.
      { intros ?; simplify_eq. repeat split; [constructor|by apply at_stop_spec|].
        intros v1 v2 Heq Hne. by destruct v1, v2. }
      destruct (is_line_terminator c) eqn:Hc; [done|].
      destruct (split_value t) as [[v' r']|] eqn:Hv; [|done].
      intros ?; simplify_eq.
      destruct (IH _ _ eq_refl) as (-> & Hline & Hr & Hshort).
      repeat split; [by constructor|done|].
      intros [|c1 v1] v2 Heq Hne; simplify_eq/=.
      * rewrite <- at_stop_spec. by rewrite Hstop.
      * by eapply Hshort.
  - intros (-> & Hline & Hr & Hshort).
    induction v as [|c v IH]; simpl.
    + apply at_stop_spec in Hr. destruct r; simpl in *; [done|].
      by rewrite Hr.
    + assert (at_stop (c :: v ++ r) = false) as ->.
      { apply not_true_is_false. rewrite at_stop_spec.
        by apply (Hshort [] (c :: v)). }
      inversion_clear Hline as [|?? Hc Hv]. rewrite Hc.
      rewrite IH; [done|done|].
      intros v1 v2 -> Hne. by apply (Hshort (c :: v1) v2).
Qed.

Lemma take_word_word t : word (take_word t).
Proof.
  induction t as [|c t IH]; simpl; [constructor|].
  destruct (is_word_char c) eqn:Hc; by constructor.
Qed.

Lemma take_word_app k e t :
  word k → is_word_char e = false → take_word (k ++ e :: t) = k.
Proof.
  intros Hk He. induction Hk as [|c k Hc _ IH]; simpl; [by rewrite He|].
  by rewrite Hc, IH.
Qed.

Lemma drop_word_app k e t :
  word k → is_word_char e = false → drop_word (k ++ e :: t) = e :: t.
Proof.
  intros Hk He. induction Hk as [|c k Hc _ IH]; simpl; [by rewrite He|].
  by rewrite Hc, IH.
Qed.

Lemma field_here_spec t k v r :
  field_here t = Some (k, v, r) ↔ field_match t k v r.
Proof.
  unfold field_here, field_match. split.
  - destruct t as [|a [|b t1]]; try done.
    destruct (chr "x" =? a)%N eqn:Ha; [|done].
    destruct (chr "-" =? b)%N eqn:Hb; [|done]. cbn [andb].
    apply N.eqb_eq in Ha, Hb. subst a b.
    pose proof (take_drop_word t1) as Htd. pose proof (take_word_word t1) as Hw.
    destruct (take_word t1) as [|c k'] eqn:Hk; [done|].
    destruct (drop_word t1) as [|e t2]; [done|].
    destruct (chr "=" =? e)%N eqn:He; [|done]. apply N.eqb_eq in He. subst e.
    destruct (split_value t2) as [[v' r']|] eqn:Hv; [|done].
    intros ?; simplify_eq. apply split_value_spec in Hv as (-> & ? & ? & ?).
    repeat split; try done.
  - intros (-> & Hne & Hw & Hline & Hr & Hshort).
    change (js "x-" ++ k ++ js "=" ++ v ++ r)
      with (chr "x" :: chr "-" :: k ++ chr "=" :: v ++ r).
    cbv beta iota. rewrite !N.eqb_refl. cbn [andb].
    rewrite take_word_app, drop_word_app by done.
    destruct k as [|c k]; [done|]. rewrite N.eqb_refl.
    by rewrite (proj2 (split_value_spec (v ++ r) v r)).
Qed.

Lemma field_starts_spec t : field_starts t ↔ is_Some (field_here t).
Proof.
  unfold field_starts. split.
  - intros (k & v & r & H). apply field_here_spec in H. by rewrite H.
  - intros [[[k v] r] H]. apply field_here_spec in H. eauto.
Qed.

(** ** The search of [exec] and the loop *)

Lemma exec_unfold r x :
  exec r x
  = match rmatch r x ∅ (fun y caps => Some (y, caps)) with
    | Some (y, caps) => Some {| match_captures := caps; match_rest := y |}
    | None => match x with [] => None | _ :: x' => exec r x' end
    end.
Proof. by destruct x. Qed.

Lemma field_here_None t : field_here t = None → ¬ field_starts t.
Proof. rewrite field_starts_spec. intros ->. by intros []. Qed.

Lemma exec_None t :
  exec customFieldMatch t = None → ∀ pre u, t = pre ++ u → ¬ field_starts u.
Proof.
  induction t as [|c t IH]; rewrite exec_unfold, rmatch_customFieldMatch;
    destruct (field_here _) as [[[k v] r]|] eqn:Hf; try done;
    apply field_here_None in Hf.
  - intros _ pre u Heq. symmetry in Heq. apply app_eq_nil in Heq as [_ ->]. done.
  - intros Hex [|c' pre] u Heq; simplify_eq/=; [done|]. by eapply IH.
Qed.

Lemma exec_Some t m :
  exec customFieldMatch t = Some m →
  ∃ pre k v r,
    t = pre ++ js "x-" ++ k ++ js "=" ++ v ++ r
    ∧ field_match (js "x-" ++ k ++ js "=" ++ v ++ r) k v r
    ∧ match_captures m = <[2 := v]> (<[1 := k]> ∅)
    ∧ match_rest m = r
    ∧ (∀ pre1 pre2 u, pre = pre1 ++ pre2 → pre2 ≠ [] → t = pre1 ++ u →
         ¬ field_starts u).
Proof.
  revert m. induction t as [|c t IH]; intros m;
    rewrite exec_unfold, rmatch_customFieldMatch;
    destruct (field_here _) as [[[k v] r]|] eqn:Hf; try done.
  - intros ?; simplify_eq. apply field_here_spec in Hf.
    exists [], k, v, r. pose proof Hf as (Heq & _).
    simpl in *. rewrite <- Heq.
    split_and!; [done..|]. intros pre1 pre2 u ? ?. by destruct pre1, pre2.
  - apply field_here_None in Hf.
    intros Hex. destruct (IH _ Hex) as (pre & k & v & r & -> & Hm & Hc & Hr & Hleft).
    exists (c :: pre), k, v, r. split_and!; [done..|].
    intros [|c' pre1] pre2 u Hpre Hne Heq; simplify_eq/=; [done|].
    by eapply Hleft.
Qed.

Lemma parse_loop_scan fuel t o :
  length t < fuel →
  ∃ fs, scan t fs
        ∧ parse_loop fuel t o = Some (foldl (fun o kv => obj_set kv.1 kv.2 o) o fs).
Proof.
  revert t o. induction fuel as [|fuel IH]; intros t o Hlen; [lia|].
  simpl. destruct (exec customFieldMatch t) as [m|] eqn:Hex.
  - apply exec_Some in Hex as (pre & k & v & r & -> & Hm & -> & Hr & Hleft).
    rewrite lookup_insert_ne, !lookup_insert_eq by done. rewrite Hr.
    destruct (IH r (obj_set k v o)) as (fs & Hscan & ->).
    { rewrite !length_app in Hlen. simpl in Hlen. lia. }
    exists ((k, v) :: fs). split; [|done]. by eapply scan_field.
  - exists []. split; [|done]. apply scan_done. by apply exec_None.
Qed.

Lemma field_match_unique t k v r k' v' r' :
  field_match t k v r → field_match t k' v' r' → k = k' ∧ v = v' ∧ r = r'.
Proof.
  rewrite <- !field_here_spec. intros -> ?. by simplify_eq.
Qed.

(** The conditions of [scan] leave one list of fields. *)
Lemma scan_deterministic t fs fs' : scan t fs → scan t fs' → fs = fs'.
Proof.
  intros Hs. revert fs'.
  induction Hs as [t Hno|t pre k v rest fs Hleft Ht Hm _ IH]; intros fs' Hs';
    inversion Hs' as [? Hno'|? pre' k' v' rest' fs'' Hleft' Ht' Hm' Hs''];
    simplify_eq.
  - done.
  - exfalso. eapply (Hno pre'); [done|]. by exists k', v', rest'.
  - exfalso. eapply (Hno' pre); [done|]. by exists k, v, rest.
  - assert (pre = pre') as <-.
    { apply app_eq_inv in Ht' as [(l & -> & Hl)|(l & -> & Hl)].
      - destruct l as [|c l]; [by rewrite app_nil_r|]. exfalso.
        eapply (Hleft pre' (c :: l)); [done|done|by rewrite <- app_assoc|].
        rewrite <- Hl. by exists k', v', rest'.
      - destruct l as [|c l]; [by rewrite app_nil_r|]. exfalso.
        eapply (Hleft' pre (c :: l)); [done|done|done|]. by exists k, v, rest. }
    apply app_inv_head in Ht'. rewrite Ht' in Hm.
    destruct (field_match_unique _ _ _ _ _ _ _ Hm Hm') as (-> & -> & ->).
    f_equal. by apply IH.
Qed.

Lemma last_value_cons k k' v' (fs : list (jsstring * jsstring)) :
  last_value k ((k', v') :: fs)
  = match last_value k fs with
    | Some v => Some v
    | None => if bool_decide (k' = k) then Some v' else None
    end.
Proof.
  unfold last_value. rewrite filter_cons. simpl.
  case_decide as Hk.
  - rewrite bool_decide_true by done. rewrite last_cons. by destruct (last _).
  - rewrite bool_decide_false by done. by destruct (last _).
Qed.

Lemma foldl_obj_set_lookup (fs : list (jsstring * jsstring))
    (o : gmap jsstring jsstring) (k : jsstring) :
  foldl (fun o kv => obj_set kv.1 kv.2 o) o fs !! k
  = match last_value k fs with
    | Some v => if bool_decide (k = js "__proto__") then o !! k else Some v
    | None => o !! k
    end.
Proof.
  revert o. induction fs as [|[k' v'] fs IH]; intros o; [done|].
  cbn [foldl]. rewrite IH, last_value_cons. unfold obj_set. cbn [fst snd].
  destruct (last_value k fs) as [v|].
  - case_bool_decide as Hk; [|done].
    case_bool_decide; [done|]. rewrite lookup_insert_ne; [done|congruence].
  - repeat case_bool_decide; simplify_eq; rewrite ?lookup_insert_eq; try done.
    by rewrite lookup_insert_ne.
Qed.

(** ** [parsePayProCustomFields] *)

(** The loop ends within the fuel it is given, whatever the input. *)
Lemma parsePayProCustomFields_scan s :
  ∃ fs, scan s fs ∧ parsePayProCustomFields s = Some (fields_object fs).
Proof. apply parse_loop_scan. lia. Qed.

Lemma scan_entry s fs k v : scan s fs → (k, v) ∈ fs → entry s k v.
Proof.
  intros Hscan. induction Hscan as [|t pre k0 v0 rest fs Hleft -> Hm _ IH];
    intros Hin; [by apply elem_of_nil in Hin|].
  apply elem_of_cons in Hin as [[= -> ->]|Hin].
  - by exists pre, rest.
  - destruct (IH Hin) as (pre' & rest' & -> & Hm').
    exists (pre ++ js "x-" ++ k0 ++ js "=" ++ v0 ++ pre'), rest'.
    split; [|done]. by rewrite <- !app_assoc.
Qed.

Lemma last_value_elem k v (fs : list (jsstring * jsstring)) :
  last_value k fs = Some v → (k, v) ∈ fs.
Proof.
  unfold last_value. intros Hlast.
  apply fmap_Some in Hlast as ([k' v'] & Hlast & ->).
  apply last_Some_elem_of, list_elem_of_filter in Hlast as [<- Hin]. done.
Qed.

(** C5 (as amended): for every input, the entries of the result are the
    fields of the input in left-to-right scan order; each has a key of word
    characters right after [x-], and as value the shortest run in front of
    the end of the input or of a marker [,x-] followed by a word character
    (no equals sign is asked for); a later field with the same key
    overwrites an earlier one. *)
Theorem parsePayProCustomFields_fields (s : jsstring) :
  ∃ fs,
    scan s fs
    ∧ parsePayProCustomFields s = Some (fields_object fs)
    ∧ (∀ k v, fields_object fs !! k = Some v → entry s k v)
    ∧ (∀ k v, fields_object fs !! k = Some v
              ↔ k ≠ js "__proto__" ∧ last_value k fs = Some v).
Proof.
  destruct (parsePayProCustomFields_scan s) as (fs & Hscan & Hparse).
  assert (∀ k v, fields_object fs !! k = Some v
                 ↔ k ≠ js "__proto__" ∧ last_value k fs = Some v) as Hlast.
  { intros k v. unfold fields_object. rewrite foldl_obj_set_lookup, lookup_empty.
    destruct (last_value k fs); [case_bool_decide|]; intuition congruence. }
  exists fs. split_and!; [done..| |done].
  intros k v Hk. apply Hlast in Hk as [_ Hk].
  eapply scan_entry; [done|]. by apply last_value_elem.
Qed.

(** C5 as the specification states it fails on [x-a=1,x-b]: the value of
    [a] is [1], in front of [,x-b], which is neither the end of the input
    nor a marker with an equals sign. *)
Lemma parsePayProCustomFields_marker_without_equals :
  ∃ result,
    parsePayProCustomFields (js "x-a=1,x-b") = Some result
    ∧ result !! js "a" = Some (js "1")
    ∧ ¬ claimed_fields (js "x-a=1,x-b") result.
Proof.
  exists {[ js "a" := js "1" ]}. split_and!.
  - vm_compute. reflexivity.
  - done.
  - intros Hclaim.
    destruct (Hclaim (js "a") (js "1")) as (pre & rest & Heq & _ & _ & Hstop); [done|].
    assert (rest = js ",x-b") as ->.
    { vm_compute in Heq. vm_compute.
      repeat (destruct pre as [|? pre];
              [congruence|injection Heq as _ Heq]).
      destruct pre; discriminate. }
    destruct Hstop as [|(w & t' & Hw & Hne & _)]; [done|].
    destruct w as [|c [|c' w]]; simplify_eq/=.
Qed.

(** C6: the parser returns a result on every input, the empty object when
    the pattern matches nowhere, and the results the specification lists on
    its three examples. *)
Theorem parsePayProCustomFields_total :
  (∀ s, is_Some (parsePayProCustomFields s))
  ∧ (∀ s, exec customFieldMatch s = None → parsePayProCustomFields s = Some ∅)
  ∧ parsePayProCustomFields (js "x-a=1,x-b=2")
    = Some {[ js "a" := js "1"; js "b" := js "2" ]}
  ∧ parsePayProCustomFields passthrough_example
    = Some {[ js "passthrough" := passthrough_value; js "source" := js "web" ]}
  ∧ parsePayProCustomFields (js "") = Some ∅.
Proof.
  split_and!.
  - intros s. destruct (parsePayProCustomFields_scan s) as (fs & _ & ->). done.
  - intros s Hex. unfold parsePayProCustomFields. simpl. by rewrite Hex.
  - vm_compute. reflexivity.
  - vm_compute. reflexivity.
  - vm_compute. reflexivity.
Qed.

Lemma parsePayProCustomFields_total_witness :
  exec customFieldMatch (js "no fields here") = None
  ∧ parsePayProCustomFields (js "no fields here") = Some ∅.
Proof.
  split; [vm_compute; reflexivity|].
  apply (proj1 (proj2 parsePayProCustomFields_total)). vm_compute. reflexivity.
Defined.

(** ** [validatePayProWebhook] *)

Lemma webhook_key_concat key data :
  webhook_key key data
  = ORDER_ID data ++ ORDER_STATUS data ++ ORDER_TOTAL_AMOUNT data
    ++ CUSTOMER_EMAIL data ++ default [] key
    ++ TestMode_str (TEST_MODE data) ++ PayProIPNTypes_str (IPN_TYPE_NAME data).
Proof. unfold webhook_key, join_empty. simpl. by rewrite app_nil_r. Qed.

Lemma validatePayProWebhook_cases key data :
  (SIGNATURE data = expectedSignature key data
   ∧ validatePayProWebhook key data = Ok tt)
  ∨ (SIGNATURE data ≠ expectedSignature key data
     ∧ validatePayProWebhook key data
       = Throw (StatusError 403
           (js "PayPro IPN signature did not match - expected "
            ++ expectedSignature key data
            ++ js " but received " ++ SIGNATURE data))).
Proof.
  unfold validatePayProWebhook. case_bool_decide as H; [by right|left].
  split; [|done]. by destruct (decide (SIGNATURE data = expectedSignature key data)).
Qed.

(** C1: the gate returns normally exactly when [SIGNATURE] is the
    hexadecimal SHA-256 digest of ORDER_ID, ORDER_STATUS,
    ORDER_TOTAL_AMOUNT, CUSTOMER_EMAIL, the validation secret, TEST_MODE and
    IPN_TYPE_NAME joined in this order without separator; otherwise it
    throws a [StatusError] with status code 403, which is not the generic
    [Error]. *)
Theorem validatePayProWebhook_signature
    (key : option jsstring) (data : PayProWebhookData) :
  let signed :=
    ORDER_ID data ++ ORDER_STATUS data ++ ORDER_TOTAL_AMOUNT data
    ++ CUSTOMER_EMAIL data ++ default [] key
    ++ TestMode_str (TEST_MODE data) ++ PayProIPNTypes_str (IPN_TYPE_NAME data) in
  (validatePayProWebhook key data = Ok tt ↔ SIGNATURE data = sha256_hex signed)
  ∧ (validatePayProWebhook key data = Ok tt
     ∨ ∃ message,
         validatePayProWebhook key data = Throw (StatusError 403 message)
         ∧ instanceof_StatusError (StatusError 403 message) = true
         ∧ ∀ generic, StatusError 403 message ≠ Error generic).
Proof.
  intros signed. subst signed. rewrite <- webhook_key_concat.
  fold (expectedSignature key data).
  destruct (validatePayProWebhook_cases key data) as [[Hs ->]|[Hs ->]].
  - split; [done|by left].
  - split; [split; [done|by intros ?]|]. right. eexists. by split_and!.
Qed.

Lemma validatePayProWebhook_signature_witness :
  validatePayProWebhook test_validation_key
    (with_signature rejected_notification accepted_signature)
  = Ok tt
  ∧ ∃ message,
      validatePayProWebhook test_validation_key rejected_notification
      = Throw (StatusError 403 message).
Proof.
  pose proof (validatePayProWebhook_signature test_validation_key
                (with_signature rejected_notification accepted_signature)) as [H1 _].
  pose proof (validatePayProWebhook_signature test_validation_key
                rejected_notification) as [H2 [H3|(m & H3 & _)]].
  - split; [apply H1; vm_compute; reflexivity|].
    apply H2 in H3. vm_compute in H3. discriminate H3.
  - split; [apply H1; vm_compute; reflexivity|]. by exists m.
Defined.

(** C9: two notifications with the same ORDER_ID, ORDER_STATUS,
    ORDER_TOTAL_AMOUNT, CUSTOMER_EMAIL, TEST_MODE, IPN_TYPE_NAME and
    SIGNATURE get the same outcome, whatever their other fields hold: both
    are accepted or both are rejected (with the same error). *)
Theorem validatePayProWebhook_signed_fields_only
    (key : option jsstring) (d1 d2 : PayProWebhookData) :
  ORDER_ID d1 = ORDER_ID d2 →
  ORDER_STATUS d1 = ORDER_STATUS d2 →
  ORDER_TOTAL_AMOUNT d1 = ORDER_TOTAL_AMOUNT d2 →
  CUSTOMER_EMAIL d1 = CUSTOMER_EMAIL d2 →
  TEST_MODE d1 = TEST_MODE d2 →
  IPN_TYPE_NAME d1 = IPN_TYPE_NAME d2 →
  SIGNATURE d1 = SIGNATURE d2 →
  validatePayProWebhook key d1 = validatePayProWebhook key d2
  ∧ (validatePayProWebhook key d1 = Ok tt ↔ validatePayProWebhook key d2 = Ok tt).
Proof.
  intros Hid Hst Htot Hmail Htest Htype Hsig.
  assert (validatePayProWebhook key d1 = validatePayProWebhook key d2) as ->; [|done].
  unfold validatePayProWebhook, expectedSignature, webhook_key.
  by rewrite Hid, Hst, Htot, Hmail, Htest, Htype, Hsig.
Qed.

Lemma validatePayProWebhook_signed_fields_only_witness :
  HASH rejected_notification ≠ HASH tampered_notification
  ∧ ORDER_ITEM_TOTAL_AMOUNT rejected_notification
    ≠ ORDER_ITEM_TOTAL_AMOUNT tampered_notification
  ∧ ORDER_CUSTOM_FIELDS rejected_notification
    ≠ ORDER_CUSTOM_FIELDS tampered_notification
  ∧ validatePayProWebhook test_validation_key rejected_notification
    = validatePayProWebhook test_validation_key tampered_notification
  ∧ validatePayProWebhook test_validation_key
      (with_signature rejected_notification accepted_signature)
    = validatePayProWebhook test_validation_key
        (with_signature tampered_notification accepted_signature).
Proof.
  pose proof (validatePayProWebhook_signed_fields_only test_validation_key
                rejected_notification tampered_notification
                eq_refl eq_refl eq_refl eq_refl eq_refl eq_refl eq_refl) as [H1 _].
  pose proof (validatePayProWebhook_signed_fields_only test_validation_key
                (with_signature rejected_notification accepted_signature)
                (with_signature tampered_notification accepted_signature)
                eq_refl eq_refl eq_refl eq_refl eq_refl eq_refl eq_refl) as [H2 _].
  split_and!; [done..|exact H1|exact H2].
Defined.

(** ** [catchErrors] *)

Lemma reportError_returns (err : error + jsstring) (w : world) :
  ∃ w', reportError err w = (w', Ok tt)
        ∧ sentryInitialized w' = sentryInitialized w.
Proof.
  unfold reportError, mbind, M_bind, tell, read_sentryInitialized, mret, M_ret.
  destruct err as [[]|msg]; simpl; destruct (sentryInitialized w) eqn:Hinit;
    simpl; eauto.
Qed.

(** A [StatusError] thrown by the handler becomes the response: its status
    code, and its message as the body. *)
Lemma catchErrors_StatusError (E : Type) (handler : ApiHandler E)
    (event : E) (context : Context) (w w' : world) code message :
  handler event {| callbackWaitsForEmptyEventLoop := false |} w
    = (w', Throw (StatusError code message)) →
  ∃ w'',
    catchErrors E handler event context w
    = (w'', Ok {| statusCode := code;
                  headers := [(js "Cache-Control", js "no-store")];
                  body := message |}).
Proof.
  intros Hh. unfold catchErrors. rewrite Hh.
  destruct (reportError_returns (inl (StatusError code message)) w') as (w'' & Hr & _).
  exists w''. unfold mbind, M_bind. by rewrite Hr.
Qed.

(** C10: when the gate rejects a notification, the message of the 403
    error holds the signature the gate expected, which is the one that makes
    this notification pass, and [catchErrors] answers with status 403 and
    that message as the body. *)
Theorem validatePayProWebhook_discloses_signature
    (key : option jsstring) (data : PayProWebhookData) :
  validatePayProWebhook key data ≠ Ok tt →
  ∃ message,
    validatePayProWebhook key data = Throw (StatusError 403 message)
    ∧ message = js "PayPro IPN signature did not match - expected "
                ++ expectedSignature key data
                ++ js " but received " ++ SIGNATURE data
    ∧ contains message (expectedSignature key data)
    ∧ validatePayProWebhook key (with_signature data (expectedSignature key data))
      = Ok tt
    ∧ ∀ (E : Type) (handler : ApiHandler E) event context w w',
        handler event {| callbackWaitsForEmptyEventLoop := false |} w
          = (w', Throw (StatusError 403 message)) →
        ∃ w'',
          catchErrors E handler event context w
          = (w'', Ok {| statusCode := 403;
                        headers := [(js "Cache-Control", js "no-store")];
                        body := message |}).
Proof.
  intros Hrej.
  destruct (validatePayProWebhook_cases key data) as [[_ Hok]|[Hs Hthrow]]; [done|].
  eexists. split_and!; [exact Hthrow|done| | |].
  - by eexists _, _.
  - destruct (validatePayProWebhook_cases key
                (with_signature data (expectedSignature key data)))
      as [[_ Hok]|[Hne _]]; [done|]. by destruct Hne.
  - intros E handler event context w w'. apply catchErrors_StatusError.
Qed.

Lemma validatePayProWebhook_discloses_signature_witness :
  ∃ message,
    validatePayProWebhook test_validation_key rejected_notification
      = Throw (StatusError 403 message)
    ∧ contains message accepted_signature
    ∧ ∃ w'',
        catchErrors unit
          (fun _ _ => lift (validatePayProWebhook test_validation_key
                              rejected_notification);;
                      mret {| statusCode := 200; headers := []; body := js "" |})
          tt {| callbackWaitsForEmptyEventLoop := true |}
          {| sentryInitialized := true; trace := [] |}
        = (w'', Ok {| statusCode := 403;
                      headers := [(js "Cache-Control", js "no-store")];
                      body := message |}).
Proof.
  destruct (validatePayProWebhook_discloses_signature test_validation_key
              rejected_notification) as (message & Hthrow & Hmsg & Hin & _ & Hcatch).
  { vm_compute. discriminate. }
  exists message. split_and!; [done| |].
  - replace accepted_signature
      with (expectedSignature test_validation_key rejected_notification); [done|].
    vm_compute. reflexivity.
  - apply Hcatch with (w' := {| sentryInitialized := true; trace := [] |}).
    unfold mbind, M_bind, lift. by rewrite Hthrow.
Defined.

(** ** [cancelSubscription] *)

Section CancelProperties.
Context (number : Type) (Number_truthy : number → bool).
Context (JSON_stringify : json number → jsstring).
Context (base account key : option jsstring).
Context (http : jsstring → jsstring → jsstring → result (Response number)).

Let cancel := cancelSubscription number Number_truthy JSON_stringify base account key http.

Lemma cancelSubscription_not_ok id w response :
  (∀ url method body, http url method body = Ok response) →
  ok number response = false →
  ∃ w',
    cancel id w
    = (w', Throw (Error (js "Unexpected " ++ Z_toString (Z.of_N (status number response))
                         ++ js " during PayPro cancellation"))).
Proof.
  intros Hhttp Hok. unfold cancel, cancelSubscription, fetch.
  unfold mbind, M_bind, tell, lift, throw. rewrite Hhttp. simpl.
  rewrite Hok. simpl. eauto.
Qed.

Lemma cancelSubscription_ok id w response responseBody isSuccess :
  (∀ url method body, http url method body = Ok response) →
  ok number response = true →
  response_json number response = Ok responseBody →
  get_property number responseBody (js "isSuccess") = Ok isSuccess →
  ∃ w',
    cancel id w
    = (w', if truthy number Number_truthy isSuccess then Ok tt
           else Throw (Error (js "PayPro cancellation request failed"))).
Proof.
  intros Hhttp Hok Hjson Hprop. unfold cancel, cancelSubscription, fetch.
  unfold mbind, M_bind, tell, lift, throw, mret, M_ret. rewrite Hhttp. simpl.
  rewrite Hok, Hjson, Hprop. simpl.
  destruct (truthy number Number_truthy isSuccess); simpl; eauto.
Qed.
End CancelProperties.

(** C7: when the HTTP call answers with a status of 400 or more, the
    cancellation throws the error of the transport; when it answers 200 with
    a body whose [isSuccess] is [false], it throws another error, the one of
    the provider's refusal; when it answers 200 with [isSuccess] [true], it
    returns without error. *)
Theorem cancelSubscription_outcomes
    (number : Type) (Number_truthy : number → bool)
    (JSON_stringify : json number → jsstring)
    (base account key : option jsstring)
    (http : jsstring → jsstring → jsstring → result (Response number))
    (subscriptionId : jsstring + number) (w : world)
    (response : Response number) :
  (∀ url method body, http url method body = Ok response) →
  let cancel :=
    cancelSubscription number Number_truthy JSON_stringify base account key http in
  let transport_error :=
    Error (js "Unexpected " ++ Z_toString (Z.of_N (status number response))
           ++ js " during PayPro cancellation") in
  let rejection_error := Error (js "PayPro cancellation request failed") in
  transport_error ≠ rejection_error
  ∧ ((400 ≤ status number response)%N →
     ∃ w', cancel subscriptionId w = (w', Throw transport_error))
  ∧ (∀ responseBody flag,
       status number response = 200%N →
       response_json number response = Ok responseBody →
       get_property number responseBody (js "isSuccess") = Ok (Some (JBool number flag)) →
       ∃ w', cancel subscriptionId w
             = (w', if flag then Ok tt else Throw rejection_error)).
Proof.
  intros Hhttp cancel transport_error rejection_error.
  subst cancel transport_error rejection_error. split_and!.
  - intros [=].
  - intros Hstatus. eapply cancelSubscription_not_ok; [done|].
    unfold ok. apply andb_false_iff. right. apply N.leb_gt. lia.
  - intros responseBody flag Hstatus Hjson Hprop.
    destruct (cancelSubscription_ok number Number_truthy JSON_stringify base
                account key http subscriptionId w response responseBody
                (Some (JBool number flag))) as [w' Hw']; try done.
    { unfold ok. by rewrite Hstatus. }
    exists w'. by rewrite Hw'.
Qed.

Lemma cancelSubscription_outcomes_witness :
  let cancel code flag :=
    cancelSubscription Z Z_truthy show_json None None None
      (fun _ _ _ => Ok (response_with code (Ok (isSuccess_body flag))))
      (inl (js "456")) initial_world in
  (∃ w', cancel 500%N true
         = (w', Throw (Error (js "Unexpected 500 during PayPro cancellation"))))
  ∧ (∃ w', cancel 200%N false
           = (w', Throw (Error (js "PayPro cancellation request failed"))))
  ∧ (∃ w', cancel 200%N true = (w', Ok tt)).
Proof.
  intros cancel. split_and!.
  - apply (cancelSubscription_outcomes Z Z_truthy show_json None None None
             (fun _ _ _ => Ok (response_with 500%N (Ok (isSuccess_body true))))
             (inl (js "456")) initial_world
             (response_with 500%N (Ok (isSuccess_body true)))); [done|].
    simpl. lia.
  - apply (proj2 (proj2 (cancelSubscription_outcomes Z Z_truthy show_json None None None
             (fun _ _ _ => Ok (response_with 200%N (Ok (isSuccess_body false))))
             (inl (js "456")) initial_world
             (response_with 200%N (Ok (isSuccess_body false)))
             (fun _ _ _ => eq_refl)))
             (isSuccess_body false) false); reflexivity.
  - apply (proj2 (proj2 (cancelSubscription_outcomes Z Z_truthy show_json None None None
             (fun _ _ _ => Ok (response_with 200%N (Ok (isSuccess_body true))))
             (inl (js "456")) initial_world
             (response_with 200%N (Ok (isSuccess_body true)))
             (fun _ _ _ => eq_refl)))
             (isSuccess_body true) true); reflexivity.
Defined.

(** ** [URLSearchParams] *)

Lemma URLSearchParams_get_filter_ne name name' (params : URLSearchParams) :
  name ≠ name' →
  URLSearchParams_get name' (filter (fun kv => kv.1 ≠ name) params)
  = URLSearchParams_get name' params.
Proof.
  intros Hne. induction params as [|[k v] params IH]; [done|].
  rewrite filter_cons. simpl. case_decide as Hk; simpl.
  - by rewrite IH.
  - rewrite IH. simpl in Hk. subst k. by rewrite bool_decide_false.
Qed.

Lemma URLSearchParams_get_set_eq name value (params : URLSearchParams) :
  URLSearchParams_get name (URLSearchParams_set name value params) = Some value.
Proof.
  induction params as [|[k v] params IH]; simpl.
  - by rewrite bool_decide_true.
  - case_bool_decide as Hk; simpl.
    + by rewrite bool_decide_true.
    + by rewrite bool_decide_false.
Qed.

Lemma URLSearchParams_get_set_ne name name' value (params : URLSearchParams) :
  name ≠ name' →
  URLSearchParams_get name' (URLSearchParams_set name value params)
  = URLSearchParams_get name' params.
Proof.
  intros Hne. induction params as [|[k v] params IH]; simpl.
  - by rewrite bool_decide_false.
  - case_bool_decide as Hk; simpl.
    + subst k. rewrite !bool_decide_false by done.
      by apply URLSearchParams_get_filter_ne.
    + by rewrite IH.
Qed.

Lemma URLSearchParams_set_absent name value (params : URLSearchParams) :
  URLSearchParams_get name params = None →
  URLSearchParams_set name value params = params ++ [(name, value)].
Proof.
  induction params as [|[k v] params IH]; simpl; [done|].
  case_bool_decide; [done|]. intros Hrest. by rewrite IH.
Qed.

Lemma URLSearchParams_get_app name (p q : URLSearchParams) :
  URLSearchParams_get name (p ++ q)
  = match URLSearchParams_get name p with
    | Some v => Some v
    | None => URLSearchParams_get name q
    end.
Proof.
  induction p as [|[k v] p IH]; simpl; [done|]. by case_bool_decide.
Qed.

Lemma URLSearchParams_set_nonempty name value (params : URLSearchParams) :
  URLSearchParams_set name value params ≠ [].
Proof. destruct params as [|[k v] params]; simpl; [done|]. by case_bool_decide. Qed.

Lemma join_with_snoc sep (l : list jsstring) x :
  l ≠ [] → join_with sep (l ++ [x]) = join_with sep l ++ sep ++ x.
Proof.
  induction l as [|y [|z l] IH]; intros Hne; [done|done|].
  change (join_with sep ((y :: z :: l) ++ [x]))
    with (y ++ sep ++ join_with sep ((z :: l) ++ [x])).
  rewrite IH by done.
  change (join_with sep (y :: z :: l)) with (y ++ sep ++ join_with sep (z :: l)).
  by rewrite <- !app_assoc.
Qed.

Lemma URLSearchParams_toString_snoc (params : URLSearchParams) name value :
  params ≠ [] →
  URLSearchParams_toString (params ++ [(name, value)])
  = URLSearchParams_toString params
    ++ js "&" ++ urlencode name ++ js "=" ++ urlencode value.
Proof.
  intros Hne. unfold URLSearchParams_toString. rewrite map_app. simpl.
  rewrite join_with_snoc; [done|]. by destruct params.
Qed.

(** The query of the checkout URL, as text: the product id comes after the
    visible pairs, and the encrypted data comes last. *)
Lemma checkout_query_text (visible p : URLSearchParams) id data :
  visible ≠ [] →
  URLSearchParams_get (js "products[1][id]") visible = None →
  URLSearchParams_get (js "products[1][qty]") visible = None →
  URLSearchParams_get (js "products[1][data]") visible = None →
  (p = URLSearchParams_set (js "products[1][id]") id visible
   ∨ ∃ qty, p = URLSearchParams_set (js "products[1][qty]") qty
                  (URLSearchParams_set (js "products[1][id]") id visible)) →
  ∃ middle,
    URLSearchParams_toString (URLSearchParams_set (js "products[1][data]") data p)
    = URLSearchParams_toString visible
      ++ js "&products%5B1%5D%5Bid%5D=" ++ urlencode id
      ++ middle
      ++ js "&products%5B1%5D%5Bdata%5D=" ++ urlencode data.
Proof.
  intros Hne Hid Hqty Hdata Hp.
  assert (URLSearchParams_set (js "products[1][id]") id visible
          = visible ++ [(js "products[1][id]", id)]) as Hset
    by by apply URLSearchParams_set_absent.
  rewrite Hset in Hp. destruct Hp as [->|[qty ->]].
  - exists []. rewrite URLSearchParams_set_absent
      by (by rewrite URLSearchParams_get_app, Hdata; simpl).
    rewrite !URLSearchParams_toString_snoc by (by destruct visible).
    by rewrite <- !app_assoc.
  - exists (js "&products%5B1%5D%5Bqty%5D=" ++ urlencode qty).
    rewrite (URLSearchParams_set_absent (js "products[1][qty]"))
      by (by rewrite URLSearchParams_get_app, Hqty; simpl).
    rewrite URLSearchParams_set_absent
      by (by rewrite !URLSearchParams_get_app, Hdata; simpl).
    rewrite !URLSearchParams_toString_snoc by (by destruct visible).
    by rewrite <- !app_assoc.
Qed.

Lemma set_if_truthy_nonempty name value (params : URLSearchParams) :
  params ≠ [] → set_if_truthy name value params ≠ [].
Proof.
  intros Hne. unfold set_if_truthy. destruct (string_truthy value); [|done].
  apply URLSearchParams_set_nonempty.
Qed.

Lemma URLSearchParams_get_set_if_truthy_ne name name' value
    (params : URLSearchParams) :
  name ≠ name' →
  URLSearchParams_get name' (set_if_truthy name value params)
  = URLSearchParams_get name' params.
Proof.
  intros Hne. unfold set_if_truthy. destruct (string_truthy value); [|done].
  by apply URLSearchParams_get_set_ne.
Qed.

(** ** The cipher takes every key and vector of the right length *)

Lemma length_binary_bytes s : length (binary_bytes s) = length s.
Proof. apply length_map. Qed.

Lemma round_keys_accepts (key : list AES.bits8) :
  length key = 16 ∨ length key = 24 ∨ length key = 32 →
  is_Some (AES.round_keys key).
Proof. intros H. unfold AES.round_keys. by rewrite bool_decide_true. Qed.

Lemma iv_block_accepts (iv : list byte) :
  16 ≤ length iv → is_Some (AES.iv_block iv).
Proof.
  intros H. unfold AES.iv_block. rewrite bool_decide_true by done.
  do 16 (destruct iv as [|? iv]; [simpl in H; lia|]). done.
Qed.

Lemma encrypt_accepts key iv data :
  cipher_accepts key iv →
  is_Some (AES.encrypt (binary_bytes key) (binary_bytes iv) data).
Proof.
  intros (_ & _ & Hkey & Hiv). unfold AES.encrypt.
  destruct (round_keys_accepts (map Byte.to_bits (binary_bytes key))) as [rks ->].
  { by rewrite length_map, length_binary_bytes. }
  destruct (iv_block_accepts (binary_bytes iv)) as [iv0 ->]; [|done].
  by rewrite length_binary_bytes.
Qed.

Lemma forge_encrypt_run key iv data w :
  forge_encrypt key iv data w
  = (emit (CipherEncrypt data) w,
     match AES.encrypt (binary_bytes key) (binary_bytes iv) (binary_bytes data) with
     | Some output => Ok output
     | None => Throw (Error (js "Invalid key or IV parameter."))
     end).
Proof.
  unfold forge_encrypt, mbind, M_bind, tell, mret, M_ret, throw.
  by destruct (AES.encrypt _ _ _).
Qed.

(** ** [createCheckout] *)

Lemma urlencode_price_key currency :
  currency ∈ PAYPRO_CURRENCIES →
  urlencode (js "price[" ++ currency ++ js "][Amount]")
  = js "price%5B" ++ currency ++ js "%5D%5BAmount%5D".
Proof.
  revert currency. apply Forall_forall.
  refine (bool_decide_unpack _ _). vm_compute. reflexivity.
Qed.

Section CheckoutProperties.
Context (number : Type) (Number_toString : number → jsstring)
  (Number_truthy : number → bool).
Context (rate : Type) (rate_toString : rate → jsstring)
  (rate_truthy : rate → bool).
Context (base : option jsstring) (key iv : jsstring).
Context (latest_rates : jsstring → result (jsstring → option rate)).

Local Abbreviation checkout :=
  (createCheckout number Number_toString Number_truthy rate rate_toString
     rate_truthy base key iv latest_rates).

(** The query of the URL that [createCheckout] returns, as text. *)
Lemma final_query_text (options : CheckoutOptions number) (data : jsstring) :
  let visible :=
    set_if_truthy (js "x-return-url") (returnUrl number options)
      (set_if_truthy (js "x-passthrough") (passthrough number options)
        (set_if_truthy (js "x-source") (Some (source number options))
          (set_if_truthy (js "billing-country") (countryCode number options)
            (set_if_truthy (js "billing-email") (email number options)
              (URLSearchParams_set (js "currency") (currency number options) []))))) in
  let with_id :=
    URLSearchParams_set (js "products[1][id]")
      (Z_toString (SKU_TO_PAYPRO_ID (sku number options))) visible in
  ∃ visible_text middle,
    URLSearchParams_toString
      (URLSearchParams_set (js "products[1][data]") data
         match quantity number options with
         | Some q =>
             if Number_truthy q
             then URLSearchParams_set (js "products[1][qty]") (Number_toString q)
                    with_id
             else with_id
         | None => with_id
         end)
    = visible_text
      ++ js "&products%5B1%5D%5Bid%5D="
      ++ urlencode (Z_toString (SKU_TO_PAYPRO_ID (sku number options)))
      ++ middle
      ++ js "&products%5B1%5D%5Bdata%5D=" ++ urlencode data.
Proof.
  intros visible with_id. exists (URLSearchParams_toString visible).
  apply checkout_query_text.
  - subst visible. repeat apply set_if_truthy_nonempty.
    apply URLSearchParams_set_nonempty.
  - subst visible. by rewrite !URLSearchParams_get_set_if_truthy_ne by done.
  - subst visible. by rewrite !URLSearchParams_get_set_if_truthy_ne by done.
  - subst visible. by rewrite !URLSearchParams_get_set_if_truthy_ne by done.
  - destruct (quantity number options) as [q|]; [destruct (Number_truthy q)|];
      eauto.
Qed.

(** With a currency of the list, the cipher is the only thing that runs. *)
Lemma createCheckout_supported_run (options : CheckoutOptions number) w ciphertext :
  let plaintext :=
    URLSearchParams_toString
      [(js "price[" ++ currency number options ++ js "][Amount]",
        Number_toString (price number options))] in
  currency number options ∈ PAYPRO_CURRENCIES →
  AES.encrypt (binary_bytes key) (binary_bytes iv) (binary_bytes plaintext)
    = Some ciphertext →
  ∃ checkoutParams,
    checkout options w
    = (emit (CipherEncrypt plaintext) w,
       Ok (PAYPRO_API_BASE_URL base ++ js "/checkout?"
           ++ URLSearchParams_toString checkoutParams))
    ∧ URLSearchParams_get (js "products[1][data]") checkoutParams
      = Some (encode64 ciphertext)
    ∧ URLSearchParams_get (js "products[1][id]") checkoutParams
      = Some (Z_toString (SKU_TO_PAYPRO_ID (sku number options)))
    ∧ ∃ visible_text middle,
        URLSearchParams_toString checkoutParams
        = visible_text
          ++ js "&products%5B1%5D%5Bid%5D="
          ++ urlencode (Z_toString (SKU_TO_PAYPRO_ID (sku number options)))
          ++ middle
          ++ js "&products%5B1%5D%5Bdata%5D=" ++ urlencode (encode64 ciphertext).
Proof.
  intros plaintext Hcur Henc. subst plaintext. unfold createCheckout.
  rewrite bool_decide_true by done.
  unfold mbind, M_bind, mret, M_ret. rewrite forge_encrypt_run.
  cbn [URLSearchParams_set]. rewrite Henc.
  eexists. split_and!; [reflexivity| | |].
  - apply URLSearchParams_get_set_eq.
  - rewrite URLSearchParams_get_set_ne by done.
    destruct (quantity number options) as [q|]; [destruct (Number_truthy q)|];
      rewrite ?URLSearchParams_get_set_ne by done;
      apply URLSearchParams_get_set_eq.
  - apply final_query_text.
Qed.

(** With a currency outside the list, the price of the request is not
    read. *)
Lemma createCheckout_with_price (options : CheckoutOptions number) p' w :
  currency number options ∉ PAYPRO_CURRENCIES →
  checkout (with_price options p') w = checkout options w.
Proof.
  intros Hcur. destruct options. unfold createCheckout, with_price.
  cbn [currency price sku email quantity countryCode source returnUrl passthrough] in *.
  by rewrite !bool_decide_false by done.
Qed.

Lemma bind_run {A B : Type} (m : M A) (f : A → M B) w :
  (m ≫= f) w
  = match m w with
    | (w', Ok a) => f a w'
    | (w', Throw e) => (w', Throw e)
    end.
Proof. reflexivity. Qed.

(** The sku is read for the [products[1][id]] parameter only: what happens
    and whether the call returns do not depend on it. *)
Lemma createCheckout_with_sku (options : CheckoutOptions number) s w :
  (checkout (with_sku options s) w).1 = (checkout options w).1
  ∧ (returns (checkout (with_sku options s) w).2 ↔ returns (checkout options w).2).
Proof.
  destruct options. unfold createCheckout, with_sku.
  cbn [currency price sku email quantity countryCode source returnUrl passthrough].
  rewrite !bind_run.
  match goal with
  | |- context [(if ?c then ?a else ?b) w] => set (r := (if c then a else b) w)
  end.
  destruct r as [w1 [productParams|e]]; [|done].
  rewrite !bind_run, forge_encrypt_run.
  destruct (AES.encrypt _ _ _); simpl; [|done].
  split; [done|]. unfold returns. split; eauto.
Qed.

Lemma createCheckout_returns (options : CheckoutOptions number) w w' url :
  checkout options w = (w', Ok url) →
  ∃ checkoutParams data,
    url = PAYPRO_API_BASE_URL base ++ js "/checkout?"
          ++ URLSearchParams_toString checkoutParams
    ∧ URLSearchParams_get (js "products[1][id]") checkoutParams
      = Some (Z_toString (SKU_TO_PAYPRO_ID (sku number options)))
    ∧ (∃ visible_text rest,
         URLSearchParams_toString checkoutParams
         = visible_text
           ++ js "&products%5B1%5D%5Bid%5D="
           ++ urlencode (Z_toString (SKU_TO_PAYPRO_ID (sku number options)))
           ++ rest)
    ∧ CipherEncrypt data ∈ trace w'.
Proof.
  unfold createCheckout. rewrite bind_run.
  match goal with
  | |- context [(if ?c then ?a else ?b) w] => set (r := (if c then a else b) w)
  end.
  destruct r as [w1 [productParams|e]]; [|done].
  rewrite bind_run, forge_encrypt_run.
  destruct (AES.encrypt _ _ _) as [ciphertext|]; [|done]. unfold mret, M_ret.
  intros [= <- <-]. eexists _, _. split_and!; [reflexivity| | |]; last first.
  { simpl. apply elem_of_app. right. apply list_elem_of_singleton. reflexivity. }
  { destruct (final_query_text options (encode64 ciphertext))
      as (visible_text & middle & Htext).
    exists visible_text. eexists. exact Htext. }
  - rewrite URLSearchParams_get_set_ne by done.
    destruct (quantity number options) as [q|]; [destruct (Number_truthy q)|];
      rewrite ?URLSearchParams_get_set_ne by done;
      apply URLSearchParams_get_set_eq.
Qed.

Lemma reports_app l l' : reports (l ++ l') = reports l ++ reports l'.
Proof. apply omap_app. Qed.

(** A report of a message: one [console.warn], and the calls of Sentry when
    it is initialised. *)
Lemma reportError_message_run msg w :
  ∃ w', reportError (inr msg) w = (w', Ok tt)
        ∧ sentryInitialized w' = sentryInitialized w
        ∧ (∃ events, trace w' = trace w ++ events
                     ∧ reports events = [inr msg]
                     ∧ existsb network_or_cipher events = false).
Proof.
  unfold reportError, mbind, M_bind, tell, read_sentryInitialized, mret, M_ret.
  simpl. destruct (sentryInitialized w) eqn:Hinit; simpl.
  - eexists. split_and!; [reflexivity|done|].
    exists [ConsoleWarn (inr msg); SentryCaptureMessage msg; SentryFlush].
    simpl. by rewrite <- !app_assoc.
  - eexists. split_and!; [reflexivity|done|].
    by exists [ConsoleWarn (inr msg)].
Qed.

(** With a currency outside the list: one report, the rates of the dollar
    are asked for, and the call fails when they hold no rate for the
    currency. *)
Lemma createCheckout_no_rate (options : CheckoutOptions number) w allUsdRates :
  currency number options ∉ PAYPRO_CURRENCIES →
  latest_rates (js "USD") = Ok allUsdRates →
  match allUsdRates (currency number options) with
  | Some usdRate => rate_truthy usdRate = false
  | None => True
  end →
  ∃ w' events,
    checkout options w
    = (w', Throw (Error (js "Can't show PayPro checkout for currency "
                         ++ currency number options
                         ++ js " with no USD rate available")))
    ∧ trace w' = trace w ++ events ++ [GetLatestRates (js "USD")]
    ∧ reports events
      = [inr (js "Opening unsupported " ++ currency number options
              ++ js " PayPro checkout")]
    ∧ existsb network_or_cipher events = false.
Proof.
  intros Hcur Hrates Hrate. unfold createCheckout.
  rewrite bool_decide_false by done. rewrite !bind_run.
  destruct (reportError_message_run
              (js "Opening unsupported " ++ currency number options
               ++ js " PayPro checkout") w)
    as (w1 & -> & _ & events & Htrace & Hreports & Hquiet).
  unfold getLatestRates. rewrite !bind_run. unfold tell, lift. rewrite Hrates.
  exists (emit (GetLatestRates (js "USD")) w1), events.
  split_and!; [|by simpl; rewrite Htrace, <- app_assoc|done..].
  destruct (allUsdRates (currency number options)) as [usdRate|]; [|done].
  by rewrite Hrate.
Qed.

(** With a currency outside the list and a rate for it: one report, the
    rates are asked for, and the amount that is encrypted is the rate. *)
Lemma createCheckout_rate_run (options : CheckoutOptions number) w
    allUsdRates usdRate ciphertext :
  let plaintext :=
    URLSearchParams_toString [(js "price[USD][Amount]", rate_toString usdRate)] in
  currency number options ∉ PAYPRO_CURRENCIES →
  latest_rates (js "USD") = Ok allUsdRates →
  allUsdRates (currency number options) = Some usdRate →
  rate_truthy usdRate = true →
  AES.encrypt (binary_bytes key) (binary_bytes iv) (binary_bytes plaintext)
    = Some ciphertext →
  ∃ w' events checkoutParams,
    checkout options w
    = (w', Ok (PAYPRO_API_BASE_URL base ++ js "/checkout?"
               ++ URLSearchParams_toString checkoutParams))
    ∧ URLSearchParams_get (js "products[1][data]") checkoutParams
      = Some (encode64 ciphertext)
    ∧ trace w' = trace w ++ events
                 ++ [GetLatestRates (js "USD"); CipherEncrypt plaintext]
    ∧ reports events
      = [inr (js "Opening unsupported " ++ currency number options
              ++ js " PayPro checkout")]
    ∧ existsb network_or_cipher events = false.
Proof.
  intros plaintext Hcur Hrates Hrate Htruthy Henc. subst plaintext.
  unfold createCheckout.
  rewrite bool_decide_false by done. rewrite !bind_run.
  destruct (reportError_message_run
              (js "Opening unsupported " ++ currency number options
               ++ js " PayPro checkout") w)
    as (w1 & -> & _ & events & Htrace & Hreports & Hquiet).
  unfold getLatestRates. rewrite !bind_run. unfold tell, lift.
  rewrite Hrates, Hrate, Htruthy. unfold mret, M_ret.
  eexists _, events, _. split_and!; [| | |done..].
  - rewrite ?bind_run, forge_encrypt_run. cbn [URLSearchParams_set].
    rewrite Henc. reflexivity.
  - apply URLSearchParams_get_set_eq.
  - simpl. rewrite Htrace. by rewrite <- !app_assoc.
Qed.
End CheckoutProperties.

(** C4: for a request with a supported sku and a currency of the
    provider's list, and a key and vector the cipher takes, [createCheckout]
    returns a URL whose [products[1][data]] parameter is the base64 form of
    the AES-CBC ciphertext of the plaintext that holds the one pair
    [price[<currency>][Amount]] = [<price>] of the request, in its
    form-encoded serialization; nothing is reported and no rate is asked
    for. *)
Theorem createCheckout_supported_currency
    (number : Type) (Number_toString : number → jsstring)
    (Number_truthy : number → bool)
    (rate : Type) (rate_toString : rate → jsstring) (rate_truthy : rate → bool)
    (base : option jsstring) (key iv : jsstring)
    (latest_rates : jsstring → result (jsstring → option rate))
    (options : CheckoutOptions number) (w : world) :
  SKU_TO_PAYPRO_ID (sku number options) ≠ (-1)%Z →
  currency number options ∈ PAYPRO_CURRENCIES →
  cipher_accepts key iv →
  let productParams :=
    [(js "price[" ++ currency number options ++ js "][Amount]",
      Number_toString (price number options))] in
  let plaintext := URLSearchParams_toString productParams in
  ∃ ciphertext checkoutParams,
    AES.encrypt (binary_bytes key) (binary_bytes iv) (binary_bytes plaintext)
      = Some ciphertext
    ∧ createCheckout number Number_toString Number_truthy rate rate_toString
        rate_truthy base key iv latest_rates options w
      = (emit (CipherEncrypt plaintext) w,
         Ok (PAYPRO_API_BASE_URL base ++ js "/checkout?"
             ++ URLSearchParams_toString checkoutParams))
    ∧ URLSearchParams_get (js "products[1][data]") checkoutParams
      = Some (encode64 ciphertext)
    ∧ (∃ query,
         URLSearchParams_toString checkoutParams
         = query ++ js "&products%5B1%5D%5Bdata%5D="
           ++ urlencode (encode64 ciphertext))
    ∧ URLSearchParams_get
        (js "price[" ++ currency number options ++ js "][Amount]") productParams
      = Some (Number_toString (price number options))
    ∧ plaintext
      = js "price%5B" ++ currency number options ++ js "%5D%5BAmount%5D="
        ++ urlencode (Number_toString (price number options)).
Proof.
  intros _ Hcur Haccepts productParams plaintext.
  destruct (encrypt_accepts key iv (binary_bytes plaintext) Haccepts)
    as [ciphertext Henc].
  destruct (createCheckout_supported_run number Number_toString Number_truthy
              rate rate_toString rate_truthy base key iv latest_rates
              options w ciphertext Hcur Henc)
    as (checkoutParams & Hrun & Hdata & _ & visible & middle & Htext).
  exists ciphertext, checkoutParams. split_and!; [done..| | |].
  - eexists. rewrite Htext. by rewrite !app_assoc.
  - subst productParams. simpl. by rewrite bool_decide_true.
  - subst plaintext productParams. unfold URLSearchParams_toString.
    cbn [map join_with fst snd]. rewrite urlencode_price_key by done.
    rewrite <- !app_assoc. do 2 f_equal.
Qed.

Lemma createCheckout_supported_currency_witness :
  ∃ url,
    example_createCheckout lek_rates euro_checkout initial_world
    = ({| sentryInitialized := true;
          trace := [CipherEncrypt (js "price%5BEUR%5D%5BAmount%5D=14")] |},
       Ok url).
Proof.
  destruct (createCheckout_supported_currency Z Z_toString Z_truthy Z Z_toString
              Z_truthy None example_key example_iv lek_rates euro_checkout
              initial_world)
    as (ciphertext & checkoutParams & _ & Hrun & _).
  - vm_compute. discriminate.
  - refine (bool_decide_unpack _ _). vm_compute. reflexivity.
  - split_and!; [| |left; reflexivity|vm_compute; lia];
      refine (bool_decide_unpack _ _); vm_compute; reflexivity.
  - eexists. unfold example_createCheckout. rewrite Hrun. reflexivity.
Defined.

(** C2 (what the code does): for a request whose currency is outside the
    provider's list, with a rate for it and a key and vector the cipher
    takes, [createCheckout] reports the error once, asks the collaborator
    for the rates of the dollar, and returns a URL whose encrypted plaintext
    prices in USD; the amount in it is the rate itself, and the price of the
    request is not read: another price gives the same result. *)
Theorem createCheckout_unsupported_currency
    (number : Type) (Number_toString : number → jsstring)
    (Number_truthy : number → bool)
    (rate : Type) (rate_toString : rate → jsstring) (rate_truthy : rate → bool)
    (base : option jsstring) (key iv : jsstring)
    (latest_rates : jsstring → result (jsstring → option rate))
    (options : CheckoutOptions number) (w : world)
    (allUsdRates : jsstring → option rate) (usdRate : rate) :
  currency number options ∉ PAYPRO_CURRENCIES →
  latest_rates (js "USD") = Ok allUsdRates →
  allUsdRates (currency number options) = Some usdRate →
  rate_truthy usdRate = true →
  cipher_accepts key iv →
  let checkout :=
    createCheckout number Number_toString Number_truthy rate rate_toString
      rate_truthy base key iv latest_rates in
  let plaintext :=
    URLSearchParams_toString [(js "price[USD][Amount]", rate_toString usdRate)] in
  ∃ w' events ciphertext checkoutParams,
    checkout options w
    = (w', Ok (PAYPRO_API_BASE_URL base ++ js "/checkout?"
               ++ URLSearchParams_toString checkoutParams))
    ∧ AES.encrypt (binary_bytes key) (binary_bytes iv) (binary_bytes plaintext)
      = Some ciphertext
    ∧ URLSearchParams_get (js "products[1][data]") checkoutParams
      = Some (encode64 ciphertext)
    ∧ trace w' = trace w ++ events
                 ++ [GetLatestRates (js "USD"); CipherEncrypt plaintext]
    ∧ reports events
      = [inr (js "Opening unsupported " ++ currency number options
              ++ js " PayPro checkout")]
    ∧ existsb network_or_cipher events = false
    ∧ ∀ other_price, checkout (with_price options other_price) w = checkout options w.
Proof.
  intros Hcur Hrates Hrate Htruthy Haccepts checkout plaintext.
  destruct (encrypt_accepts key iv (binary_bytes plaintext) Haccepts)
    as [ciphertext Henc].
  destruct (createCheckout_rate_run number Number_toString Number_truthy
              rate rate_toString rate_truthy base key iv latest_rates
              options w allUsdRates usdRate ciphertext Hcur Hrates Hrate
              Htruthy Henc)
    as (w' & events & checkoutParams & Hrun & Hdata & Htrace & Hreports & Hquiet).
  exists w', events, ciphertext, checkoutParams. split_and!; try done.
  intros other_price. by apply createCheckout_with_price.
Qed.

Lemma lek_not_listed : js "ALL" ∉ PAYPRO_CURRENCIES.
Proof. refine (bool_decide_unpack _ _). vm_compute. reflexivity. Qed.

Lemma example_cipher_accepts : cipher_accepts example_key example_iv.
Proof.
  split_and!; [| |left; reflexivity|vm_compute; lia];
    refine (bool_decide_unpack _ _); vm_compute; reflexivity.
Qed.

(** 500 lek at 100 lek to the dollar: the amount encrypted is 100, the
    rate, and so it is for 5 lek. *)
Lemma createCheckout_unsupported_currency_witness :
  (∃ w' url,
     example_createCheckout lek_rates lek_checkout initial_world = (w', Ok url)
     ∧ trace w'
       = [ConsoleWarn (inr (js "Opening unsupported ALL PayPro checkout"));
          SentryCaptureMessage (js "Opening unsupported ALL PayPro checkout");
          SentryFlush;
          GetLatestRates (js "USD");
          CipherEncrypt (js "price%5BUSD%5D%5BAmount%5D=100")])
  ∧ example_createCheckout lek_rates (with_price lek_checkout 5%Z) initial_world
    = example_createCheckout lek_rates lek_checkout initial_world.
Proof.
  destruct (createCheckout_unsupported_currency Z Z_toString Z_truthy Z Z_toString
              Z_truthy None example_key example_iv lek_rates lek_checkout
              initial_world
              (fun c => if bool_decide (c = js "ALL") then Some 100%Z else None)
              100%Z lek_not_listed eq_refl eq_refl eq_refl example_cipher_accepts)
    as (w' & events & ciphertext & checkoutParams & Hrun & _ & _ & Htrace & _ & _
        & Hprice).
  split; [|apply Hprice].
  exists w'. eexists. split; [exact Hrun|].
  replace w' with (example_createCheckout lek_rates lek_checkout initial_world).1.
  - vm_compute. reflexivity.
  - unfold example_createCheckout. by rewrite Hrun.
Defined.

(** C3: the code breaks the claim. With the unsupported sku
    [pro-perpetual], the one whose product id is the [-1] that the source
    marks as not supported, the call throws nothing: it returns a URL, and
    the cipher has run. *)
Lemma createCheckout_pro_perpetual_not_rejected :
  let outcome :=
    example_createCheckout lek_rates (with_sku euro_checkout pro_perpetual)
      initial_world in
  SKU_TO_PAYPRO_ID (sku Z (with_sku euro_checkout pro_perpetual)) = (-1)%Z
  ∧ (¬ ∃ e, outcome.2 = Throw e)
  ∧ (∃ url, outcome.2 = Ok url)
  ∧ existsb network_or_cipher (trace outcome.1) = true.
Proof.
  intros outcome.
  destruct (createCheckout_supported_run Z Z_toString Z_truthy Z Z_toString
              Z_truthy None example_key example_iv lek_rates
              (with_sku euro_checkout pro_perpetual) initial_world)
    with (ciphertext :=
            default [] (AES.encrypt (binary_bytes example_key)
                          (binary_bytes example_iv)
                          (binary_bytes (js "price%5BEUR%5D%5BAmount%5D=14"))))
    as (checkoutParams & Hrun & _).
  { refine (bool_decide_unpack _ _). vm_compute. reflexivity. }
  { vm_compute. reflexivity. }
  subst outcome. unfold example_createCheckout. rewrite Hrun.
  split_and!; [done| |by eexists|done].
  intros [e He]. discriminate He.
Qed.

(** The same for every request: the sku is not checked, though the source
    marks the product id [-1] as not supported. For a request with the
    unsupported sku, what [createCheckout] does and whether it returns are
    the same as for any other sku; when it returns, the cipher has run and
    the URL carries [-1] as [products[1][id]]. *)
Theorem createCheckout_unsupported_sku
    (number : Type) (Number_toString : number → jsstring)
    (Number_truthy : number → bool)
    (rate : Type) (rate_toString : rate → jsstring) (rate_truthy : rate → bool)
    (base : option jsstring) (key iv : jsstring)
    (latest_rates : jsstring → result (jsstring → option rate))
    (options : CheckoutOptions number) (w : world) :
  SKU_TO_PAYPRO_ID (sku number options) = (-1)%Z →
  let checkout :=
    createCheckout number Number_toString Number_truthy rate rate_toString
      rate_truthy base key iv latest_rates in
  (∀ s, (checkout (with_sku options s) w).1 = (checkout options w).1
        ∧ (returns (checkout (with_sku options s) w).2
           ↔ returns (checkout options w).2))
  ∧ (∀ w' url,
       checkout options w = (w', Ok url) →
       ∃ checkoutParams data,
         url = PAYPRO_API_BASE_URL base ++ js "/checkout?"
               ++ URLSearchParams_toString checkoutParams
         ∧ URLSearchParams_get (js "products[1][id]") checkoutParams
           = Some (js "-1")
         ∧ contains url (js "&products%5B1%5D%5Bid%5D=-1")
         ∧ CipherEncrypt data ∈ trace w').
Proof.
  intros Hsku checkout. split.
  - intros s. apply createCheckout_with_sku.
  - intros w' url Hrun.
    destruct (createCheckout_returns number Number_toString Number_truthy
                rate rate_toString rate_truthy base key iv latest_rates
                options w w' url Hrun)
      as (checkoutParams & data & Hurl & Hid & (visible & rest & Htext) & Hcipher).
    exists checkoutParams, data. split_and!; [done| | |done].
    + by rewrite Hid, Hsku.
    + rewrite Hurl, Htext, Hsku.
      exists (PAYPRO_API_BASE_URL base ++ js "/checkout?" ++ visible), rest.
      by rewrite <- !app_assoc.
Qed.

Lemma createCheckout_unsupported_sku_witness :
  ∃ w' url checkoutParams,
    example_createCheckout lek_rates (with_sku euro_checkout pro_perpetual)
      initial_world = (w', Ok url)
    ∧ url = js "https://store.payproglobal.com/checkout?"
            ++ URLSearchParams_toString checkoutParams
    ∧ URLSearchParams_get (js "products[1][id]") checkoutParams = Some (js "-1").
Proof.
  pose proof (createCheckout_unsupported_sku Z Z_toString Z_truthy Z Z_toString
                Z_truthy None example_key example_iv lek_rates
                (with_sku euro_checkout pro_perpetual) initial_world eq_refl)
    as [_ Hreturns].
  destruct (example_createCheckout lek_rates (with_sku euro_checkout pro_perpetual)
              initial_world) as [w' [url|e]] eqn:Hrun.
  - destruct (Hreturns w' url Hrun) as (checkoutParams & data & Hurl & Hid & _).
    by exists w', url, checkoutParams.
  - vm_compute in Hrun. discriminate Hrun.
Defined.

(** ** The cipher and its inverse *)

Module AESProperties.
Import AES.

#[local] Arguments xor8 : simpl never.
#[local] Arguments sbox : simpl never.
#[local] Arguments inv_sbox : simpl never.

(** The eight bits of a byte, and the sixteen bytes of a state. *)
Ltac bits a := destruct a as [? [? [? [? [? [? [? ?]]]]]]].
Ltac sixteen st :=
  destruct st as [[[[[[? ?] ?] ?] [[[? ?] ?] ?]] [[[? ?] ?] ?]] [[[? ?] ?] ?]].

Lemma xor8_cancel a b : xor8 (xor8 a b) b = a.
Proof.
  bits a; bits b. unfold xor8.
  by rewrite !xorb_assoc, !xorb_nilpotent, !xorb_false_r.
Qed.

Lemma inv_sbox_sbox b : inv_sbox (sbox b) = b.
Proof.
  destruct b as [[] [[] [[] [[] [[] [[] [[] []]]]]]]]; vm_compute; reflexivity.
Qed.

Lemma inv_mix_col_mix_col c : inv_mix_col (mix_col c) = c.
Proof.
  destruct c as [[[a0 a1] a2] a3]. bits a0; bits a1; bits a2; bits a3.
  unfold inv_mix_col, mix_col, mul2, mul3, mul9, mul11, mul13, mul14, xtime, xor8.
  repeat f_equal; btauto.
Qed.

Lemma xor_state_cancel s k : xor_state (xor_state s k) k = s.
Proof.
  sixteen s; sixteen k.
  simpl. by rewrite !xor8_cancel.
Qed.

Lemma AddRoundKey_cancel k s : AddRoundKey k (AddRoundKey k s) = s.
Proof. apply xor_state_cancel. Qed.

Lemma InvSubBytes_SubBytes s : InvSubBytes (SubBytes s) = s.
Proof.
  sixteen s.
  simpl. by rewrite !inv_sbox_sbox.
Qed.

Lemma InvShiftRows_ShiftRows s : InvShiftRows (ShiftRows s) = s.
Proof.
  by sixteen s.
Qed.

Lemma InvMixColumns_MixColumns s : InvMixColumns (MixColumns s) = s.
Proof.
  destruct s as [[[c0 c1] c2] c3]. simpl. by rewrite !inv_mix_col_mix_col.
Qed.

Lemma inv_rounds_rounds rks s : inv_rounds rks (rounds rks s) = s.
Proof.
  revert s. induction rks as [|k [|k' rest] IH]; intros s; [done| |].
  - simpl. by rewrite AddRoundKey_cancel, InvShiftRows_ShiftRows, InvSubBytes_SubBytes.
  - change (rounds (k :: k' :: rest) s)
      with (rounds (k' :: rest) (AddRoundKey k (MixColumns (ShiftRows (SubBytes s))))).
    change (inv_rounds (k :: k' :: rest) ?x)
      with (InvSubBytes (InvShiftRows (InvMixColumns
              (AddRoundKey k (inv_rounds (k' :: rest) x))))).
    by rewrite IH, AddRoundKey_cancel, InvMixColumns_MixColumns,
      InvShiftRows_ShiftRows, InvSubBytes_SubBytes.
Qed.

(** The inverse cipher undoes the cipher, under any round keys. *)
Lemma inv_cipher_cipher rks s : inv_cipher rks (cipher rks s) = s.
Proof.
  destruct rks as [|k0 rest]; [done|]. simpl.
  by rewrite inv_rounds_rounds, AddRoundKey_cancel.
Qed.

Lemma cbc_decrypt_encrypt rks prev ps :
  cbc_decrypt rks prev (cbc_encrypt rks prev ps) = ps.
Proof.
  revert prev. induction ps as [|p ps IH]; intros prev; [done|].
  simpl. by rewrite inv_cipher_cipher, xor_state_cancel, IH.
Qed.
Lemma to_N_byte_of_N c : (c < 256)%N → Byte.to_N (byte_of_N c) = c.
Proof.
  intros Hc. unfold byte_of_N. rewrite N.mod_small by done.
  destruct (Byte.of_N c) as [b|] eqn:E; [by apply Byte.to_of_N|].
  apply Byte.of_N_None_iff in E. lia.
Qed.

Lemma length_state_bytes s : length (state_bytes s) = 16.
Proof.
  by sixteen s.
Qed.

Lemma length_unblocks l : length (unblocks l) = 16 * length l.
Proof.
  induction l as [|s l IH]; [done|].
  unfold unblocks in *. simpl. rewrite length_app, length_state_bytes, IH. lia.
Qed.

Lemma blocks_unblocks l : blocks (unblocks l) = l.
Proof.
  induction l as [|s l IH]; [done|].
  sixteen s.
  unfold blocks, unblocks in *. simpl. rewrite !Byte.to_bits_of_bits.
  by rewrite IH.
Qed.

Lemma unblocks_blocks n l : length l = 16 * n → unblocks (blocks l) = l.
Proof.
  revert l. induction n as [|n IH]; intros l Hlen.
  - by destruct l.
  - do 16 (destruct l as [|? l]; [simpl in Hlen; lia|]).
    unfold blocks, unblocks in *. simpl. rewrite !Byte.of_bits_to_bits.
    do 16 f_equal. apply IH. simpl in Hlen. lia.
Qed.

Lemma length_pad l : ∃ n, length (pad l) = 16 * n.
Proof.
  exists (S (length l / 16)). unfold pad. rewrite length_app, repeat_length.
  pose proof (Nat.div_mod_eq (length l) 16).
  pose proof (Nat.mod_upper_bound (length l) 16). lia.
Qed.

Lemma unpad_pad l : unpad (pad l) = Some l.
Proof.
  unfold unpad, pad.
  pose proof (Nat.mod_upper_bound (length l) 16) as Hmod.
  set (n := 16 - length l mod 16).
  assert (1 ≤ n ≤ 16) as Hn by (subst n; lia).
  assert (N.to_nat (Byte.to_N (byte_of_N (N.of_nat n))) = n) as Hcount.
  { rewrite to_N_byte_of_N by lia. lia. }
  clearbody n. remember (byte_of_N (N.of_nat n)) as b eqn:Hb.
  assert (last (l ++ repeat b n) = Some b) as ->.
  { destruct n as [|m]; [lia|]. cbn [repeat].
    by rewrite repeat_cons, app_assoc, last_snoc. }
  rewrite Hcount, bool_decide_true by lia.
  rewrite length_app, repeat_length.
  replace (length l + n - n) with (length l) by lia.
  by rewrite take_app_length.
Qed.

(** Decryption undoes encryption, for every key and vector the cipher
    takes and every sequence of bytes. *)
Lemma decrypt_encrypt key iv data ciphertext :
  encrypt key iv data = Some ciphertext →
  decrypt key iv ciphertext = Some data.
Proof.
  unfold encrypt, decrypt.
  destruct (round_keys _) as [rks|]; [|done].
  destruct (iv_block iv) as [iv0|]; [|done].
  intros [= <-].
  rewrite length_unblocks.
  rewrite bool_decide_true by (by rewrite Nat.mul_comm, Nat.Div0.mod_mul).
  rewrite blocks_unblocks, cbc_decrypt_encrypt.
  destruct (length_pad data) as [n Hn].
  rewrite (unblocks_blocks n) by done. apply unpad_pad.
Qed.
End AESProperties.

Lemma binary_bytes_to_N (s : jsstring) :
  binary s → map Byte.to_N (binary_bytes s) = s.
Proof.
  unfold binary_bytes. induction 1 as [|c s Hc _ IH]; simpl; [done|].
  by rewrite AESProperties.to_N_byte_of_N, IH.
Qed.

Lemma urlencode_byte_below_128 b : Forall (fun c => (c < 128)%N) (urlencode_byte b).
Proof. destruct b; vm_compute; repeat constructor. Qed.

Lemma urlencode_below_128 s : Forall (fun c => (c < 128)%N) (urlencode s).
Proof.
  unfold urlencode. apply Forall_concat, Forall_fmap, Forall_forall.
  intros b _. apply urlencode_byte_below_128.
Qed.

(** C8: under a key and vector the cipher takes, decrypting what was
    encrypted gives back the exact string that was encrypted, for every
    string of code units below 256 (printable ASCII among them), and so for
    the product-parameter plaintext of every currency and amount. *)
Theorem product_params_round_trip (key iv : jsstring) :
  cipher_accepts key iv →
  (∀ plaintext : jsstring,
     binary plaintext →
     ∃ ciphertext,
       AES.encrypt (binary_bytes key) (binary_bytes iv) (binary_bytes plaintext)
         = Some ciphertext
       ∧ binary_string <$> AES.decrypt (binary_bytes key) (binary_bytes iv) ciphertext
         = Some plaintext)
  ∧ (∀ currency amount : jsstring,
       let plaintext :=
         URLSearchParams_toString
           [(js "price[" ++ currency ++ js "][Amount]", amount)] in
       ∃ ciphertext,
         AES.encrypt (binary_bytes key) (binary_bytes iv) (binary_bytes plaintext)
           = Some ciphertext
         ∧ binary_string <$> AES.decrypt (binary_bytes key) (binary_bytes iv) ciphertext
           = Some plaintext).
Proof.
  intros Haccepts.
  assert (∀ plaintext : jsstring,
            binary plaintext →
            ∃ ciphertext,
              AES.encrypt (binary_bytes key) (binary_bytes iv) (binary_bytes plaintext)
                = Some ciphertext
              ∧ binary_string <$> AES.decrypt (binary_bytes key) (binary_bytes iv) ciphertext
                = Some plaintext) as Hround.
  { intros plaintext Hbytes.
    destruct (encrypt_accepts key iv (binary_bytes plaintext) Haccepts)
      as [ciphertext Henc].
    exists ciphertext. split; [done|].
    rewrite (AESProperties.decrypt_encrypt _ _ _ _ Henc). simpl.
    unfold binary_string. by rewrite binary_bytes_to_N. }
  split; [done|].
  intros currency amount plaintext. apply Hround.
  subst plaintext. unfold URLSearchParams_toString. cbn [map join_with fst snd].
  unfold binary. rewrite !Forall_app. split_and!.
  - eapply Forall_impl; [apply urlencode_below_128|]. simpl. lia.
  - repeat constructor.
  - eapply Forall_impl; [apply urlencode_below_128|]. simpl. lia.
Qed.

Lemma product_params_round_trip_witness :
  ∃ ciphertext,
    AES.encrypt (binary_bytes example_key) (binary_bytes example_iv)
      (binary_bytes (js "price%5BEUR%5D%5BAmount%5D=14")) = Some ciphertext
    ∧ binary_string
        <$> AES.decrypt (binary_bytes example_key) (binary_bytes example_iv) ciphertext
      = Some (js "price%5BEUR%5D%5BAmount%5D=14").
Proof.
  exact (proj2 (product_params_round_trip example_key example_iv
                  example_cipher_accepts) (js "EUR") (js "14")).
Defined.

(** The cipher on the vector of FIPS 197, appendix C.1, and the whole
    encryption on a product-parameter plaintext, as OpenSSL computes it. *)
Example aes_fips197_c1 :
  match
    AES.round_keys
      (map Byte.to_bits
         (map byte_of_N [0; 1; 2; 3; 4; 5; 6; 7; 8; 9; 10; 11; 12; 13; 14; 15]%N)),
    head (AES.blocks
            (map byte_of_N
               [0x00; 0x11; 0x22; 0x33; 0x44; 0x55; 0x66; 0x77;
                0x88; 0x99; 0xaa; 0xbb; 0xcc; 0xdd; 0xee; 0xff]%N))
  with
  | Some rks, Some s => Some (binary_string (AES.state_bytes (AES.cipher rks s)))
  | _, _ => None
  end
  = Some [0x69; 0xc4; 0xe0; 0xd8; 0x6a; 0x7b; 0x04; 0x30;
          0xd8; 0xcd; 0xb7; 0x80; 0x70; 0xb4; 0xc5; 0x5a]%N.
Proof. vm_compute. reflexivity. Qed.

Example aes_cbc_base64 :
  encode64
    <$> AES.encrypt
          (map byte_of_N [0; 1; 2; 3; 4; 5; 6; 7; 8; 9; 10; 11; 12; 13; 14; 15]%N)
          (map byte_of_N [16; 17; 18; 19; 20; 21; 22; 23; 24; 25; 26; 27; 28; 29; 30; 31]%N)
          (binary_bytes (js "price%5BEUR%5D%5BAmount%5D=14"))
  = Some (js "QQId0IjOZqFcbY8XWwi7cvJpGVZeksZwb5fyRCMql24=").
Proof. vm_compute. reflexivity. Qed.

(** * Further properties *)

(** ** The custom fields: from text and back *)

Lemma has_marker_spec v :
  has_marker v = false ↔ ∀ pre t, v = pre ++ t → ¬ marker_follows t.
Proof.
  induction v as [|c v IH].
  - split; [|done]. intros _ pre t Heq. symmetry in Heq.
    apply app_eq_nil in Heq as [_ ->]. rewrite <- at_marker_spec. done.
  - cbn [has_marker]. split.
    + intros [Hhere Hlater]%orb_false_iff [|c' pre] t Heq.
      * simpl in Heq. subst t. rewrite <- at_marker_spec. by rewrite Hhere.
      * injection Heq as <- ->. by eapply (proj1 IH).
    + intros H. apply orb_false_iff. split.
      * apply not_true_is_false. rewrite at_marker_spec. by apply (H []).
      * apply IH. intros pre t ->. by apply (H (c :: pre)).
Qed.

Lemma field_starts_x c t : field_starts (c :: t) → c = chr "x".
Proof. by intros (k & v & r & [= -> _] & _). Qed.

(** A code unit in front of the text, at which no field starts, does not
    change the fields. *)
Lemma scan_skip c t fs : ¬ field_starts (c :: t) → scan t fs → scan (c :: t) fs.
Proof.
  intros Hc Hscan. destruct Hscan as [t Hno|t pre k v rest fs Hleft -> Hm Hscan].
  - apply scan_done. intros [|c' pre] u Heq; simplify_eq/=; [done|]. by eapply Hno.
  - apply (scan_field _ (c :: pre) k v rest fs); [|done|done|done].
    intros [|c' pre1] pre2 u Hpre Hne Heq; simplify_eq/=; [done|].
    by eapply Hleft.
Qed.

Lemma marker_follows_inv t :
  marker_follows t → ∃ c t', t = chr "," :: chr "x" :: chr "-" :: c :: t'
                            ∧ is_word_char c = true.
Proof. intros (c & t' & -> & Hc). by exists c, t'. Qed.

(** The value of a plain field ends where the text ends or the next field
    is announced, and nowhere before. *)
Lemma plain_field_match k v r :
  plain_field (k, v) →
  r = [] ∨ (marker_follows r) →
  field_match (js "x-" ++ k ++ js "=" ++ v ++ r) k v r.
Proof.
  intros (Hne & Hw & Hline & Hfree) Hr. simpl in *.
  split_and!; [done..|].
  intros v1 v2 -> Hv2 [Hnil|Hm]; [by destruct v2|].
  rewrite has_marker_spec in Hfree.
  apply marker_follows_inv in Hm as (c & t' & Heq & Hc).
  assert (r = [] ∨ ∃ r', r = chr "," :: r') as Hr'.
  { destruct Hr as [|Hr]; [by left|right].
    apply marker_follows_inv in Hr as (? & ? & -> & _). eauto. }
  destruct v2 as [|a [|b [|d [|e v2]]]]; simplify_eq/=.
  - destruct Hr' as [|[? ?]]; simplify_eq.
  - destruct Hr' as [|[? ?]]; simplify_eq.
  - destruct Hr' as [|[? ?]]; simplify_eq.
  - eapply (Hfree v1); [done|]. by exists c, v2.
Qed.

Lemma custom_fields_text_cons k v (fs : list (jsstring * jsstring)) :
  custom_fields_text ((k, v) :: fs)
  = js "x-" ++ k ++ js "=" ++ v
    ++ match fs with
       | [] => []
       | _ :: _ => js "," ++ custom_fields_text fs
       end.
Proof.
  unfold custom_fields_text. destruct fs as [|f fs].
  - simpl. by rewrite !app_nil_r.
  - cbn [map join_with fst snd]. by rewrite <- !app_assoc.
Qed.

Lemma custom_fields_text_marker f (fs : list (jsstring * jsstring)) :
  plain_field f → marker_follows (js "," ++ custom_fields_text (f :: fs)).
Proof.
  destruct f as [k v]. intros (Hne & Hw & _). simpl in *.
  rewrite custom_fields_text_cons.
  destruct k as [|c k]; [done|]. inversion_clear Hw as [|?? Hc _].
  eexists c, _. split; [|done]. reflexivity.
Qed.

(** The fields of the text of plain fields are these fields. *)
Lemma scan_custom_fields_text (fs : list (jsstring * jsstring)) :
  Forall plain_field fs → scan (custom_fields_text fs) fs.
Proof.
  induction 1 as [|[k v] fs Hf Hfs IH].
  - apply scan_done. intros pre u Heq. symmetry in Heq.
    apply app_eq_nil in Heq as [_ ->]. by intros (k & v & r & [=] & _).
  - rewrite custom_fields_text_cons.
    set (r := match fs with [] => [] | _ :: _ => js "," ++ custom_fields_text fs end).
    apply (scan_field _ [] k v r fs).
    + intros pre1 pre2 u Heq Hne. by destruct pre1, pre2.
    + done.
    + apply plain_field_match; [done|]. subst r.
      destruct Hfs as [|f fs Hf' _]; [by left|right].
      by apply custom_fields_text_marker.
    + subst r. destruct fs as [|f fs]; [done|].
      apply scan_skip; [|done]. intros Hx. by apply field_starts_x in Hx.
Qed.

(** X1: the parser reads back the fields of a text [x-k=v,x-k=v,...] whose
    names are words and whose values are on one line and hold no marker
    (commas and equals signs are fine): the result maps each name to the
    value of its last field, and has no other key. *)
Theorem parsePayProCustomFields_custom_fields_text
    (fs : list (jsstring * jsstring)) :
  Forall plain_field fs →
  ∃ result,
    parsePayProCustomFields (custom_fields_text fs) = Some result
    ∧ (∀ k, k ≠ js "__proto__" → result !! k = last_value k fs)
    ∧ result !! js "__proto__" = None.
Proof.
  intros Hfs. apply scan_custom_fields_text in Hfs.
  destruct (parsePayProCustomFields_scan (custom_fields_text fs))
    as (fs' & Hscan & Hparse).
  assert (fs' = fs) as -> by by eapply scan_deterministic.
  exists (fields_object fs). split; [done|].
  unfold fields_object. split.
  - intros k Hk. rewrite foldl_obj_set_lookup, lookup_empty.
    rewrite bool_decide_false by done. by destruct (last_value k fs).
  - rewrite foldl_obj_set_lookup, lookup_empty.
    by destruct (last_value _ fs).
Qed.

Lemma parsePayProCustomFields_custom_fields_text_witness :
  Forall plain_field example_fields
  ∧ ∃ result,
      parsePayProCustomFields (custom_fields_text example_fields) = Some result
      ∧ (∀ k, k ≠ js "__proto__" → result !! k = last_value k example_fields)
      ∧ result !! js "__proto__" = None.
Proof.
  assert (Forall plain_field example_fields) as Hplain.
  { repeat (constructor;
            [split_and!; [done|vm_compute; repeat constructor..|vm_compute; reflexivity]|]).
    constructor. }
  split; [exact Hplain|].
  exact (parsePayProCustomFields_custom_fields_text example_fields Hplain).
Defined.

(** X2: whatever the input, a key of the result is a word, never empty and
    never [__proto__], and a value holds no line terminator. A name with a
    hyphen is no key: the return URL that [createCheckout] sends as
    [x-return-url] does not come back as [return-url]. *)
Theorem parsePayProCustomFields_keys (s : jsstring) :
  ∃ result,
    parsePayProCustomFields s = Some result
    ∧ (∀ k v, result !! k = Some v →
              k ≠ [] ∧ word k ∧ k ≠ js "__proto__" ∧ one_line v)
    ∧ result !! js "return-url" = None.
Proof.
  destruct (parsePayProCustomFields_scan s) as (fs & Hscan & Hparse).
  exists (fields_object fs). split; [done|].
  assert (∀ k v, fields_object fs !! k = Some v →
                 k ≠ [] ∧ word k ∧ k ≠ js "__proto__" ∧ one_line v) as Hkeys.
  { intros k v. unfold fields_object.
    rewrite foldl_obj_set_lookup, lookup_empty.
    destruct (last_value k fs) as [v'|] eqn:Hlast; [|done].
    case_bool_decide as Hproto; [done|]. intros [= ->].
    apply last_value_elem in Hlast.
    destruct (scan_entry _ _ _ _ Hscan Hlast) as (pre & rest & _ & Hm).
    destruct Hm as (_ & Hne & Hw & Hline & _). done. }
  split; [done|].
  destruct (fields_object fs !! js "return-url") as [v|] eqn:Hv; [|done].
  apply Hkeys in Hv as (_ & Hw & _).
  unfold word in Hw. rewrite Forall_forall in Hw.
  specialize (Hw (chr "-")). discriminate Hw.
  vm_compute. do 6 right. by left.
Qed.

(** ** The signature of a notification, as text *)

Module SHA256Properties.
Import SHA256.

Lemma length_round st kw : length (round st kw) = length st.
Proof. do 9 (destruct st as [|? st]; [done|]). done. Qed.

Lemma length_fold_round l h : length (fold_left round l h) = length h.
Proof.
  revert h. induction l as [|kw l IH]; intros h; [done|].
  simpl. by rewrite IH, length_round.
Qed.

Lemma length_compress h block : length (compress h block) = length h.
Proof.
  unfold compress. rewrite length_zip_with, length_fold_round. lia.
Qed.

Lemma length_fold_compress blocks h :
  length (fold_left compress blocks h) = length h.
Proof.
  revert h. induction blocks as [|b blocks IH]; intros h; [done|].
  simpl. by rewrite IH, length_compress.
Qed.

Lemma length_be_bytes n x : length (be_bytes n x) = n.
Proof.
  revert x. induction n as [|n IH]; intros x; [done|].
  simpl. rewrite length_app, IH. simpl. lia.
Qed.

Lemma be_bytes_bytes n x : Forall (fun b => (b < 256)%N) (be_bytes n x).
Proof.
  revert x. induction n as [|n IH]; intros x; simpl; [constructor|].
  apply Forall_app. split; [apply IH|].
  constructor; [|constructor]. by apply N.mod_lt.
Qed.

Lemma length_digest msg : length (digest msg) = 32.
Proof.
  unfold digest. set (h := fold_left compress _ _).
  assert (length h = 8) as Hh by apply length_fold_compress.
  clearbody h. do 9 (destruct h as [|? h]; [done|]). done.
Qed.

Lemma digest_bytes msg : Forall (fun b => (b < 256)%N) (digest msg).
Proof.
  unfold digest. apply Forall_concat, Forall_forall.
  intros bs (x & -> & _)%list_elem_of_fmap. apply be_bytes_bytes.
Qed.

Lemma hex_digit_lower n : (n < 16)%N → is_lower_hex (hex_digit n) = true.
Proof.
  intros Hn. unfold hex_digit, is_lower_hex.
  destruct (n <? 10)%N eqn:H10.
  - apply N.ltb_lt in H10. apply orb_true_iff. left.
    apply andb_true_iff. split; apply N.leb_le; lia.
  - apply N.ltb_ge in H10. apply orb_true_iff. right.
    apply andb_true_iff. split; apply N.leb_le; lia.
Qed.

Lemma length_hex bs : length (hex bs) = 2 * length bs.
Proof.
  unfold hex. induction bs as [|b bs IH]; [done|].
  cbn [map concat]. rewrite length_app, IH. simpl. lia.
Qed.

Lemma hex_lower bs :
  Forall (fun b => (b < 256)%N) bs →
  Forall (fun c => is_lower_hex c = true) (hex bs).
Proof.
  unfold hex. induction 1 as [|b bs Hb _ IH]; [constructor|].
  cbn [map concat]. apply Forall_app. split; [|done].
  constructor; [|constructor; [|constructor]]; apply hex_digit_lower.
  - apply N.Div0.div_lt_upper_bound. lia.
  - by apply N.mod_lt.
Qed.
End SHA256Properties.

(** The digest in hexadecimal is 64 lower-case digits. *)
Lemma sha256_hex_format s :
  length (sha256_hex s) = 64
  ∧ Forall (fun c => is_lower_hex c = true) (sha256_hex s).
Proof.
  unfold sha256_hex. split.
  - by rewrite SHA256Properties.length_hex, SHA256Properties.length_digest.
  - apply SHA256Properties.hex_lower, SHA256Properties.digest_bytes.
Qed.

(** X3: a notification passes the gate only with a [SIGNATURE] of 64
    lower-case hexadecimal digits: a signature of another length, or the
    right digest in upper case, is rejected whatever the secret. *)
Theorem validatePayProWebhook_signature_format
    (key : option jsstring) (data : PayProWebhookData) :
  validatePayProWebhook key data = Ok tt →
  length (SIGNATURE data) = 64
  ∧ Forall (fun c => is_lower_hex c = true) (SIGNATURE data).
Proof.
  intros Hok.
  destruct (validatePayProWebhook_cases key data) as [[-> _]|[_ Hthrow]].
  - apply sha256_hex_format.
  - rewrite Hthrow in Hok. discriminate Hok.
Qed.

Lemma validatePayProWebhook_signature_format_witness :
  validatePayProWebhook test_validation_key
    (with_signature rejected_notification accepted_signature) = Ok tt
  ∧ length accepted_signature = 64
  ∧ Forall (fun c => is_lower_hex c = true) accepted_signature.
Proof.
  assert (validatePayProWebhook test_validation_key
            (with_signature rejected_notification accepted_signature) = Ok tt)
    as Hok by (vm_compute; reflexivity).
  split; [exact Hok|].
  exact (validatePayProWebhook_signature_format test_validation_key
           (with_signature rejected_notification accepted_signature) Hok).
Defined.

(** X4: the signed text has no separators, so the gate does not tell where
    one signed field ends and the next begins: a notification whose
    ORDER_ID, ORDER_STATUS, ORDER_TOTAL_AMOUNT and CUSTOMER_EMAIL are cut
    differently out of the same text gets the same outcome, under the same
    signature. *)
Theorem validatePayProWebhook_field_boundaries
    (key : option jsstring) (data : PayProWebhookData)
    (order_id order_status order_total_amount customer_email : jsstring) :
  order_id ++ order_status ++ order_total_amount ++ customer_email
  = ORDER_ID data ++ ORDER_STATUS data ++ ORDER_TOTAL_AMOUNT data
    ++ CUSTOMER_EMAIL data →
  validatePayProWebhook key
    (with_signed_fields data order_id order_status order_total_amount
       customer_email)
  = validatePayProWebhook key data.
Proof.
  intros Hcut.
  assert (expectedSignature key
            (with_signed_fields data order_id order_status order_total_amount
               customer_email)
          = expectedSignature key data) as Hsig.
  { unfold expectedSignature. f_equal. rewrite !webhook_key_concat.
    cbn [with_signed_fields ORDER_ID ORDER_STATUS ORDER_TOTAL_AMOUNT
         CUSTOMER_EMAIL TEST_MODE IPN_TYPE_NAME].
    rewrite !(app_assoc _ _ (default [] key ++ _)) in *.
    rewrite !app_assoc in *. by rewrite Hcut. }
  unfold validatePayProWebhook. rewrite Hsig. done.
Qed.

Lemma validatePayProWebhook_field_boundaries_witness :
  let signed := with_signature rejected_notification accepted_signature in
  let recut :=
    with_signed_fields signed (js "100") (js "1Processed1") (js "4.0")
      (js "0test@email.com") in
  ORDER_TOTAL_AMOUNT recut ≠ ORDER_TOTAL_AMOUNT signed
  ∧ CUSTOMER_EMAIL recut ≠ CUSTOMER_EMAIL signed
  ∧ validatePayProWebhook test_validation_key signed = Ok tt
  ∧ validatePayProWebhook test_validation_key recut = Ok tt.
Proof.
  intros signed recut.
  assert (validatePayProWebhook test_validation_key signed = Ok tt) as Hok
    by (vm_compute; reflexivity).
  split_and!; [done|done|exact Hok|].
  exact (eq_trans
           (validatePayProWebhook_field_boundaries test_validation_key signed
              (js "100") (js "1Processed1") (js "4.0") (js "0test@email.com")
              eq_refl)
           Hok).
Defined.

(** ** The query of the checkout URL *)

Lemma set_if_truthy_absent name value (params : URLSearchParams) :
  URLSearchParams_get name params = None →
  set_if_truthy name value params = params ++ optional_param name value.
Proof.
  intros Habsent. unfold set_if_truthy, optional_param.
  destruct (string_truthy value); [|by rewrite app_nil_r].
  by apply URLSearchParams_set_absent.
Qed.

Lemma URLSearchParams_get_optional_ne name name' value :
  name ≠ name' → URLSearchParams_get name' (optional_param name value) = None.
Proof.
  intros Hne. unfold optional_param. destruct (string_truthy value); [|done].
  simpl. by rewrite bool_decide_false.
Qed.

Lemma URLSearchParams_get_single_ne name name' value :
  name ≠ name' → URLSearchParams_get name' [(name, value)] = None.
Proof. intros Hne. simpl. by rewrite bool_decide_false. Qed.

(** A name that is looked up in pairs that all have other names. *)
Ltac absent :=
  rewrite ?URLSearchParams_get_app,
    ?URLSearchParams_get_optional_ne, ?URLSearchParams_get_single_ne by done;
  done.

Section CheckoutQuery.
Context (number : Type) (Number_toString : number → jsstring)
  (Number_truthy : number → bool).
Context (rate : Type) (rate_toString : rate → jsstring)
  (rate_truthy : rate → bool).
Context (base : option jsstring) (key iv : jsstring).
Context (latest_rates : jsstring → result (jsstring → option rate)).

Local Abbreviation checkout :=
  (createCheckout number Number_toString Number_truthy rate rate_toString
     rate_truthy base key iv latest_rates).

(** The pairs that the calls of [set] leave, one after the other. *)
Lemma checkoutParams_list (options : CheckoutOptions number) (data : jsstring) :
  let visible :=
    set_if_truthy (js "x-return-url") (returnUrl number options)
      (set_if_truthy (js "x-passthrough") (passthrough number options)
        (set_if_truthy (js "x-source") (Some (source number options))
          (set_if_truthy (js "billing-country") (countryCode number options)
            (set_if_truthy (js "billing-email") (email number options)
              (URLSearchParams_set (js "currency") (currency number options) []))))) in
  let with_id :=
    URLSearchParams_set (js "products[1][id]")
      (Z_toString (SKU_TO_PAYPRO_ID (sku number options))) visible in
  URLSearchParams_set (js "products[1][data]") data
    match quantity number options with
    | Some q =>
        if Number_truthy q
        then URLSearchParams_set (js "products[1][qty]") (Number_toString q)
               with_id
        else with_id
    | None => with_id
    end
  = checkout_parameters Number_toString Number_truthy options data.
Proof.
  intros visible with_id. subst with_id visible.
  cbn [URLSearchParams_set].
  rewrite (set_if_truthy_absent (js "billing-email")) by absent.
  rewrite (set_if_truthy_absent (js "billing-country")) by absent.
  rewrite (set_if_truthy_absent (js "x-source")) by absent.
  rewrite (set_if_truthy_absent (js "x-passthrough")) by absent.
  rewrite (set_if_truthy_absent (js "x-return-url")) by absent.
  rewrite (URLSearchParams_set_absent (js "products[1][id]")) by absent.
  unfold checkout_parameters.
  destruct (quantity number options) as [q|]; [destruct (Number_truthy q)|].
  - rewrite (URLSearchParams_set_absent (js "products[1][qty]")) by absent.
    rewrite (URLSearchParams_set_absent (js "products[1][data]")) by absent.
    by rewrite <- !app_assoc.
  - rewrite (URLSearchParams_set_absent (js "products[1][data]")) by absent.
    by rewrite <- !app_assoc.
  - rewrite (URLSearchParams_set_absent (js "products[1][data]")) by absent.
    by rewrite <- !app_assoc.
Qed.

Lemma checkout_parameters_NoDup (options : CheckoutOptions number) data :
  NoDup (checkout_parameters Number_toString Number_truthy options data).*1.
Proof.
  unfold checkout_parameters, optional_param.
  destruct (string_truthy (email number options)),
    (string_truthy (countryCode number options)),
    (string_truthy (Some (source number options))),
    (string_truthy (passthrough number options)),
    (string_truthy (returnUrl number options));
    (destruct (quantity number options) as [q|]; [destruct (Number_truthy q)|]);
    cbn [app fmap list_fmap fst];
    refine (bool_decide_unpack _ _); vm_compute; reflexivity.
Qed.

(** What a call that returns has done: the cipher has run on some
    plaintext, and the URL lists the pairs of [checkout_parameters]. *)
Lemma createCheckout_returns_parameters (options : CheckoutOptions number)
    w w' url :
  checkout options w = (w', Ok url) →
  ∃ plaintext ciphertext,
    AES.encrypt (binary_bytes key) (binary_bytes iv) (binary_bytes plaintext)
      = Some ciphertext
    ∧ CipherEncrypt plaintext ∈ trace w'
    ∧ url = PAYPRO_API_BASE_URL base ++ js "/checkout?"
            ++ URLSearchParams_toString
                 (checkout_parameters Number_toString Number_truthy options
                    (encode64 ciphertext)).
Proof.
  unfold createCheckout. rewrite bind_run.
  match goal with
  | |- context [(if ?c then ?a else ?b) w] => set (r := (if c then a else b) w)
  end.
  destruct r as [w1 [productParams|e]]; [|done].
  rewrite bind_run, forge_encrypt_run.
  destruct (AES.encrypt _ _ _) as [ciphertext|] eqn:Henc; [|done].
  unfold mret, M_ret. intros [= <- <-].
  exists (URLSearchParams_toString productParams), ciphertext.
  split_and!; [done| |].
  - simpl. apply elem_of_app. right. apply list_elem_of_singleton. reflexivity.
  - by rewrite checkoutParams_list.
Qed.
End CheckoutQuery.

(** X5: the URL of a call that returns lists, each once and in this order:
    [currency] with the currency of the request (also when the encrypted
    price is in another one); [billing-email], [billing-country],
    [x-source], [x-passthrough] and [x-return-url], each only when the
    request has a value for it that is not the empty string;
    [products[1][id]]; [products[1][qty]] only for a quantity that is
    truthy, so not for zero; and [products[1][data]], the base64 form of
    what the cipher made of the plaintext it was given. *)
Theorem createCheckout_parameters
    (number : Type) (Number_toString : number → jsstring)
    (Number_truthy : number → bool)
    (rate : Type) (rate_toString : rate → jsstring) (rate_truthy : rate → bool)
    (base : option jsstring) (key iv : jsstring)
    (latest_rates : jsstring → result (jsstring → option rate))
    (options : CheckoutOptions number) (w w' : world) (url : jsstring) :
  createCheckout number Number_toString Number_truthy rate rate_toString
    rate_truthy base key iv latest_rates options w = (w', Ok url) →
  ∃ plaintext ciphertext,
    AES.encrypt (binary_bytes key) (binary_bytes iv) (binary_bytes plaintext)
      = Some ciphertext
    ∧ CipherEncrypt plaintext ∈ trace w'
    ∧ url = PAYPRO_API_BASE_URL base ++ js "/checkout?"
            ++ URLSearchParams_toString
                 (checkout_parameters Number_toString Number_truthy options
                    (encode64 ciphertext))
    ∧ NoDup (checkout_parameters Number_toString Number_truthy options
               (encode64 ciphertext)).*1.
Proof.
  intros Hrun.
  destruct (createCheckout_returns_parameters _ _ _ _ _ _ _ _ _ _ _ _ _ _ Hrun)
    as (plaintext & ciphertext & Henc & Htrace & Hurl).
  exists plaintext, ciphertext. split_and!; [done..|].
  apply checkout_parameters_NoDup.
Qed.

Lemma createCheckout_parameters_witness :
  ∃ w' url data,
    example_createCheckout lek_rates bare_checkout initial_world = (w', Ok url)
    ∧ url = js "https://store.payproglobal.com/checkout?"
            ++ URLSearchParams_toString
                 [(js "currency", js "EUR");
                  (js "x-passthrough", js "id=1&currency=USD");
                  (js "x-return-url", js "https://example.com/thanks?a=1&b=2");
                  (js "products[1][id]", js "82588");
                  (js "products[1][data]", data)].
Proof.
  destruct (example_createCheckout lek_rates bare_checkout initial_world)
    as [w' [url|e]] eqn:Hrun.
  - destruct (createCheckout_parameters Z Z_toString Z_truthy Z Z_toString
                Z_truthy None example_key example_iv lek_rates bare_checkout
                initial_world w' url Hrun)
      as (plaintext & ciphertext & _ & _ & Hurl & _).
    exists w', url, (encode64 ciphertext). split; [reflexivity|exact Hurl].
  - vm_compute in Hrun. discriminate Hrun.
Defined.

(** ** The separators of the query *)

Lemma urlencode_byte_chars b :
  Forall (fun c => urlencoded_plain c || (c =? 43) || (c =? 37) = true)%N
    (urlencode_byte b).
Proof.
  apply Forall_forall. intros c Hc.
  assert (forallb (fun c => urlencoded_plain c || (c =? 43) || (c =? 37))%N
            (urlencode_byte b) = true) as Hall
    by (destruct b; vm_compute; reflexivity).
  rewrite forallb_forall in Hall. apply Hall. by apply list_elem_of_In.
Qed.

Lemma urlencode_chars s :
  Forall (fun c => urlencoded_plain c || (c =? 43) || (c =? 37) = true)%N
    (urlencode s).
Proof.
  unfold urlencode. apply Forall_concat, Forall_forall.
  intros l (b & -> & _)%list_elem_of_fmap. apply urlencode_byte_chars.
Qed.

Lemma urlencode_no_separator s (sep : N) :
  sep = chr "&" ∨ sep = chr "=" → Forall (fun c => c ≠ sep) (urlencode s).
Proof.
  intros Hsep. eapply Forall_impl; [apply urlencode_chars|].
  intros c Hc ->. destruct Hsep as [->| ->]; vm_compute in Hc; discriminate Hc.
Qed.

Lemma split_on_absent sep s : Forall (fun c => c ≠ sep) s → split_on sep s = [s].
Proof.
  induction 1 as [|c s Hc _ IH]; [done|].
  cbn [split_on]. destruct (N.eqb_spec c sep); [done|]. by rewrite IH.
Qed.

Lemma split_on_app sep a b :
  Forall (fun c => c ≠ sep) a →
  split_on sep (a ++ sep :: b) = a :: split_on sep b.
Proof.
  induction 1 as [|c a Hc _ IH]; cbn [split_on app].
  - by rewrite N.eqb_refl.
  - destruct (N.eqb_spec c sep); [done|]. by rewrite IH.
Qed.

Lemma split_on_join sep (pieces : list jsstring) :
  pieces ≠ [] →
  Forall (Forall (fun c => c ≠ sep)) pieces →
  split_on sep (join_with [sep] pieces) = pieces.
Proof.
  intros Hne Hall. induction Hall as [|p pieces Hp Hall IH]; [done|].
  destruct pieces as [|q pieces].
  - simpl. by apply split_on_absent.
  - change (join_with [sep] (p :: q :: pieces))
      with (p ++ sep :: join_with [sep] (q :: pieces)).
    rewrite split_on_app by done. f_equal. by apply IH.
Qed.

(** The text of some pairs falls apart at [&] into one piece a pair, and
    each piece at [=] into the name and the value. *)
Lemma URLSearchParams_toString_pieces (params : URLSearchParams) :
  params ≠ [] →
  split_on (chr "=") <$> split_on (chr "&") (URLSearchParams_toString params)
  = (fun kv => [urlencode kv.1; urlencode kv.2]) <$> params.
Proof.
  intros Hne. unfold URLSearchParams_toString.
  change (js "&") with [chr "&"]. rewrite split_on_join.
  - rewrite <- list_fmap_compose. apply list_fmap_ext. intros _ [k v] _. simpl.
    change (js "=" ++ urlencode v) with (chr "=" :: urlencode v).
    rewrite split_on_app by (apply urlencode_no_separator; by right).
    f_equal. apply split_on_absent, urlencode_no_separator. by right.
  - by destruct params.
  - apply Forall_fmap, Forall_forall. intros [k v] _. simpl.
    apply Forall_app. split; [apply urlencode_no_separator; by left|].
    change (js "=" ++ urlencode v) with (chr "=" :: urlencode v).
    constructor; [done|]. apply urlencode_no_separator. by left.
Qed.

Lemma URLSearchParams_toString_chars (params : URLSearchParams) :
  Forall (fun c => is_query_char c = true) (URLSearchParams_toString params).
Proof.
  assert (∀ s, Forall (fun c => is_query_char c = true) (urlencode s)) as Hs.
  { intros s. eapply Forall_impl; [apply urlencode_chars|].
    intros c Hc. unfold is_query_char. by rewrite Hc. }
  unfold URLSearchParams_toString.
  induction params as [|[k v] [|kv params] IH].
  - constructor.
  - simpl. apply Forall_app. split; [apply Hs|]. constructor; [done|apply Hs].
  - change (Forall (fun c => is_query_char c = true)
              ((urlencode k ++ js "=" ++ urlencode v)
               ++ js "&"
               ++ join_with (js "&")
                    (map (fun kv => urlencode kv.1 ++ js "=" ++ urlencode kv.2)
                       (kv :: params)))).
    rewrite !Forall_app. split_and!; [apply Hs| |apply Hs| |apply IH];
      by repeat constructor.
Qed.

(** X6: whatever the email, the source, the passthrough and the return URL
    of the request hold, the query of the URL is made of letters, digits,
    [*-._+%] and the separators [=] and [&] only, and it falls apart at [&]
    into exactly one piece for each pair of [checkout_parameters], and each
    piece at [=] into the encoded name and the encoded value: a value
    cannot add a parameter or change another one. *)
Theorem createCheckout_query_pieces
    (number : Type) (Number_toString : number → jsstring)
    (Number_truthy : number → bool)
    (rate : Type) (rate_toString : rate → jsstring) (rate_truthy : rate → bool)
    (base : option jsstring) (key iv : jsstring)
    (latest_rates : jsstring → result (jsstring → option rate))
    (options : CheckoutOptions number) (w w' : world) (url : jsstring) :
  createCheckout number Number_toString Number_truthy rate rate_toString
    rate_truthy base key iv latest_rates options w = (w', Ok url) →
  ∃ query data,
    url = PAYPRO_API_BASE_URL base ++ js "/checkout?" ++ query
    ∧ Forall (fun c => is_query_char c = true) query
    ∧ split_on (chr "=") <$> split_on (chr "&") query
      = (fun kv => [urlencode kv.1; urlencode kv.2])
        <$> checkout_parameters Number_toString Number_truthy options data.
Proof.
  intros Hrun.
  destruct (createCheckout_returns_parameters _ _ _ _ _ _ _ _ _ _ _ _ _ _ Hrun)
    as (plaintext & ciphertext & _ & _ & Hurl).
  eexists _, (encode64 ciphertext). split_and!; [exact Hurl| |].
  - apply URLSearchParams_toString_chars.
  - apply URLSearchParams_toString_pieces. by destruct options.
Qed.

Lemma createCheckout_query_pieces_witness :
  ∃ w' url query data,
    example_createCheckout lek_rates bare_checkout initial_world = (w', Ok url)
    ∧ url = js "https://store.payproglobal.com/checkout?" ++ query
    ∧ split_on (chr "=") <$> split_on (chr "&") query
      = [[js "currency"; js "EUR"];
         [js "x-passthrough"; js "id%3D1%26currency%3DUSD"];
         [js "x-return-url"; js "https%3A%2F%2Fexample.com%2Fthanks%3Fa%3D1%26b%3D2"];
         [js "products%5B1%5D%5Bid%5D"; js "82588"];
         [js "products%5B1%5D%5Bdata%5D"; urlencode data]].
Proof.
  destruct (example_createCheckout lek_rates bare_checkout initial_world)
    as [w' [url|e]] eqn:Hrun.
  - destruct (createCheckout_query_pieces Z Z_toString Z_truthy Z Z_toString
                Z_truthy None example_key example_iv lek_rates bare_checkout
                initial_world w' url Hrun)
      as (query & data & Hurl & _ & Hpieces).
    exists w', url, query, data. split_and!; [reflexivity|exact Hurl|].
    rewrite Hpieces. reflexivity.
  - vm_compute in Hrun. discriminate Hrun.
Defined.

(** ** [createCheckout] when the rate is missing *)

Lemma read_property_own {amount : Type} (own : gmap jsstring amount) name :
  read_property amount own name
  = match own !! name with
    | Some value => Some (OwnProperty amount value)
    | None =>
        if bool_decide (name ∈ Object_prototype)
        then Some (InheritedProperty amount name)
        else None
    end.
Proof. reflexivity. Qed.

(** X7: for a currency outside the provider's list and rates that are an
    ordinary object. When the object has a property of its own for the
    currency that is falsy, such as zero, or has none and the currency is
    not the name of a member of [Object.prototype], the call throws the
    error that names the currency, after one report and one request for the
    rates; the cipher does not run. When the object has no property of its
    own for the currency but the currency is such a name, [constructor] for
    one, the read finds the inherited member, which is truthy: the call
    goes on, encrypts the text of that member as the amount and, with a key
    and a vector that the cipher takes, returns a URL. *)
Theorem createCheckout_without_rate
    (number : Type) (Number_toString : number → jsstring)
    (Number_truthy : number → bool)
    (amount : Type) (amount_toString : amount → jsstring)
    (amount_truthy : amount → bool) (member_toString : jsstring → jsstring)
    (base : option jsstring) (key iv : jsstring)
    (objects : jsstring → result (gmap jsstring amount))
    (options : CheckoutOptions number) (w : world)
    (own : gmap jsstring amount) :
  let checkout :=
    createCheckout number Number_toString Number_truthy
      (property_value amount)
      (property_toString amount amount_toString member_toString)
      (property_truthy amount amount_truthy)
      base key iv (rates_of amount objects) in
  currency number options ∉ PAYPRO_CURRENCIES →
  objects (js "USD") = Ok own →
  (match own !! currency number options with
   | Some value => amount_truthy value = false
   | None => currency number options ∉ Object_prototype
   end →
   ∃ w' events,
     checkout options w
     = (w', Throw (Error (js "Can't show PayPro checkout for currency "
                          ++ currency number options
                          ++ js " with no USD rate available")))
     ∧ trace w' = trace w ++ events ++ [GetLatestRates (js "USD")]
     ∧ reports events
       = [inr (js "Opening unsupported " ++ currency number options
               ++ js " PayPro checkout")]
     ∧ existsb network_or_cipher events = false)
  ∧ (own !! currency number options = None →
     currency number options ∈ Object_prototype →
     cipher_accepts key iv →
     ∃ w' url,
       checkout options w = (w', Ok url)
       ∧ CipherEncrypt
           (URLSearchParams_toString
              [(js "price[USD][Amount]",
                member_toString (currency number options))])
         ∈ trace w').
Proof.
  intros checkout Hcur Hobjects. subst checkout.
  assert (rates_of amount objects (js "USD") = Ok (read_property amount own))
    as Hrates by (unfold rates_of; by rewrite Hobjects).
  split.
  - intros Hrate.
    apply createCheckout_no_rate with (allUsdRates := read_property amount own);
      [done|done|].
    rewrite read_property_own.
    destruct (own !! currency number options) as [value|]; [done|].
    by rewrite bool_decide_false.
  - intros Hown Hinherited Haccepts.
    destruct (encrypt_accepts key iv
                (binary_bytes
                   (URLSearchParams_toString
                      [(js "price[USD][Amount]",
                        member_toString (currency number options))]))
                Haccepts) as [ciphertext Henc].
    destruct (createCheckout_rate_run number Number_toString Number_truthy
                (property_value amount)
                (property_toString amount amount_toString member_toString)
                (property_truthy amount amount_truthy)
                base key iv (rates_of amount objects) options w
                (read_property amount own)
                (InheritedProperty amount (currency number options))
                ciphertext Hcur Hrates)
      as (w' & events & checkoutParams & Hrun & _ & Htrace & _); [|done|done|].
    { rewrite read_property_own, Hown. by rewrite bool_decide_true. }
    exists w'. eexists. split; [exact Hrun|].
    rewrite Htrace. rewrite !elem_of_app. do 2 right.
    apply elem_of_cons. right. apply list_elem_of_singleton. reflexivity.
Qed.

Lemma createCheckout_without_rate_witness :
  (∃ w', object_createCheckout (fun _ => Ok ∅) lek_checkout initial_world
         = (w', Throw (Error (js "Can't show PayPro checkout for currency ALL with no USD rate available"))))
  ∧ (∃ w', object_createCheckout (fun _ => Ok {[ js "ALL" := 0%Z ]})
             lek_checkout initial_world
           = (w', Throw (Error (js "Can't show PayPro checkout for currency ALL with no USD rate available"))))
  ∧ (∃ w' url,
       object_createCheckout (fun _ => Ok ∅) constructor_checkout initial_world
       = (w', Ok url)
       ∧ CipherEncrypt
           (js "price%5BUSD%5D%5BAmount%5D=function+Object%28%29+%7B+%5Bnative+code%5D+%7D")
         ∈ trace w').
Proof.
  assert (js "constructor" ∉ PAYPRO_CURRENCIES) as Hconstructor.
  { refine (bool_decide_unpack _ _). vm_compute. reflexivity. }
  split_and!.
  - destruct (proj1 (createCheckout_without_rate Z Z_toString Z_truthy Z
                       Z_toString Z_truthy node_member_toString None example_key
                       example_iv (fun _ => Ok ∅) lek_checkout initial_world ∅
                       lek_not_listed eq_refl))
      as (w' & events & Hrun & _).
    { refine (bool_decide_unpack _ _). vm_compute. reflexivity. }
    exists w'. exact Hrun.
  - destruct (proj1 (createCheckout_without_rate Z Z_toString Z_truthy Z
                       Z_toString Z_truthy node_member_toString None example_key
                       example_iv (fun _ => Ok {[ js "ALL" := 0%Z ]})
                       lek_checkout initial_world {[ js "ALL" := 0%Z ]}
                       lek_not_listed eq_refl))
      as (w' & events & Hrun & _).
    { reflexivity. }
    exists w'. exact Hrun.
  - destruct (proj2 (createCheckout_without_rate Z Z_toString Z_truthy Z
                       Z_toString Z_truthy node_member_toString None example_key
                       example_iv (fun _ => Ok ∅) constructor_checkout
                       initial_world ∅ Hconstructor eq_refl))
      as (w' & url & Hrun & Htrace).
    { reflexivity. }
    { refine (bool_decide_unpack _ _). vm_compute. reflexivity. }
    { exact example_cipher_accepts. }
    exists w', url. split; [exact Hrun|exact Htrace].
Defined.

(** X8: for a currency outside the provider's list, when the request for
    the rates fails, the call fails with the same error, after one report;
    the cipher does not run. *)
Theorem createCheckout_rates_rejected
    (number : Type) (Number_toString : number → jsstring)
    (Number_truthy : number → bool)
    (rate : Type) (rate_toString : rate → jsstring) (rate_truthy : rate → bool)
    (base : option jsstring) (key iv : jsstring)
    (latest_rates : jsstring → result (jsstring → option rate))
    (options : CheckoutOptions number) (w : world) (e : error) :
  currency number options ∉ PAYPRO_CURRENCIES →
  latest_rates (js "USD") = Throw e →
  ∃ w' events,
    createCheckout number Number_toString Number_truthy rate rate_toString
      rate_truthy base key iv latest_rates options w
    = (w', Throw e)
    ∧ trace w' = trace w ++ events ++ [GetLatestRates (js "USD")]
    ∧ reports events
      = [inr (js "Opening unsupported " ++ currency number options
              ++ js " PayPro checkout")]
    ∧ existsb network_or_cipher events = false.
Proof.
  intros Hcur Hrates. unfold createCheckout.
  rewrite bool_decide_false by done. rewrite !bind_run.
  destruct (reportError_message_run
              (js "Opening unsupported " ++ currency number options
               ++ js " PayPro checkout") w)
    as (w1 & -> & _ & events & Htrace & Hreports & Hquiet).
  unfold getLatestRates. rewrite !bind_run. unfold tell, lift. rewrite Hrates.
  exists (emit (GetLatestRates (js "USD")) w1), events.
  split_and!; [done| |done..]. simpl. by rewrite Htrace, <- app_assoc.
Qed.

Lemma createCheckout_rates_rejected_witness :
  ∃ w', example_createCheckout failing_rates lek_checkout initial_world
        = (w', Throw (Error (js "rates unavailable")))
        ∧ trace w'
          = [ConsoleWarn (inr (js "Opening unsupported ALL PayPro checkout"));
             SentryCaptureMessage (js "Opening unsupported ALL PayPro checkout");
             SentryFlush;
             GetLatestRates (js "USD")].
Proof.
  destruct (createCheckout_rates_rejected Z Z_toString Z_truthy Z Z_toString
              Z_truthy None example_key example_iv failing_rates lek_checkout
              initial_world (Error (js "rates unavailable")) lek_not_listed
              eq_refl)
    as (w' & events & Hrun & _).
  exists w'. split; [exact Hrun|].
  replace w' with (example_createCheckout failing_rates lek_checkout initial_world).1.
  - vm_compute. reflexivity.
  - unfold example_createCheckout. by rewrite Hrun.
Defined.

(** ** [createCheckout] and the state of the module *)

Lemma reportError_trace (err : error + jsstring) (w : world) :
  reportError err w
  = ({| sentryInitialized := sentryInitialized w;
        trace := trace w
                 ++ (ConsoleWarn <$> console_warnings err)
                 ++ (if sentryInitialized w
                     then [sentry_capture err; SentryFlush]
                     else []) |},
     Ok tt).
Proof.
  unfold reportError, mbind, M_bind, tell, read_sentryInitialized, mret, M_ret,
    emit.
  destruct err as [[]|msg]; cbn [fst snd sentryInitialized trace];
    destruct (sentryInitialized w) eqn:Hinit;
    cbn [negb fst snd sentryInitialized trace console_warnings sentry_capture
         fmap list_fmap];
    rewrite <- ?app_assoc; cbn [app]; rewrite ?app_nil_r; try rewrite Hinit;
    reflexivity.
Qed.

Lemma console_warnings_quiet (err : error + jsstring) :
  existsb network_or_cipher (ConsoleWarn <$> console_warnings err) = false.
Proof. by destruct err as [[]|msg]. Qed.

Lemma reportError_run (err : error + jsstring) (w : world) :
  ∃ events,
    reportError err w
    = ({| sentryInitialized := sentryInitialized w; trace := trace w ++ events |},
       Ok tt)
    ∧ existsb network_or_cipher events = false.
Proof.
  eexists. split; [apply reportError_trace|].
  rewrite existsb_app, console_warnings_quiet.
  by destruct (sentryInitialized w), err.
Qed.

(** X9: the URL or the error of [createCheckout] does not depend on whether
    Sentry is initialised, nor on what has happened before; the call leaves
    [sentryInitialized] as it is and only adds events. *)
Theorem createCheckout_result_independent
    (number : Type) (Number_toString : number → jsstring)
    (Number_truthy : number → bool)
    (rate : Type) (rate_toString : rate → jsstring) (rate_truthy : rate → bool)
    (base : option jsstring) (key iv : jsstring)
    (latest_rates : jsstring → result (jsstring → option rate))
    (options : CheckoutOptions number) (w1 w2 : world) :
  let checkout :=
    createCheckout number Number_toString Number_truthy rate rate_toString
      rate_truthy base key iv latest_rates options in
  (checkout w1).2 = (checkout w2).2
  ∧ sentryInitialized (checkout w1).1 = sentryInitialized w1
  ∧ ∃ events, trace (checkout w1).1 = trace w1 ++ events.
Proof.
  intros checkout. subst checkout. unfold createCheckout.
  case_bool_decide as Hcur.
  - unfold mbind, M_bind, mret, M_ret. rewrite !forge_encrypt_run.
    destruct (AES.encrypt _ _ _); simpl; split_and!; eauto.
  - rewrite !bind_run.
    destruct (reportError_run
                (inr (js "Opening unsupported " ++ currency number options
                      ++ js " PayPro checkout")) w1) as (ev1 & -> & _).
    destruct (reportError_run
                (inr (js "Opening unsupported " ++ currency number options
                      ++ js " PayPro checkout")) w2) as (ev2 & -> & _).
    unfold getLatestRates. rewrite !bind_run. unfold tell, lift.
    destruct (latest_rates (js "USD")) as [allUsdRates|e]; cbv beta iota.
    2: { simpl. split_and!; [done..|]. eexists. by rewrite <- app_assoc. }
    destruct (allUsdRates (currency number options)) as [usdRate|]; cbv beta iota.
    2: { simpl. split_and!; [done..|]. eexists. by rewrite <- app_assoc. }
    destruct (rate_truthy usdRate); cbv beta iota.
    2: { simpl. split_and!; [done..|]. eexists. by rewrite <- app_assoc. }
    unfold mret, M_ret. rewrite !bind_run, !forge_encrypt_run.
    destruct (AES.encrypt _ _ _); simpl; (split_and!; [done..|]);
      eexists; by rewrite <- !app_assoc.
Qed.

(** ** [cancelSubscription]: the request and the answers *)

(** X10: every call sends exactly one request, a POST to
    [/api/Subscriptions/Terminate] under the base URL, whatever comes back:
    nothing is retried, and at most one line is logged after it. The body
    is the JSON text of the account id and the API key, each left out when
    it is not configured (the call is made all the same), the reason, the
    notification flag and the subscription id. *)
Theorem cancelSubscription_one_request
    (number : Type) (Number_truthy : number → bool)
    (JSON_stringify : json number → jsstring)
    (base account key : option jsstring)
    (http : jsstring → jsstring → jsstring → result (Response number))
    (subscriptionId : jsstring + number) (w : world) :
  let cancel :=
    cancelSubscription number Number_truthy JSON_stringify base account key http in
  let request :=
    Fetch (PAYPRO_API_BASE_URL base ++ js "/api/Subscriptions/Terminate")
      (js "POST")
      (JSON_stringify
         (JObject number
            (match account with
             | Some id => [(js "vendorAccountId", JString number id)]
             | None => []
             end
             ++ match key with
                | Some secret => [(js "apiSecretKey", JString number secret)]
                | None => []
                end
             ++ [(js "reasonText", JString number (js "API cancellation"));
                 (js "sendCustomerNotification", JBool number true);
                 (js "subscriptionId",
                  match subscriptionId with
                  | inl s => JString number s
                  | inr n => JNumber number n
                  end)]))) in
  sentryInitialized (cancel subscriptionId w).1 = sentryInitialized w
  ∧ ∃ logs,
      trace (cancel subscriptionId w).1 = trace w ++ request :: logs
      ∧ (logs = [] ∨ ∃ message, logs = [ConsoleLog message]).
Proof.
  intros cancel request. subst cancel request.
  unfold cancelSubscription, fetch.
  assert (object_literal number
            [(js "vendorAccountId", JString number <$> account);
             (js "apiSecretKey", JString number <$> key);
             (js "reasonText", Some (JString number (js "API cancellation")));
             (js "sendCustomerNotification", Some (JBool number true));
             (js "subscriptionId",
              Some (subscriptionId_json number subscriptionId))]
          = JObject number
              (match account with
               | Some id => [(js "vendorAccountId", JString number id)]
               | None => []
               end
               ++ match key with
                  | Some secret => [(js "apiSecretKey", JString number secret)]
                  | None => []
                  end
               ++ [(js "reasonText", JString number (js "API cancellation"));
                   (js "sendCustomerNotification", JBool number true);
                   (js "subscriptionId",
                    match subscriptionId with
                    | inl s => JString number s
                    | inr n => JNumber number n
                    end)])) as ->.
  { unfold object_literal, subscriptionId_json.
    by destruct account, key, subscriptionId. }
  unfold mbind, M_bind, tell, lift, throw, mret, M_ret.
  destruct (http _ _ _) as [response|e]; cbv beta iota.
  2: { split; [done|]. exists []. split; [reflexivity|by left]. }
  destruct (ok number response); cbn [negb]; cbv beta iota.
  2: { split; [done|]. eexists [_]. cbn [fst trace emit].
       rewrite <- app_assoc. split; [reflexivity|]. right. eauto. }
  destruct (response_json number response) as [responseBody|e]; cbv beta iota.
  2: { split; [done|]. exists []. split; [reflexivity|by left]. }
  destruct (get_property number responseBody (js "isSuccess"))
    as [isSuccess|e]; cbv beta iota.
  2: { split; [done|]. exists []. split; [reflexivity|by left]. }
  destruct (truthy number Number_truthy isSuccess); cbn [negb]; cbv beta iota.
  - split; [done|]. exists []. split; [reflexivity|by left].
  - split; [done|]. eexists [_]. cbn [fst trace emit].
    rewrite <- app_assoc. split; [reflexivity|]. right. eauto.
Qed.

(** X11: when the request itself fails, the call fails with the same
    error and logs nothing. *)
Theorem cancelSubscription_transport_failure
    (number : Type) (Number_truthy : number → bool)
    (JSON_stringify : json number → jsstring)
    (base account key : option jsstring)
    (http : jsstring → jsstring → jsstring → result (Response number))
    (subscriptionId : jsstring + number) (w : world) (e : error) :
  (∀ url method body, http url method body = Throw e) →
  ∃ request,
    cancelSubscription number Number_truthy JSON_stringify base account key
      http subscriptionId w
    = (emit request w, Throw e)
    ∧ network_or_cipher request = true.
Proof.
  intros Hhttp. unfold cancelSubscription, fetch. rewrite !bind_run.
  unfold tell, lift. rewrite Hhttp. eexists. split; reflexivity.
Qed.

Lemma cancelSubscription_transport_failure_witness :
  ∃ request,
    cancelSubscription Z Z_truthy show_json None None None
      (fun _ _ _ => Throw (Error (js "socket hang up")))
      (inl (js "456")) initial_world
    = (emit request initial_world, Throw (Error (js "socket hang up"))).
Proof.
  destruct (cancelSubscription_transport_failure Z Z_truthy show_json None None
              None (fun _ _ _ => Throw (Error (js "socket hang up")))
              (inl (js "456")) initial_world (Error (js "socket hang up"))
              (fun _ _ _ => eq_refl))
    as (request & Hrun & _).
  exists request. exact Hrun.
Defined.

(** X12: every status outside 200 to 299, so also 199 and 300 to 399,
    makes the call throw the error of the unexpected status, after one log
    line with the status and its text; what the body of the answer holds
    makes no difference. *)
Theorem cancelSubscription_status_outside_2xx
    (number : Type) (Number_truthy : number → bool)
    (JSON_stringify : json number → jsstring)
    (base account key : option jsstring)
    (http : jsstring → jsstring → jsstring → result (Response number))
    (subscriptionId : jsstring + number) (w : world)
    (response : Response number) :
  (∀ url method body, http url method body = Ok response) →
  (status number response < 200 ∨ 299 < status number response)%N →
  ∃ request,
    cancelSubscription number Number_truthy JSON_stringify base account key
      http subscriptionId w
    = (emit (ConsoleLog (Z_toString (Z.of_N (status number response)) ++ js " "
                         ++ statusText number response))
         (emit request w),
       Throw (Error (js "Unexpected "
                     ++ Z_toString (Z.of_N (status number response))
                     ++ js " during PayPro cancellation")))
    ∧ network_or_cipher request = true.
Proof.
  intros Hhttp Hstatus. unfold cancelSubscription, fetch. rewrite !bind_run.
  unfold tell, lift. rewrite Hhttp. cbv beta iota.
  assert (ok number response = false) as ->.
  { unfold ok. apply andb_false_iff.
    destruct Hstatus; [left; apply N.leb_gt|right; apply N.leb_gt]; lia. }
  cbn [negb]. rewrite !bind_run. unfold tell, throw.
  eexists. split; reflexivity.
Qed.

Lemma cancelSubscription_status_outside_2xx_witness :
  (∃ w', cancelSubscription Z Z_truthy show_json None None None
           (fun _ _ _ => Ok (response_with 304%N (Ok (isSuccess_body true))))
           (inl (js "456")) initial_world
         = (w', Throw (Error (js "Unexpected 304 during PayPro cancellation"))))
  ∧ (∃ w', cancelSubscription Z Z_truthy show_json None None None
             (fun _ _ _ => Ok (response_with 199%N (Throw (Error (js "no body")))))
             (inl (js "456")) initial_world
           = (w', Throw (Error (js "Unexpected 199 during PayPro cancellation")))).
Proof.
  split.
  - destruct (cancelSubscription_status_outside_2xx Z Z_truthy show_json None
                None None
                (fun _ _ _ => Ok (response_with 304%N (Ok (isSuccess_body true))))
                (inl (js "456")) initial_world
                (response_with 304%N (Ok (isSuccess_body true)))
                (fun _ _ _ => eq_refl))
      as (request & Hrun & _); [right; reflexivity|].
    eexists. exact Hrun.
  - destruct (cancelSubscription_status_outside_2xx Z Z_truthy show_json None
                None None
                (fun _ _ _ => Ok (response_with 199%N (Throw (Error (js "no body")))))
                (inl (js "456")) initial_world
                (response_with 199%N (Throw (Error (js "no body"))))
                (fun _ _ _ => eq_refl))
      as (request & Hrun & _); [left; reflexivity|].
    eexists. exact Hrun.
Defined.

(** X13: with a status from 200 to 299, the body decides. A body that is
    no JSON makes the call fail with the error of the parser; the body
    [null] makes it fail with a [TypeError]; any other body makes the call
    return when its [isSuccess] is truthy (the string ["false"] and the
    number 1 are) and throw the error of the refusal otherwise, also when
    the body is no object or has no [isSuccess]. *)
Theorem cancelSubscription_body
    (number : Type) (Number_truthy : number → bool)
    (JSON_stringify : json number → jsstring)
    (base account key : option jsstring)
    (http : jsstring → jsstring → jsstring → result (Response number))
    (subscriptionId : jsstring + number) (w : world)
    (response : Response number) :
  (∀ url method body, http url method body = Ok response) →
  (200 ≤ status number response ≤ 299)%N →
  ∃ w',
    cancelSubscription number Number_truthy JSON_stringify base account key
      http subscriptionId w
    = (w',
       match response_json number response with
       | Throw e => Throw e
       | Ok (JNull _) =>
           Throw (TypeError
                    (js "Cannot read properties of null (reading 'isSuccess')"))
       | Ok (JObject _ props) =>
           if truthy number Number_truthy
                (snd <$> find (fun kv => bool_decide (kv.1 = js "isSuccess")) props)
           then Ok tt
           else Throw (Error (js "PayPro cancellation request failed"))
       | Ok _ => Throw (Error (js "PayPro cancellation request failed"))
       end).
Proof.
  intros Hhttp [Hlo Hhi]. unfold cancelSubscription, fetch. rewrite !bind_run.
  unfold tell, lift. rewrite Hhttp. cbv beta iota.
  assert (ok number response = true) as ->.
  { unfold ok. apply andb_true_iff. split; by apply N.leb_le. }
  cbn [negb]. rewrite !bind_run.
  destruct (response_json number response) as [responseBody|e];
    cbv beta iota; [|eauto].
  destruct responseBody; cbn [get_property]; cbv beta iota; eauto;
    rewrite ?bind_run; cbn [truthy negb]; unfold tell, throw; cbv beta iota;
    eauto.
  destruct (truthy _ _ _); cbn [negb]; rewrite ?bind_run; eauto.
Qed.

Lemma cancelSubscription_body_witness :
  let cancel body :=
    cancelSubscription Z Z_truthy show_json None None None
      (fun _ _ _ => Ok (response_with 204%N body))
      (inl (js "456")) initial_world in
  (∃ w', cancel (Ok (JObject Z [(js "isSuccess", JString Z (js "false"))]))
         = (w', Ok tt))
  ∧ (∃ w', cancel (Ok (JObject Z []))
           = (w', Throw (Error (js "PayPro cancellation request failed"))))
  ∧ (∃ w', cancel (Ok (JArray Z []))
           = (w', Throw (Error (js "PayPro cancellation request failed"))))
  ∧ (∃ w', cancel (Ok (JNull Z))
           = (w', Throw (TypeError
                    (js "Cannot read properties of null (reading 'isSuccess')"))))
  ∧ (∃ w', cancel (Throw (Error (js "Unexpected end of JSON input")))
           = (w', Throw (Error (js "Unexpected end of JSON input")))).
Proof.
  intros cancel. subst cancel.
  assert (∀ body, (200 ≤ status Z (response_with 204%N body) ≤ 299)%N)
    as Hstatus by (intros; split; vm_compute; discriminate).
  split_and!;
    match goal with
    | |- ∃ w', cancelSubscription _ _ _ _ _ _ _ _ _ = (w', _) =>
        exact (cancelSubscription_body Z Z_truthy show_json None None None _
                 (inl (js "456")) initial_world (response_with 204%N _)
                 (fun _ _ _ => eq_refl) (Hstatus _))
    end.
Defined.

(** ** [catchErrors] and [initSentry] *)

(** X14: [catchErrors] hands the handler a context on which
    [callbackWaitsForEmptyEventLoop] is [false]. What the handler returns
    is returned as it is, and nothing is reported. An error the handler
    throws is reported: it is written to the console, as one warning, or as
    two for an error with a [requestInfo] (a line made of the request, the
    status and the message, then the original error), and when Sentry is
    initialised it is captured as an exception and Sentry is flushed;
    nothing else happens. A [StatusError] then becomes the response, with
    its status code, its message as the body and the header
    [Cache-Control: no-store], and any other error is thrown again. *)
Theorem catchErrors_outcome
    (E : Type) (handler : ApiHandler E) (event : E) (context : Context)
    (w : world) :
  let inner := handler event {| callbackWaitsForEmptyEventLoop := false |} w in
  match inner.2 with
  | Ok response => catchErrors E handler event context w = inner
  | Throw e =>
      catchErrors E handler event context w
      = ({| sentryInitialized := sentryInitialized inner.1;
            trace := trace inner.1
                     ++ (ConsoleWarn <$> console_warnings (inl e))
                     ++ (if sentryInitialized inner.1
                         then [SentryCaptureException e; SentryFlush]
                         else []) |},
         match e with
         | StatusError code message =>
             Ok {| statusCode := code;
                   headers := [(js "Cache-Control", js "no-store")];
                   body := message |}
         | _ => Throw e
         end)
  end.
Proof.
  intros inner. subst inner. unfold catchErrors.
  destruct (handler event _ w) as [w' [response|e]]; [done|].
  cbn [fst snd]. rewrite bind_run, reportError_trace.
  by destruct e.
Qed.

(** X15: errors reach Sentry only once [initSentry] has set it up. From
    the loaded module, [initSentry] switches the reports to Sentry on
    exactly when [SENTRY_DSN] is a string that is not empty and
    [Sentry.init] returns; when [Sentry.init] throws, [initSentry] throws
    the same error and logs nothing. After it, [reportError] always
    returns. It warns on the console once, or twice for an error with a
    [requestInfo]: first a line made of the method and the URL of the
    request, the status code and the message, then the original error. It
    calls Sentry (one capture, a message for a string and an exception for
    an error, then a flush) when the reports are on and not at all
    otherwise. *)
Theorem reportError_after_initSentry
    (SENTRY_DSN VERSION : option jsstring)
    (Sentry_init : SentryOptions → result unit) (err : error + jsstring) :
  let started := initSentry SENTRY_DSN VERSION Sentry_init module_loaded in
  let init := Sentry_init {| dsn := default [] SENTRY_DSN; release := VERSION |} in
  let enabled :=
    string_truthy SENTRY_DSN
    && match init with Ok _ => true | Throw _ => false end in
  sentryInitialized started.1 = enabled
  ∧ started.2 = (if string_truthy SENTRY_DSN then init else Ok tt)
  ∧ trace started.1
    = (if enabled then [ConsoleLog (js "Sentry initialized")]
       else if string_truthy SENTRY_DSN then []
       else [ConsoleLog (js "No Sentry DSN available, error reporting disabled")])
  ∧ ∃ w',
      reportError err started.1 = (w', Ok tt)
      ∧ sentryInitialized w' = enabled
      ∧ trace w'
        = trace started.1
          ++ match err with
             | inl (Auth0RequestError message statusCode requestInfo
                      originalError) =>
                 [ConsoleWarn
                    (inr (template (requestInfo_method requestInfo)
                          ++ js " request to "
                          ++ template (requestInfo_url requestInfo)
                          ++ js " failed with status "
                          ++ template
                               match statusCode with
                               | Some (inl n) => Some (Z_toString n)
                               | Some (inr s) => Some s
                               | None => None
                               end
                          ++ js ": " ++ message));
                  ConsoleWarn (inl originalError)]
             | _ => [ConsoleWarn err]
             end
          ++ (if enabled then
                [match err with
                 | inl e => SentryCaptureException e
                 | inr msg => SentryCaptureMessage msg
                 end;
                 SentryFlush]
              else []).
Proof.
  intros started init enabled.
  assert (sentryInitialized started.1 = enabled
          ∧ started.2 = (if string_truthy SENTRY_DSN then init else Ok tt)
          ∧ trace started.1
            = (if enabled then [ConsoleLog (js "Sentry initialized")]
               else if string_truthy SENTRY_DSN then []
               else [ConsoleLog (js "No Sentry DSN available, error reporting disabled")]))
    as (Hinit & Hresult & Htrace).
  { subst started init enabled.
    unfold initSentry, set_sentryInitialized, mbind, M_bind, tell, lift,
      read_sentryInitialized, mret, M_ret, emit, module_loaded.
    destruct (string_truthy SENTRY_DSN); cbn [andb]; cbv beta iota.
    - destruct (Sentry_init _) as [[]|e];
        cbn [fst snd sentryInitialized trace app]; split_and!; reflexivity.
    - cbn [fst snd sentryInitialized trace app]; split_and!; reflexivity. }
  split_and!; [done..|].
  eexists. split; [apply reportError_trace|].
  cbn [sentryInitialized trace]. split; [done|].
  rewrite Hinit. f_equal. f_equal.
  by destruct err as [[]|msg].
Qed.

(** ** The signing helper of the tests and the gate *)

Lemma property_get_define_eq name value (obj : fields) :
  property_get name (property_define name value obj) = Some value.
Proof.
  unfold property_get. induction obj as [|[k v] obj IH]; simpl.
  - by rewrite bool_decide_true.
  - case_bool_decide as Hk; simpl.
    + by rewrite bool_decide_true.
    + by rewrite bool_decide_false.
Qed.

Lemma property_get_define_ne name name' value (obj : fields) :
  name ≠ name' →
  property_get name' (property_define name value obj) = property_get name' obj.
Proof.
  intros Hne. unfold property_get. induction obj as [|[k v] obj IH]; simpl.
  - by rewrite bool_decide_false.
  - case_bool_decide as Hk; simpl.
    + subst k. by rewrite !bool_decide_false.
    + case_bool_decide; [done|]. apply IH.
Qed.

Lemma property_get_None name (obj : fields) :
  name ∉ obj.*1 → property_get name obj = None.
Proof.
  unfold property_get. induction obj as [|[k v] obj IH]; [done|].
  intros Hin. apply not_elem_of_cons in Hin as [Hne Hin]. simpl in *.
  rewrite bool_decide_false by done. by apply IH.
Qed.

(** The properties of a spread: those of the source, then those of the
    object so far. *)
Lemma property_get_spread name (source target : fields) :
  NoDup source.*1 →
  property_get name (spread source target)
  = match property_get name source with
    | Some v => Some v
    | None => property_get name target
    end.
Proof.
  unfold spread. revert target.
  induction source as [|[k v] source IH]; intros target Hnodup; [done|].
  apply NoDup_cons in Hnodup as [Hk Hnodup]. cbn [foldl fst snd].
  rewrite IH by done. unfold property_get at 2 3. simpl.
  case_bool_decide as Hname.
  - subst k. fold (property_get name source).
    rewrite property_get_None by done. simpl. apply property_get_define_eq.
  - fold (property_get name source).
    destruct (property_get name source); [done|].
    by apply property_get_define_ne.
Qed.

Lemma property_get_head name value (obj : fields) :
  property_get name ((name, value) :: obj) = Some value.
Proof. unfold property_get. simpl. by rewrite bool_decide_true. Qed.

(** The first property of an object stays the first. *)
Lemma spread_head (source : fields) k v (target : fields) :
  ∃ v' rest, spread source ((k, v) :: target) = (k, v') :: rest.
Proof.
  unfold spread. revert v target.
  induction source as [|[k' v'] source IH]; intros v target; [by eexists _, _|].
  cbn [foldl property_define fst snd]. case_bool_decide as Hk.
  - subst k'. apply IH.
  - apply IH.
Qed.

Lemma getSignature_ext key (body body' : fields) :
  (∀ name, name ≠ js "SIGNATURE" → property_get name body' = property_get name body) →
  getSignature key body' = getSignature key body.
Proof. intros H. unfold getSignature. by rewrite !H. Qed.

Lemma getSignature_carries key (data : PayProWebhookData) (body : fields) :
  carries data body → expectedSignature key data = getSignature key body.
Proof.
  intros (Hid & Hst & Htot & Hmail & Htest & Htype & _).
  unfold expectedSignature, getSignature. f_equal.
  rewrite webhook_key_concat, Hid, Hst, Htot, Hmail, Htest, Htype.
  unfold join_empty. simpl. by rewrite app_nil_r.
Qed.

(** X16: the signing helper of the tests computes the signature the gate
    expects. A notification that carries the fields of an object (a missing
    field reading as empty on both sides) passes the gate, under the same
    secret, exactly when its signature is [getSignature] of the object. *)
Theorem getSignature_validates
    (key : option jsstring) (data : PayProWebhookData) (body : fields) :
  carries data body →
  (validatePayProWebhook key data = Ok tt
   ↔ SIGNATURE data = getSignature key body).
Proof.
  intros Hcarries. rewrite <- (getSignature_carries key data body Hcarries).
  destruct (validatePayProWebhook_cases key data) as [[Hs ->]|[Hs ->]]; [done|].
  split; [done|]. by intros ?.
Qed.

Lemma getSignature_validates_witness :
  ∃ signature,
    carries (test_notification signature)
      ((js "SIGNATURE", signature) :: unsigned_test_body)
    ∧ validatePayProWebhook test_validation_key (test_notification signature)
      = Ok tt.
Proof.
  assert (∀ signature,
            carries (test_notification signature)
              ((js "SIGNATURE", signature) :: unsigned_test_body)) as Hcarries.
  { intros signature. split_and!; reflexivity. }
  exists (getSignature test_validation_key unsigned_test_body).
  split; [apply Hcarries|].
  apply (proj2 (getSignature_validates test_validation_key _ _ (Hcarries _))).
  symmetry. apply getSignature_ext. intros name Hname.
  unfold property_get. simpl. by rewrite bool_decide_false.
Defined.

(** X17: the body that the tests post holds the fields of the unsigned
    body unchanged, and a signature: the one [getSignature] computes, or
    the [SIGNATURE] of the unsigned body when it has one, which replaces
    the computed one. So a notification that carries the posted fields
    passes the gate, under the same secret, exactly when the unsigned body
    has no [SIGNATURE] or has the right one. *)
Theorem getPayProWebhookData_signature
    (key : option jsstring) (unsignedBody : fields) :
  NoDup unsignedBody.*1 →
  let sent := signed_body key unsignedBody in
  getPayProWebhookData key unsignedBody
  = {| init_method := js "POST";
       init_headers :=
         [(js "Content-Type", js "application/x-www-form-urlencoded")];
       init_body := URLSearchParams_toString sent |}
  ∧ (∀ name, name ≠ js "SIGNATURE" →
             property_get name sent = property_get name unsignedBody)
  ∧ property_get (js "SIGNATURE") sent
    = Some (default (getSignature key unsignedBody)
              (property_get (js "SIGNATURE") unsignedBody))
  ∧ (∃ rest,
       sent = (js "SIGNATURE",
               default (getSignature key unsignedBody)
                 (property_get (js "SIGNATURE") unsignedBody)) :: rest)
  ∧ ∀ data, carries data sent →
      (validatePayProWebhook key data = Ok tt
       ↔ default (getSignature key unsignedBody)
           (property_get (js "SIGNATURE") unsignedBody)
         = getSignature key unsignedBody).
Proof.
  intros Hnodup sent.
  assert (∀ name, name ≠ js "SIGNATURE" →
                  property_get name sent = property_get name unsignedBody)
    as Hfields.
  { intros name Hname. subst sent. unfold signed_body.
    rewrite property_get_spread by done.
    destruct (property_get name unsignedBody); [done|].
    unfold property_get. simpl. by rewrite bool_decide_false. }
  assert (property_get (js "SIGNATURE") sent
          = Some (default (getSignature key unsignedBody)
                    (property_get (js "SIGNATURE") unsignedBody))) as Hsig.
  { subst sent. unfold signed_body. rewrite property_get_spread by done.
    by destruct (property_get (js "SIGNATURE") unsignedBody). }
  split_and!; [done..| |].
  { destruct (spread_head unsignedBody (js "SIGNATURE")
                (getSignature key unsignedBody) []) as (v' & rest & Hhead).
    exists rest. subst sent. unfold signed_body in *. rewrite Hhead in Hsig |- *.
    rewrite property_get_head in Hsig. by injection Hsig as ->. }
  intros data Hcarries.
  rewrite (getSignature_validates key data sent Hcarries).
  rewrite (getSignature_ext key unsignedBody sent Hfields).
  destruct Hcarries as (_ & _ & _ & _ & _ & _ & Hs). rewrite Hsig in Hs.
  injection Hs as ->. done.
Qed.

Lemma getPayProWebhookData_signature_witness :
  NoDup invalid_test_body.*1
  ∧ property_get (js "SIGNATURE") (signed_body test_validation_key invalid_test_body)
    = Some (js "BAD-SIGNATURE")
  ∧ carries (test_notification (js "BAD-SIGNATURE"))
      (signed_body test_validation_key invalid_test_body)
  ∧ validatePayProWebhook test_validation_key
      (test_notification (js "BAD-SIGNATURE")) ≠ Ok tt.
Proof.
  assert (NoDup invalid_test_body.*1) as Hnodup.
  { refine (bool_decide_unpack _ _). vm_compute. reflexivity. }
  assert (∀ signature,
            carries (test_notification (js "BAD-SIGNATURE"))
              (spread invalid_test_body [(js "SIGNATURE", signature)]))
    as Hcarries.
  { intros signature. split_and!; reflexivity. }
  destruct (getPayProWebhookData_signature test_validation_key invalid_test_body
              Hnodup) as (_ & _ & Hsig & _ & Hgate).
  split_and!; [exact Hnodup|exact Hsig|apply Hcarries|].
  intros Hok. apply (Hgate _ (Hcarries _)) in Hok. vm_compute in Hok.
  discriminate Hok.
Defined.

(** ** The event processor of [reportError] *)

Lemma string_or_idem a b : string_or (string_or a b) b = string_or a b.
Proof.
  unfold string_or. destruct (string_truthy a) eqn:Ha; [by rewrite Ha|].
  by destruct b.
Qed.

(** X18: the processor is idempotent: an event that has gone through it
    comes out of it unchanged, for the same call of [reportError]. *)
Theorem eventProcessor_idempotent
    (header_object extra_value request_rest event_rest : Type)
    (no_properties : request_rest)
    (extra_string : option jsstring → extra_value)
    (eventContext : option (EventContext header_object))
    (originalError : option OriginalError)
    (event : SentryEvent header_object extra_value request_rest event_rest) :
  let processor :=
    eventProcessor header_object extra_value request_rest event_rest
      no_properties extra_string eventContext originalError in
  processor (processor event) = processor event.
Proof.
  intros processor. subst processor. unfold eventProcessor.
  destruct event as [request extra others].
  destruct eventContext as [[method url headers]|],
    originalError as [[name message stack]|];
    cbn [event_request event_extra event_others from_option id request_method
         request_url request_headers request_others httpMethod path
         context_headers original_name original_message original_stack];
    try done.
  - f_equal.
    + destruct request as [[m u h o]|];
        cbn [from_option id request_method request_url request_headers
             request_others]; rewrite ?string_or_idem; try done.
    + f_equal. apply map_eq. intros k. rewrite !lookup_insert.
      by repeat case_decide.
  - f_equal.
    destruct request as [[m u h o]|];
      cbn [from_option id request_method request_url request_headers
           request_others];
      rewrite ?string_or_idem; try done.
  - do 2 f_equal. apply map_eq. intros k. rewrite !lookup_insert.
    by repeat case_decide.
Qed.

(** X19: with an event context, what the event of Sentry already says of
    the request wins: a method, a URL (each when it is not the empty
    string) and headers that are on the event stay, and only those that
    are missing are taken from the event context. The other properties of
    the request and of the event are left alone, and so is every key of
    [extra] but [originalName], [originalMessage] and [originalStack]. *)
Theorem eventProcessor_fills_request
    (header_object extra_value request_rest event_rest : Type)
    (no_properties : request_rest)
    (extra_string : option jsstring → extra_value)
    (eventContext : EventContext header_object)
    (originalError : option OriginalError)
    (event : SentryEvent header_object extra_value request_rest event_rest) :
  let result :=
    eventProcessor header_object extra_value request_rest event_rest
      no_properties extra_string (Some eventContext) originalError event in
  let before := event_request _ _ _ _ event in
  ∃ request,
    event_request _ _ _ _ result = Some request
    ∧ request_method _ _ request
      = (if string_truthy (before ≫= request_method _ _)
         then before ≫= request_method _ _
         else Some (httpMethod _ eventContext))
    ∧ request_url _ _ request
      = (if string_truthy (before ≫= request_url _ _)
         then before ≫= request_url _ _
         else Some (path _ eventContext))
    ∧ request_headers _ _ request
      = Some (default (context_headers _ eventContext)
                (before ≫= request_headers _ _))
    ∧ request_others _ _ request
      = default no_properties (request_others _ _ <$> before)
    ∧ event_others _ _ _ _ result = event_others _ _ _ _ event
    ∧ ∀ k, k ∉ [js "originalName"; js "originalMessage"; js "originalStack"] →
           default ∅ (event_extra _ _ _ _ result) !! k
           = default ∅ (event_extra _ _ _ _ event) !! k.
Proof.
  intros result before. subst result before. unfold eventProcessor.
  destruct event as [request extra others].
  destruct eventContext as [method url headers].
  cbn [event_request event_extra event_others httpMethod path context_headers].
  destruct originalError as [[name message stack]|];
    cbn [event_request event_extra event_others];
    (eexists; split; [reflexivity|]);
    (split_and!; [by destruct request..| |]); try done.
  intros k Hk. cbn [from_option id].
  rewrite !not_elem_of_cons in Hk. destruct Hk as (H1 & H2 & H3 & _).
  by rewrite !lookup_insert_ne.
Qed.

(** ** The encrypted parameter *)

Lemma length_cbc_encrypt rks prev ps :
  length (AES.cbc_encrypt rks prev ps) = length ps.
Proof.
  revert prev. induction ps as [|p ps IH]; intros prev; [done|].
  simpl. by rewrite IH.
Qed.

Lemma length_pad_blocks l : length (AES.pad l) = 16 * (length l / 16 + 1).
Proof.
  unfold AES.pad. rewrite length_app, repeat_length.
  pose proof (Nat.div_mod_eq (length l) 16) as Hdiv.
  pose proof (Nat.mod_upper_bound (length l) 16) as Hmod. lia.
Qed.

Lemma length_blocks l n : length l = 16 * n → length (AES.blocks l) = n.
Proof.
  intros Hl. pose proof (AESProperties.unblocks_blocks n l Hl) as Hub.
  apply (f_equal length) in Hub. rewrite AESProperties.length_unblocks in Hub.
  lia.
Qed.

(** The ciphertext is as long as the plaintext with its padding: the next
    multiple of 16 bytes, a block more when the length is one already. *)
Lemma length_encrypt key iv data ciphertext :
  AES.encrypt key iv data = Some ciphertext →
  length ciphertext = 16 * (length data / 16 + 1).
Proof.
  unfold AES.encrypt.
  destruct (AES.round_keys _) as [rks|]; [|done].
  destruct (AES.iv_block _) as [iv0|]; [|done]. intros [= <-].
  rewrite AESProperties.length_unblocks, length_cbc_encrypt.
  rewrite (length_blocks _ (length data / 16 + 1)); [done|].
  apply length_pad_blocks.
Qed.

Lemma base64_char_alphabet n : is_base64_char (base64_char n) = true.
Proof.
  unfold base64_char, is_base64_char.
  repeat match goal with
         | |- context [if ?c then _ else _] => destruct c eqn:?
         end;
    repeat match goal with
           | H : (_ <? _)%N = true |- _ => apply N.ltb_lt in H
           | H : (_ <? _)%N = false |- _ => apply N.ltb_ge in H
           | H : (_ =? _)%N = true |- _ => apply N.eqb_eq in H
           | H : (_ =? _)%N = false |- _ => apply N.eqb_neq in H
           end.
  - do 5 (apply orb_true_iff; left).
    apply andb_true_iff; split; apply N.leb_le; lia.
  - do 4 (apply orb_true_iff; left). apply orb_true_iff; right.
    apply andb_true_iff; split; apply N.leb_le; lia.
  - do 3 (apply orb_true_iff; left). apply orb_true_iff; right.
    apply andb_true_iff; split; apply N.leb_le; lia.
  - done.
  - done.
Qed.

Lemma encode64_shape (l : list byte) :
  Forall (fun c => is_base64_char c = true) (encode64 l)
  ∧ length (encode64 l) = 4 * ((length l + 2) / 3).
Proof.
  assert (∀ n (l : list byte), length l ≤ n →
            Forall (fun c => is_base64_char c = true) (encode64 l)
            ∧ length (encode64 l) = 4 * ((length l + 2) / 3)) as H;
    [|by apply (H (length l))].
  clear l. intros n. induction n as [|n IH]; intros l Hl.
  - destruct l; [|simpl in Hl; lia]. split; [constructor|done].
  - destruct l as [|a [|b [|c rest]]].
    + split; [constructor|done].
    + split; [|done]. cbn [encode64].
      repeat constructor; apply base64_char_alphabet.
    + split; [|done]. cbn [encode64].
      repeat constructor; apply base64_char_alphabet.
    + destruct (IH rest) as [Hchars Hlen]; [simpl in Hl; lia|].
      cbn [encode64]. split.
      * apply Forall_app. split; [|done].
        repeat constructor; apply base64_char_alphabet.
      * rewrite length_app, Hlen. cbn [length].
        replace (S (S (S (length rest))) + 2) with (1 * 3 + (length rest + 2))
          by lia.
        rewrite Nat.div_add_l by done. lia.
Qed.

(** X20: the value of [products[1][data]] in the URL of a call that
    returns is base64 text with its padding: letters, digits, [+], [/] and
    [=] only, four characters for every three bytes of a ciphertext that is
    as long as the encrypted plaintext rounded up to the next multiple of 16
    bytes (a whole block more when it is one already), so at least 24
    characters. *)
Theorem createCheckout_data_shape
    (number : Type) (Number_toString : number → jsstring)
    (Number_truthy : number → bool)
    (rate : Type) (rate_toString : rate → jsstring) (rate_truthy : rate → bool)
    (base : option jsstring) (key iv : jsstring)
    (latest_rates : jsstring → result (jsstring → option rate))
    (options : CheckoutOptions number) (w w' : world) (url : jsstring) :
  createCheckout number Number_toString Number_truthy rate rate_toString
    rate_truthy base key iv latest_rates options w = (w', Ok url) →
  ∃ plaintext data,
    CipherEncrypt plaintext ∈ trace w'
    ∧ url = PAYPRO_API_BASE_URL base ++ js "/checkout?"
            ++ URLSearchParams_toString
                 (checkout_parameters Number_toString Number_truthy options data)
    ∧ Forall (fun c => is_base64_char c = true) data
    ∧ length data = 4 * ((16 * (length plaintext / 16 + 1) + 2) / 3)
    ∧ 24 ≤ length data.
Proof.
  intros Hrun.
  destruct (createCheckout_returns_parameters _ _ _ _ _ _ _ _ _ _ _ _ _ _ Hrun)
    as (plaintext & ciphertext & Henc & Htrace & Hurl).
  apply length_encrypt in Henc. rewrite length_binary_bytes in Henc.
  destruct (encode64_shape ciphertext) as [Hchars Hlen]. rewrite Henc in Hlen.
  exists plaintext, (encode64 ciphertext). split_and!; [done..|].
  rewrite Hlen.
  assert (18 / 3 ≤ (16 * (length plaintext / 16 + 1) + 2) / 3) as Hdiv
    by (apply Nat.Div0.div_le_mono; lia).
  change (18 / 3) with 6 in Hdiv. lia.
Qed.

Lemma createCheckout_data_shape_witness :
  ∃ w' url data,
    example_createCheckout lek_rates euro_checkout initial_world = (w', Ok url)
    ∧ CipherEncrypt (js "price%5BEUR%5D%5BAmount%5D=14") ∈ trace w'
    ∧ url = js "https://store.payproglobal.com/checkout?"
            ++ URLSearchParams_toString
                 (checkout_parameters Z_toString Z_truthy euro_checkout data)
    ∧ length data = 44.
Proof.
  destruct (example_createCheckout lek_rates euro_checkout initial_world)
    as [w' [url|e]] eqn:Hrun.
  - destruct (createCheckout_data_shape Z Z_toString Z_truthy Z Z_toString
                Z_truthy None example_key example_iv lek_rates euro_checkout
                initial_world w' url Hrun)
      as (plaintext & data & Htrace & Hurl & _ & Hlen & _).
    assert (w' = (example_createCheckout lek_rates euro_checkout initial_world).1)
      as Hw' by by rewrite Hrun.
    assert (plaintext = js "price%5BEUR%5D%5BAmount%5D=14") as ->.
    { rewrite Hw' in Htrace. vm_compute in Htrace.
      apply list_elem_of_singleton in Htrace. by injection Htrace. }
    exists w', url, data. split_and!; [reflexivity|exact Htrace|exact Hurl|].
    rewrite Hlen. reflexivity.
  - vm_compute in Hrun. discriminate Hrun.
Defined.

(** ** What the encrypted parameter covers *)

Lemma createCheckout_supported_returns
    (number : Type) (Number_toString : number → jsstring)
    (Number_truthy : number → bool)
    (rate : Type) (rate_toString : rate → jsstring) (rate_truthy : rate → bool)
    (base : option jsstring) (key iv : jsstring)
    (latest_rates : jsstring → result (jsstring → option rate))
    (options : CheckoutOptions number) (w w' : world) (url : jsstring) :
  currency number options ∈ PAYPRO_CURRENCIES →
  createCheckout number Number_toString Number_truthy rate rate_toString
    rate_truthy base key iv latest_rates options w = (w', Ok url) →
  ∃ ciphertext,
    AES.encrypt (binary_bytes key) (binary_bytes iv)
      (binary_bytes
         (URLSearchParams_toString
            [(js "price[" ++ currency number options ++ js "][Amount]",
              Number_toString (price number options))]))
    = Some ciphertext
    ∧ url = PAYPRO_API_BASE_URL base ++ js "/checkout?"
            ++ URLSearchParams_toString
                 (checkout_parameters Number_toString Number_truthy options
                    (encode64 ciphertext)).
Proof.
  intros Hcur. unfold createCheckout. rewrite bool_decide_true by done.
  unfold mbind, M_bind, mret, M_ret. rewrite forge_encrypt_run.
  cbn [URLSearchParams_set].
  destruct (AES.encrypt _ _ _) as [ciphertext|]; [|done].
  intros [= <- <-]. exists ciphertext. split; [done|].
  by rewrite checkoutParams_list.
Qed.

(** X21: the encrypted parameter covers the price and its currency and
    nothing else. Two requests in the same listed currency and with the
    same price get the same [products[1][data]], whatever their sku, their
    quantity and their other fields: the product id and the quantity stand
    outside of it, in the clear. *)
Theorem createCheckout_data_price_only
    (number : Type) (Number_toString : number → jsstring)
    (Number_truthy : number → bool)
    (rate : Type) (rate_toString : rate → jsstring) (rate_truthy : rate → bool)
    (base : option jsstring) (key iv : jsstring)
    (latest_rates : jsstring → result (jsstring → option rate))
    (options1 options2 : CheckoutOptions number)
    (w1 w2 w1' w2' : world) (url1 url2 : jsstring) :
  currency number options1 ∈ PAYPRO_CURRENCIES →
  currency number options2 = currency number options1 →
  price number options2 = price number options1 →
  createCheckout number Number_toString Number_truthy rate rate_toString
    rate_truthy base key iv latest_rates options1 w1 = (w1', Ok url1) →
  createCheckout number Number_toString Number_truthy rate rate_toString
    rate_truthy base key iv latest_rates options2 w2 = (w2', Ok url2) →
  ∃ data,
    url1 = PAYPRO_API_BASE_URL base ++ js "/checkout?"
           ++ URLSearchParams_toString
                (checkout_parameters Number_toString Number_truthy options1 data)
    ∧ url2 = PAYPRO_API_BASE_URL base ++ js "/checkout?"
             ++ URLSearchParams_toString
                  (checkout_parameters Number_toString Number_truthy options2 data).
Proof.
  intros Hcur Hsame Hprice Hrun1 Hrun2.
  apply createCheckout_supported_returns in Hrun1 as (c1 & Henc1 & ->); [|done].
  apply createCheckout_supported_returns in Hrun2 as (c2 & Henc2 & ->);
    [|by rewrite Hsame].
  rewrite Hsame, Hprice, Henc1 in Henc2. injection Henc2 as <-.
  by exists (encode64 c1).
Qed.

Lemma createCheckout_data_price_only_witness :
  let team := with_sku bare_checkout team_annual in
  ∃ w1' w2' url1 url2 data,
    example_createCheckout lek_rates euro_checkout initial_world = (w1', Ok url1)
    ∧ example_createCheckout lek_rates team initial_world = (w2', Ok url2)
    ∧ url1 = js "https://store.payproglobal.com/checkout?"
             ++ URLSearchParams_toString
                  (checkout_parameters Z_toString Z_truthy euro_checkout data)
    ∧ url2 = js "https://store.payproglobal.com/checkout?"
             ++ URLSearchParams_toString
                  (checkout_parameters Z_toString Z_truthy team data).
Proof.
  intros team.
  destruct (example_createCheckout lek_rates euro_checkout initial_world)
    as [w1' [url1|e]] eqn:Hrun1; [|vm_compute in Hrun1; discriminate Hrun1].
  destruct (example_createCheckout lek_rates team initial_world)
    as [w2' [url2|e]] eqn:Hrun2; [|vm_compute in Hrun2; discriminate Hrun2].
  assert (currency Z euro_checkout ∈ PAYPRO_CURRENCIES) as Hcur.
  { refine (bool_decide_unpack _ _). vm_compute. reflexivity. }
  destruct (createCheckout_data_price_only Z Z_toString Z_truthy Z Z_toString
              Z_truthy None example_key example_iv lek_rates euro_checkout team
              initial_world initial_world w1' w2' url1 url2 Hcur eq_refl
              eq_refl Hrun1 Hrun2)
    as (data & Hurl1 & Hurl2).
  by exists w1', w2', url1, url2, data.
Defined.
